(** * help-lazyload: a shallow embedding of [src/index.js]

    The library is one closure, [lazyLoad], holding six mutable variables
    and nine inner functions that talk to the browser.  The embedding
    keeps that shape:

    - the closure variables and the part of the browser that the code can
      see (DOM elements, pending animation frames, intersection observers,
      document listeners) form one record, [World];
    - every inner function is a computation in a state-and-exception
      monad [M] over [World]; an uncaught JavaScript exception leaves the
      mutations made so far in place, exactly as in the browser;
    - calls that leave the library (picturefill, requestAnimationFrame,
      observe, ...) are recorded in a trace, together with two ghost
      events that mark the entry of [_updateElement] and of the viewport
      scan.

    A call of a host value that is not a function throws, as it does in
    the browser: [window.picturefill] and [window.requestAnimationFrame]
    are only tested for truthiness by the code, and what the
    IntersectionObserver constructor throws on the configured margin and
    threshold is a parameter of the window.

    Modelling assumptions, all about the host and none about the library:
    attribute and listener primitives of an element and
    [document.addEventListener] succeed; the responsive-image reflow
    (picturefill), when it is a function, is an opaque call that returns
    and does not touch the deferred attributes; coordinates are integers
    and intersection ratios are rationals. *)

From Stdlib Require Import ZArith QArith Lia Ascii.
From stdpp Require Import base option list gmap strings.

Close Scope Q_scope.
Local Open Scope Z_scope.
Local Open Scope string_scope.

(** ** JavaScript values, as far as the capability probe needs them *)

Inductive JsVal : Type :=
| JUndefined
| JNull
| JBool (b : bool)
| JNumber (n : Z)
| JString (s : string)
| JFunction (ref : nat)
| JObject (ref : nat).

(** The [typeof] operator: its result is always a string. *)
Definition typeof (v : JsVal) : string :=
  match v with
  | JUndefined => "undefined"
  | JNull => "object"
  | JBool _ => "boolean"
  | JNumber _ => "number"
  | JString _ => "string"
  | JFunction _ => "function"
  | JObject _ => "object"
  end.

(** Strict equality [===]: values of different types are never equal. *)
Definition strict_eq (a b : JsVal) : bool :=
  match a, b with
  | JUndefined, JUndefined => true
  | JNull, JNull => true
  | JBool x, JBool y => Bool.eqb x y
  | JNumber x, JNumber y => Z.eqb x y
  | JString x, JString y => String.eqb x y
  | JFunction x, JFunction y => Nat.eqb x y
  | JObject x, JObject y => Nat.eqb x y
  | _, _ => false
  end.

(** ToBoolean. *)
Definition truthy (v : JsVal) : bool :=
  match v with
  | JUndefined | JNull => false
  | JBool b => b
  | JNumber n => negb (Z.eqb n 0)
  | JString s => negb (String.eqb s "")
  | JFunction _ | JObject _ => true
  end.

Definition callable (v : JsVal) : bool :=
  match v with JFunction _ => true | _ => false end.

(** ToBoolean of the result of [getAttribute], which is a string or null. *)
Definition truthy_attr (v : option string) : bool :=
  match v with
  | Some s => negb (String.eqb s "")
  | None => false
  end.

(** Exceptions, by constructor. *)
Inductive Err : Type :=
| TypeError (msg : string)
| ReferenceError (msg : string)
| SyntaxError (msg : string)
| RangeError (msg : string).

(** ** The window object *)

Record Window : Type := mkWindow {
  hasAddEventListener : bool;        (* 'addEventListener' in window *)
  requestAnimationFrame : JsVal;     (* window.requestAnimationFrame *)
  hasCancelAnimationFrame : bool;    (* the global cancelAnimationFrame exists *)
  getBoundingClientRect : JsVal;     (* document.body.getBoundingClientRect *)
  hasIntersectionObserver : bool;    (* 'IntersectionObserver' in window *)
  (* what [new IntersectionObserver(f, {rootMargin, threshold})] throws,
     if anything, on a margin and a threshold *)
  observerRejects : string -> Q -> option Err;
  picturefill : JsVal;               (* window.picturefill *)
  innerWidth : Z;
  innerHeight : Z;
  clientWidth : Z;                   (* document.documentElement.clientWidth *)
  clientHeight : Z
}.

Inductive CheckType : Type := ReallyOld | Old | New.

Definition checkType_tag (c : CheckType) : string :=
  match c with
  | ReallyOld => "really-old"
  | Old => "old"
  | New => "new"
  end.

(** The capability probe of [_lazyLoad] (lines 252-262).  The third
    disjunct compares the string returned by [typeof] with the value
    [undefined]. *)
Definition detect (win : Window) : CheckType :=
  if negb (hasAddEventListener win)
     || negb (truthy (requestAnimationFrame win))
     || strict_eq (JString (typeof (getBoundingClientRect win))) JUndefined
  then ReallyOld
  else if hasIntersectionObserver win then New
  else Old.

(** The probe as the specification words it: geometry querying is
    unavailable when [getBoundingClientRect] is undefined. *)
Definition geometry_unavailable (win : Window) : bool :=
  String.eqb (typeof (getBoundingClientRect win)) "undefined".

Definition detect_spec (win : Window) : CheckType :=
  if negb (hasAddEventListener win)
     || negb (truthy (requestAnimationFrame win))
     || geometry_unavailable win
  then ReallyOld
  else if hasIntersectionObserver win then New
  else Old.

(** ** DOM elements *)

Record Rect : Type := mkRect {
  rect_top : Z;
  rect_left : Z;
  rect_bottom : Z;
  rect_right : Z
}.

(** An element is referred to by its position in the document, so that
    two references to one node see each other's writes. *)
Record Element : Type := mkElement {
  tagName : string;
  attributes : gmap string string;   (* content attributes *)
  src : option string;               (* the value last assigned to [src] *)
  lazyloaded : bool;                 (* expando: [true], or [false] for undefined *)
  loadListener : bool;               (* [_loaded] registered for "load" *)
  parentNode : option nat;
  rect : Rect                        (* what getBoundingClientRect() returns *)
}.

Definition set_attributes (v : gmap string string) (e : Element) : Element :=
  match e with
  | mkElement tg _ sr lz ll pn rc => mkElement tg v sr lz ll pn rc
  end.
Definition set_src (v : option string) (e : Element) : Element :=
  match e with
  | mkElement tg atts _ lz ll pn rc => mkElement tg atts v lz ll pn rc
  end.
Definition set_lazyloaded (v : bool) (e : Element) : Element :=
  match e with
  | mkElement tg atts sr _ ll pn rc => mkElement tg atts sr v ll pn rc
  end.
Definition set_loadListener (v : bool) (e : Element) : Element :=
  match e with
  | mkElement tg atts sr lz _ pn rc => mkElement tg atts sr lz v pn rc
  end.

Definition hasAttribute (name : string) (e : Element) : bool :=
  bool_decide (is_Some (attributes e !! name)).

(** ** Configuration *)

(** A value of [options.pageUpdatedEventName]: a string, or any other
    value, of which the code uses the truthiness and the conversion to a
    string that [addEventListener] performs on its first argument
    ([None] when the conversion throws, as it does for a Symbol). *)
Inductive EventName : Type :=
| NameString (s : string)
| NameValue (to_boolean : bool) (to_string : option string).

Definition name_truthy (n : EventName) : bool :=
  match n with
  | NameString s => negb (String.eqb s "")
  | NameValue b _ => b
  end.

Definition name_string (n : EventName) : option string :=
  match n with
  | NameString s => Some s
  | NameValue _ s => s
  end.

Record Options : Type := mkOptions {
  pageUpdatedEventName : EventName;
  elementsSelector : Element -> bool;    (* [elements], as the set it selects *)
  rootMargin : string;
  threshold : Q;
  maxFrameCount : Z
}.

(** 'img[data-src], img[data-srcset], source[data-srcset],
     iframe[data-src], video[data-src], [data-lazyload]' *)
Definition default_elements (e : Element) : bool :=
  (String.eqb (tagName e) "IMG" && hasAttribute "data-src" e)
  || (String.eqb (tagName e) "IMG" && hasAttribute "data-srcset" e)
  || (String.eqb (tagName e) "SOURCE" && hasAttribute "data-srcset" e)
  || (String.eqb (tagName e) "IFRAME" && hasAttribute "data-src" e)
  || (String.eqb (tagName e) "VIDEO" && hasAttribute "data-src" e)
  || hasAttribute "data-lazyload" e.

Definition default_options : Options :=
  mkOptions (NameString "page:updated") default_elements "0px" 0%Q 10.

(** The argument [options_]: each recognised own property, when present. *)
Record Overrides : Type := mkOverrides {
  ov_pageUpdatedEventName : option EventName;
  ov_elements : option (Element -> bool);
  ov_rootMargin : option string;
  ov_threshold : option Q;
  ov_maxFrameCount : option Z
}.

Definition no_overrides : Overrides := mkOverrides None None None None None.

Definition merge_options (o : Options) (ov : Overrides) : Options :=
  mkOptions (default (pageUpdatedEventName o) (ov_pageUpdatedEventName ov))
            (default (elementsSelector o) (ov_elements ov))
            (default (rootMargin o) (ov_rootMargin ov))
            (default (threshold o) (ov_threshold ov))
            (default (maxFrameCount o) (ov_maxFrameCount ov)).

(** ** The browser side: observers and the trace of calls *)

Record Observer : Type := mkObserver {
  obs_rootMargin : string;
  obs_threshold : Q;
  observed : gset nat
}.

Definition set_observed (s : gset nat) (o : Observer) : Observer :=
  match o with
  | mkObserver margin thr _ => mkObserver margin thr s
  end.

Record Entry : Type := mkEntry {
  target : nat;
  intersectionRatio : Q
}.

Inductive Event : Type :=
| EvUpdate (i : nat)            (* ghost: [_updateElement] entered for node i *)
| EvScan                        (* ghost: the viewport scan of [els] begins *)
| EvPicturefill (i : nat)       (* window.picturefill({elements: [i]}) *)
| EvRect (i : nat)              (* i.getBoundingClientRect() *)
| EvRequestFrame (h : nat)      (* requestAnimationFrame(_setSrcs) returned h *)
| EvCancelFrame (h : option nat)
| EvNewObserver (o : nat)
| EvObserve (o i : nat)
| EvUnobserve (o i : nat)
| EvDisconnect (o : nat)
| EvListen (name : string).     (* document.addEventListener(name, _init, true) *)

(** ** The world: closure variables of [lazyLoad] and the host state *)

Record World : Type := mkWorld {
  (* let-bound variables of the closure *)
  options : Options;
  frameLoop : option nat;
  frameCount : option Z;
  els : list (option nat);           (* [None] is an [undefined] slot *)
  elsLength : option Z;
  observer : option nat;
  checkType : option CheckType;
  (* the host *)
  win : Window;
  document : list Element;
  pending : list nat;                (* requested, not yet run or cancelled *)
  nextHandle : nat;
  observers : list Observer;         (* an observer's id is its position *)
  docListeners : list string;        (* capture listeners bound to [_init] *)
  trace : list Event
}.

Definition set_options v (w : World) : World :=
  match w with
  | mkWorld _ fl fc es el ob ct wn doc pe nh obs dl tr =>
      mkWorld v fl fc es el ob ct wn doc pe nh obs dl tr
  end.
Definition set_frameLoop v (w : World) : World :=
  match w with
  | mkWorld op _ fc es el ob ct wn doc pe nh obs dl tr =>
      mkWorld op v fc es el ob ct wn doc pe nh obs dl tr
  end.
Definition set_frameCount v (w : World) : World :=
  match w with
  | mkWorld op fl _ es el ob ct wn doc pe nh obs dl tr =>
      mkWorld op fl v es el ob ct wn doc pe nh obs dl tr
  end.
Definition set_els v (w : World) : World :=
  match w with
  | mkWorld op fl fc _ el ob ct wn doc pe nh obs dl tr =>
      mkWorld op fl fc v el ob ct wn doc pe nh obs dl tr
  end.
Definition set_elsLength v (w : World) : World :=
  match w with
  | mkWorld op fl fc es _ ob ct wn doc pe nh obs dl tr =>
      mkWorld op fl fc es v ob ct wn doc pe nh obs dl tr
  end.
Definition set_observer v (w : World) : World :=
  match w with
  | mkWorld op fl fc es el _ ct wn doc pe nh obs dl tr =>
      mkWorld op fl fc es el v ct wn doc pe nh obs dl tr
  end.
Definition set_checkType v (w : World) : World :=
  match w with
  | mkWorld op fl fc es el ob _ wn doc pe nh obs dl tr =>
      mkWorld op fl fc es el ob v wn doc pe nh obs dl tr
  end.
Definition set_win v (w : World) : World :=
  match w with
  | mkWorld op fl fc es el ob ct _ doc pe nh obs dl tr =>
      mkWorld op fl fc es el ob ct v doc pe nh obs dl tr
  end.
Definition set_document v (w : World) : World :=
  match w with
  | mkWorld op fl fc es el ob ct wn _ pe nh obs dl tr =>
      mkWorld op fl fc es el ob ct wn v pe nh obs dl tr
  end.
Definition set_pending v (w : World) : World :=
  match w with
  | mkWorld op fl fc es el ob ct wn doc _ nh obs dl tr =>
      mkWorld op fl fc es el ob ct wn doc v nh obs dl tr
  end.
Definition set_nextHandle v (w : World) : World :=
  match w with
  | mkWorld op fl fc es el ob ct wn doc pe _ obs dl tr =>
      mkWorld op fl fc es el ob ct wn doc pe v obs dl tr
  end.
Definition set_observers v (w : World) : World :=
  match w with
  | mkWorld op fl fc es el ob ct wn doc pe nh _ dl tr =>
      mkWorld op fl fc es el ob ct wn doc pe nh v dl tr
  end.
Definition set_docListeners v (w : World) : World :=
  match w with
  | mkWorld op fl fc es el ob ct wn doc pe nh obs _ tr =>
      mkWorld op fl fc es el ob ct wn doc pe nh obs v tr
  end.
Definition set_trace v (w : World) : World :=
  match w with
  | mkWorld op fl fc es el ob ct wn doc pe nh obs dl _ =>
      mkWorld op fl fc es el ob ct wn doc pe nh obs dl v
  end.

(** The world in which [lazyLoad] starts to run: every closure variable
    still holds its initialiser. *)
Definition initial_world (wn : Window) (doc : list Element) : World :=
  mkWorld default_options None None [] None None None
          wn doc [] 1%nat [] [] [].

(** ** The monad: state that survives an exception *)

Inductive Result (A : Type) : Type :=
| Ok (a : A)
| Throw (e : Err).
Arguments Ok {A} a.
Arguments Throw {A} e.

Definition M (A : Type) : Type := World -> World * Result A.

#[global] Instance M_ret : MRet M := fun A a w => (w, Ok a).
#[global] Instance M_bind : MBind M := fun A B k m w =>
  match m w with
  | (w', Ok a) => k a w'
  | (w', Throw e) => (w', Throw e)
  end.
#[global] Instance M_throw : MThrow Err M := fun A e w => (w, Throw e).

Definition get : M World := fun w => (w, Ok w).
Definition modify (f : World -> World) : M unit := fun w => (f w, Ok tt).
Definition emit (ev : Event) : M unit :=
  modify (fun w => set_trace (trace w ++ [ev]) w).
Definition when (b : bool) (m : M unit) : M unit :=
  if b then m else mret tt.

(** [try { m } catch {}] *)
Definition try_catch (m : M unit) : M unit := fun w =>
  match m w with
  | (w', _) => (w', Ok tt)
  end.

(** [for (const x of l) body(x)], and with [seq 0 n] the counting loop
    [for (i = 0; i < n; i++) body(i)] whose bound the body leaves alone. *)
Fixpoint for_each {A : Type} (l : list A) (body : A -> M unit) : M unit :=
  match l with
  | [] => mret tt
  | x :: l' => body x ;; for_each l' body
  end.

Definition exec {A : Type} (m : M A) (w : World) : World := fst (m w).
Definition outcome {A : Type} (m : M A) (w : World) : Result A := snd (m w).

(** ** Host primitives *)

Definition element_at (w : World) (i : nat) : option Element := document w !! i.

Definition update_element (f : Element -> Element) (i : nat) : M unit :=
  modify (fun w => set_document (alter f i (document w)) w).

Definition getAttribute (i : nat) (name : string) : M (option string) :=
  w ← get; mret (element_at w i ≫= fun e => attributes e !! name).

Definition setAttribute (i : nat) (name value : string) : M unit :=
  update_element (fun e => set_attributes (<[name := value]> (attributes e)) e) i.

Definition removeAttribute (i : nat) (name : string) : M unit :=
  update_element (fun e => set_attributes (delete name (attributes e)) e) i.

(** [element.dataset[key] = value] writes the attribute [data-key]. *)
Definition dataset_set (i : nat) (key value : string) : M unit :=
  setAttribute i ("data-" ++ key) value.

(** [element.addEventListener('load', _loaded, false)]; registering the
    same listener twice keeps one registration. *)
Definition addEventListener_load (i : nat) : M unit :=
  update_element (set_loadListener true) i.

Definition removeEventListener_load (i : nat) : M unit :=
  update_element (set_loadListener false) i.

(** [window.requestAnimationFrame(_setSrcs)]: a TypeError when the value
    is not a function. *)
Definition host_requestAnimationFrame : M nat :=
  w ← get;
  if callable (requestAnimationFrame (win w)) then
    let h := nextHandle w in
    modify (fun w => set_nextHandle (S h) (set_pending (pending w ++ [h]) w)) ;;
    emit (EvRequestFrame h) ;;
    mret h
  else mthrow (TypeError "window.requestAnimationFrame is not a function").

(** [cancelAnimationFrame(h)]; the global itself may be missing. *)
Definition host_cancelAnimationFrame (hasCancel : bool) (h : option nat) : M unit :=
  if hasCancel then
    modify (fun w =>
      set_pending (filter (fun x => Some x ≠ h) (pending w)) w) ;;
    emit (EvCancelFrame h)
  else mthrow (ReferenceError "cancelAnimationFrame is not defined").

(** [new IntersectionObserver(_intersection, {rootMargin, threshold})]:
    the constructor throws on a margin or a threshold it rejects. *)
Definition host_newObserver (margin : string) (thr : Q) : M nat :=
  w ← get;
  match observerRejects (win w) margin thr with
  | Some err => mthrow err
  | None =>
      let o := length (observers w) in
      modify (fun w =>
        set_observers (observers w ++ [mkObserver margin thr ∅]) w) ;;
      emit (EvNewObserver o) ;;
      mret o
  end.

(** [window.picturefill({elements: [element]})]: a TypeError when the
    value is not a function. *)
Definition host_picturefill (i : nat) : M unit :=
  w ← get;
  if callable (picturefill (win w)) then emit (EvPicturefill i)
  else mthrow (TypeError "window.picturefill is not a function").

(** The elements whose [src] property reflects the content attribute of
    the same name. *)
Definition reflects_src (tag : string) : bool :=
  bool_decide (tag ∈ ["IMG"; "IFRAME"; "VIDEO"; "AUDIO"; "SOURCE"; "TRACK";
                      "EMBED"; "INPUT"; "SCRIPT"; "FRAME"]).

(** [element.src = v] on one element: on an element whose [src] reflects
    the attribute the attribute is written; elsewhere the assignment only
    creates a property. *)
Definition assign_src_elem (v : string) (e : Element) : Element :=
  let e' := set_src (Some v) e in
  if reflects_src (tagName e)
  then set_attributes (<["src" := v]> (attributes e')) e'
  else e'.

Definition assign_src (i : nat) (v : string) : M unit :=
  update_element (assign_src_elem v) i.

(** A method call on the closure variable [observer]: a TypeError while
    the variable is still undefined. *)
Definition with_observer (f : nat -> M unit) : M unit :=
  w ← get;
  match observer w with
  | Some o => f o
  | None => mthrow (TypeError "observer is undefined")
  end.

Definition observer_observe (i : nat) : M unit :=
  with_observer (fun o =>
    modify (fun w => set_observers
      (alter (fun ob => set_observed ({[i]} ∪ observed ob) ob) o (observers w)) w) ;;
    emit (EvObserve o i)).

Definition observer_unobserve (i : nat) : M unit :=
  with_observer (fun o =>
    modify (fun w => set_observers
      (alter (fun ob => set_observed (observed ob ∖ {[i]}) ob) o (observers w)) w) ;;
    emit (EvUnobserve o i)).

Definition observer_disconnect : M unit :=
  with_observer (fun o =>
    modify (fun w => set_observers (alter (set_observed ∅) o (observers w)) w) ;;
    emit (EvDisconnect o)).

(** [document.querySelectorAll]: the matching nodes in document order. *)
Fixpoint query_from (sel : Element -> bool) (k : nat) (doc : list Element)
  : list nat :=
  match doc with
  | [] => []
  | e :: doc' =>
      if sel e then k :: query_from sel (S k) doc'
      else query_from sel (S k) doc'
  end.

Definition querySelectorAll (sel : Element -> bool) (doc : list Element)
  : list nat := query_from sel 0%nat doc.

(** ** The inner functions of [lazyLoad] *)

(** [a[k] = v] on a JavaScript array: a write past the end extends the
    array, leaving holes that read as [undefined]. *)
Definition array_set {A : Type} (a : list (option A)) (k : nat) (v : option A)
  : list (option A) :=
  if decide (k < length a)%nat then <[k := v]> a
  else a ++ replicate (k - length a)%nat None ++ [v].

(** [a[i]]: a hole and an index out of range both read as [undefined]. *)
Definition array_get {A : Type} (a : list (option A)) (i : nat) : option A :=
  mjoin (a !! i).

(** [for (a = [], i = collection.length; i; ) a[--i] = collection[i];]
    the index is decremented before the right-hand side reads it. *)
Fixpoint htmlCollectionToArray_loop (collection : list nat) (i : nat)
  (a : list (option nat)) : list (option nat) :=
  match i with
  | O => a
  | S i' => htmlCollectionToArray_loop collection i'
              (array_set a i' (collection !! i'))
  end.

Definition htmlCollectionToArray (collection : list nat) : list (option nat) :=
  htmlCollectionToArray_loop collection (length collection) [].

(** [x > 0] for a number or [undefined]. *)
Definition js_positive (x : option Z) : bool :=
  match x with
  | Some n => Z.ltb 0 n
  | None => false
  end.

(** [a || b] on numbers. *)
Definition js_or (a b : Z) : Z := if Z.eqb a 0 then b else a.

Definition _elementInViewport (i : nat) : M bool :=
  w ← get;
  match element_at w i with
  | None => mthrow (TypeError "not an element")
  | Some e =>
      match (if String.eqb (tagName e) "SOURCE" then parentNode e else Some i) with
      | None => mthrow (TypeError "parentNode is null")
      | Some t =>
          if callable (getBoundingClientRect (win w)) then
            emit (EvRect t) ;;
            match element_at w t with
            | None => mthrow (TypeError "not an element")
            | Some et =>
                let r := rect et in
                mret (Z.ltb 0 (rect_bottom r)
                      && Z.ltb 0 (rect_right r)
                      && Z.ltb (rect_left r)
                           (js_or (innerWidth (win w)) (clientWidth (win w)))
                      && Z.ltb (rect_top r)
                           (js_or (innerHeight (win w)) (clientHeight (win w))))
            end
          else mthrow (TypeError "getBoundingClientRect is not a function")
      end
  end.

Definition _removeDataAttrs (i : nat) : M unit :=
  removeAttribute i "data-src" ;;
  removeAttribute i "data-srcset" ;;
  removeAttribute i "data-lazyload".

(** The "load" listener; [this] is the element it was registered on. *)
Definition _loaded (this : nat) : M unit :=
  removeEventListener_load this ;;
  _removeDataAttrs this.

Definition _updateElement (i : nat) : M unit :=
  emit (EvUpdate i) ;;
  srcset ← getAttribute i "data-srcset";
  src_ ← getAttribute i "data-src";
  dl ← getAttribute i "data-lazyload";
  let dlazyload := bool_decide (is_Some dl) in
  when (truthy_attr srcset)
    (setAttribute i "srcset" (default "" srcset) ;;
     w ← get;
     when (truthy (picturefill (win w))) (host_picturefill i)) ;;
  when (truthy_attr src_)
    (assign_src i (default "" src_)) ;;
  when dlazyload
    (dataset_set i "lazyloaded" "" ;;
     removeEventListener_load i ;;
     _removeDataAttrs i).

Definition positive_ratio (entry : Entry) : bool :=
  negb (Qle_bool (intersectionRatio entry) 0%Q).

Definition _intersection (entries : list Entry) : M unit :=
  w ← get;
  when (bool_decide (elsLength w = Some 0)) observer_disconnect ;;
  for_each entries (fun entry =>
    when (positive_ratio entry)
      (modify (fun w => set_elsLength (Z.pred <$> elsLength w) w) ;;
       observer_unobserve (target entry) ;;
       addEventListener_load (target entry) ;;
       _updateElement (target entry))).

Definition set_elsLength_to_length : M unit :=
  modify (fun w => set_elsLength (Some (Z.of_nat (length (els w)))) w).

(** The body of the first loop of the 'old' case. *)
Definition scan_one (i : nat) : M unit :=
  w ← get;
  match array_get (els w) i with
  | None => mret tt
  | Some e =>
      if bool_decide ((lazyloaded <$> element_at w e) = Some true) then mret tt
      else
        visible ← _elementInViewport e;
        when visible
          (modify (fun w => set_els (<[i := None]> (els w)) w) ;;
           update_element (set_lazyloaded true) e ;;
           addEventListener_load e ;;
           _updateElement e)
  end.

(** The body of the second loop: [els.splice(i, 1)] on an [undefined]. *)
Definition splice_one (i : nat) : M unit :=
  w ← get;
  when (bool_decide (array_get (els w) i = None))
    (modify (fun w => set_els (delete i (els w)) w)).

(** The three cases of the [switch] in [_setSrcs]. *)
Definition case_really_old : M unit :=
  w ← get;
  set_elsLength_to_length ;;
  for_each (seq 0 (length (els w))) (fun i =>
    w ← get;
    match array_get (els w) i with
    | Some e => _updateElement e ;; _removeDataAttrs e
    | None => mret tt
    end) ;;
  modify (set_els []).

(** The block guarded by [frameCount === options.maxFrameCount]. *)
Definition old_scan : M unit :=
  w ← get;
  emit EvScan ;;
  set_elsLength_to_length ;;
  for_each (seq 0 (length (els w))) scan_one ;;
  for_each (seq 0 (length (els w))) splice_one ;;
  set_elsLength_to_length ;;
  modify (set_frameCount (Some (-1))).

(** The block guarded by [elsLength > 0]. *)
Definition old_reschedule : M unit :=
  w ← get;
  when (js_positive (elsLength w))
    (modify (fun w => set_frameCount (Z.succ <$> frameCount w) w) ;;
     h ← host_requestAnimationFrame;
     modify (set_frameLoop (Some h))).

Definition case_old : M unit :=
  w ← get;
  when (bool_decide (frameCount w = Some (maxFrameCount (options w))))
    old_scan ;;
  old_reschedule.

Definition case_new : M unit :=
  w ← get;
  o ← host_newObserver (rootMargin (options w)) (threshold (options w));
  modify (set_observer (Some o)) ;;
  set_elsLength_to_length ;;
  for_each (seq 0 (length (els w))) (fun i =>
    w ← get;
    match array_get (els w) i with
    | Some e =>
        when (negb (bool_decide ((lazyloaded <$> element_at w e) = Some true)))
          (observer_observe e)
    | None => mret tt
    end).

Definition _setSrcs : M unit :=
  w ← get;
  match checkType w with
  | Some ReallyOld => case_really_old
  | Some Old => case_old
  | Some New => case_new
  | None => mret tt
  end.

Definition _init : M unit :=
  w ← get;
  match checkType w with
  | Some Old =>
      try_catch (host_cancelAnimationFrame
                   (hasCancelAnimationFrame (win w)) (frameLoop w))
  | Some New => try_catch observer_disconnect
  | _ => mret tt
  end ;;
  modify (fun w =>
    set_els (htmlCollectionToArray
               (querySelectorAll (elementsSelector (options w)) (document w))) w) ;;
  set_elsLength_to_length ;;
  modify (fun w => set_frameCount (Some (maxFrameCount (options w))) w) ;;
  _setSrcs.

(** [document.addEventListener(name, _init, true)] *)
Definition document_addEventListener (name : string) : M unit :=
  modify (fun w =>
    if bool_decide (name ∈ docListeners w) then w
    else set_docListeners (docListeners w ++ [name]) w) ;;
  emit (EvListen name).

Definition _lazyLoad (options_ : Overrides) : M unit :=
  modify (fun w => set_options (merge_options (options w) options_) w) ;;
  modify (fun w => set_checkType (Some (detect (win w))) w) ;;
  _init ;;
  w ← get;
  when (name_truthy (pageUpdatedEventName (options w)))
    (match name_string (pageUpdatedEventName (options w)) with
     | Some name => document_addEventListener name
     | None => mthrow (TypeError "Cannot convert the event type to a string")
     end).

(** The exported function: a fresh closure, then [_lazyLoad()]. *)
Definition lazyLoad (options_ : Overrides) (wn : Window) (doc : list Element)
  : World * Result unit :=
  _lazyLoad options_ (initial_world wn doc).

(** ** The host calling back *)

Inductive HostEvent : Type :=
| AnimationFrame (h : nat)          (* the callback requested under h runs *)
| Load (i : nat)                    (* "load" is dispatched at node i *)
| DocumentEvent (name : string)     (* a custom event reaches the document *)
| Intersections (entries : list Entry).  (* the observer delivers a batch *)

Definition dispatch (ev : HostEvent) : M unit :=
  w ← get;
  match ev with
  | AnimationFrame h =>
      when (bool_decide (h ∈ pending w))
        (modify (fun w => set_pending (filter (fun x => x ≠ h) (pending w)) w) ;;
         _setSrcs)
  | Load i =>
      when (bool_decide ((loadListener <$> element_at w i) = Some true))
        (_loaded i)
  | DocumentEvent name =>
      when (bool_decide (name ∈ docListeners w)) _init
  | Intersections entries => _intersection entries
  end.

(** An exception that escapes a callback is reported by the host and the
    page goes on with the world as the callback left it. *)
Definition run_events (evs : list HostEvent) (w : World) : World :=
  foldl (fun w ev => exec (dispatch ev) w) w evs.

(** ** Reading the trace *)

Definition is_update (i : nat) (ev : Event) : bool :=
  match ev with EvUpdate j => Nat.eqb i j | _ => false end.
Definition is_any_update (ev : Event) : bool :=
  match ev with EvUpdate _ => true | _ => false end.
Definition is_scan (ev : Event) : bool :=
  match ev with EvScan | EvRect _ => true | _ => false end.
Definition is_request (ev : Event) : bool :=
  match ev with EvRequestFrame _ => true | _ => false end.
Definition is_observe (ev : Event) : bool :=
  match ev with EvObserve _ _ => true | _ => false end.
Definition is_picturefill (ev : Event) : bool :=
  match ev with EvPicturefill _ => true | _ => false end.

Definition count (p : Event -> bool) (tr : list Event) : nat :=
  length (filter (fun ev => p ev = true) tr).

(** The deferred attributes of an element, and the predicates on them. *)
Definition deferred_names : list string :=
  ["data-src"; "data-srcset"; "data-lazyload"].

Definition no_deferred (e : Element) : Prop :=
  attributes e !! "data-src" = None
  ∧ attributes e !! "data-srcset" = None
  ∧ attributes e !! "data-lazyload" = None.

(** ** What the element functions do to one element

    [_removeDataAttrs] and [_updateElement] touch a single node; these are
    their effects on that node, proved below to be what the monadic code
    computes. *)

Definition removeDataAttrs_elem (e : Element) : Element :=
  set_attributes
    (delete "data-lazyload"
       (delete "data-srcset" (delete "data-src" (attributes e)))) e.

(** What a call of [_updateElement] that returns does to the node. *)
Definition updateElement_elem (e : Element) : Element :=
  let srcset := attributes e !! "data-srcset" in
  let src_ := attributes e !! "data-src" in
  let e1 := if truthy_attr srcset
            then set_attributes (<["srcset" := default "" srcset]> (attributes e)) e
            else e in
  let e2 := if truthy_attr src_ then assign_src_elem (default "" src_) e1 else e1 in
  if bool_decide (is_Some (attributes e !! "data-lazyload"))
  then removeDataAttrs_elem
         (set_loadListener false
            (set_attributes (<["data-lazyloaded" := ""]> (attributes e2)) e2))
  else e2.

(** What a call that stops at the picturefill call has done to it. *)
Definition updateElement_stuck (e : Element) : Element :=
  set_attributes
    (<["srcset" := default "" (attributes e !! "data-srcset")]> (attributes e)) e.

Definition updateElement_events (w : World) (i : nat) : list Event :=
  EvUpdate i ::
  if truthy_attr (element_at w i ≫= fun e => attributes e !! "data-srcset")
     && truthy (picturefill (win w))
  then [EvPicturefill i] else [].

(** [window.picturefill] is absent (falsy) or a function: the call
    guarded by [if (window.picturefill)] cannot throw. *)
Definition picturefill_ok (wn : Window) : bool :=
  negb (truthy (picturefill wn)) || callable (picturefill wn).

(** [_updateElement] on node [i] throws: the node has a non-empty
    data-srcset and [window.picturefill] is truthy and not a function. *)
Definition picturefill_fails (w : World) (i : nat) : bool :=
  truthy_attr (element_at w i ≫= fun e => attributes e !! "data-srcset")
  && negb (picturefill_ok (win w)).

(** The constructor accepts the configured margin and threshold. *)
Definition observer_accepted (w : World) : Prop :=
  observerRejects (win w) (rootMargin (options w)) (threshold (options w))
  = None.

Definition flagged (w : World) (i : nat) : Prop :=
  lazyloaded <$> element_at w i = Some true.

(** A predicate on worlds that a computation maintains whether it
    returns or throws. *)
Definition preserves {A : Type} (P : World -> Prop) (m : M A) : Prop :=
  forall w, P w -> P (exec m w).

(** ** Concrete pages and browsers used as examples *)

Definition img (attrs : gmap string string) (r : Rect) : Element :=
  mkElement "IMG" attrs None false false None r.

Definition rect_on_screen : Rect := mkRect 10 10 100 100.
Definition rect_below_fold : Rect := mkRect 5000 10 5100 100.

(** The constructor of the browsers below: a margin is up to four
    numbers in px or %, a threshold lies between 0 and 1. *)
Definition is_digit (c : ascii) : bool :=
  (48 <=? nat_of_ascii c)%nat && (nat_of_ascii c <=? 57)%nat.

Fixpoint skip_digits (s : string) : string :=
  match s with
  | String c s' => if is_digit c then skip_digits s' else s
  | EmptyString => s
  end.

Definition margin_token (s : string) : bool :=
  let s1 := match s with
            | String "-"%char r | String "+"%char r => r
            | _ => s
            end in
  let s2 := skip_digits s1 in
  let whole := (String.length s1 - String.length s2)%nat in
  match s2 with
  | String "."%char r =>
      let s3 := skip_digits r in
      (0 <? String.length r - String.length s3)%nat
      && (String.eqb s3 "px" || String.eqb s3 "%")
  | _ => (0 <? whole)%nat && (String.eqb s2 "px" || String.eqb s2 "%")
  end.

Definition valid_rootMargin (s : string) : bool :=
  (length (String.words s) <=? 4)%nat && forallb margin_token (String.words s).

Definition standard_observer (margin : string) (thr : Q) : option Err :=
  if negb (valid_rootMargin margin)
  then Some (SyntaxError "rootMargin must be specified in pixels or percent")
  else if Qle_bool 0 thr && Qle_bool thr 1 then None
  else Some (RangeError "threshold must be between 0 and 1").

(** A browser with animation frames and no IntersectionObserver. *)
Definition polling_browser : Window :=
  mkWindow true (JFunction 1) true (JFunction 2) false standard_observer
           JUndefined 1024 768 1024 768.

(** A browser with IntersectionObserver. *)
Definition observing_browser : Window :=
  mkWindow true (JFunction 1) true (JFunction 2) true standard_observer
           JUndefined 1024 768 1024 768.

(** A browser without requestAnimationFrame. *)
Definition ancient_browser : Window :=
  mkWindow true JUndefined false (JFunction 2) false standard_observer
           JUndefined 1024 768 1024 768.

(** Event listeners and animation frames, but no getBoundingClientRect. *)
Definition browser_without_geometry : Window :=
  mkWindow true (JFunction 1) true JUndefined false standard_observer
           JUndefined 1024 768 1024 768.

(** [ancient_browser] with [window.picturefill = true]; and
    [observing_browser] with [window.picturefill] an object that is not a
    function. *)
Definition ancient_browser_bad_picturefill : Window :=
  mkWindow true JUndefined false (JFunction 2) false standard_observer
           (JBool true) 1024 768 1024 768.

Definition observing_browser_bad_picturefill : Window :=
  mkWindow true (JFunction 1) true (JFunction 2) true standard_observer
           (JObject 7) 1024 768 1024 768.

Definition one_image : list Element :=
  [img {["data-src" := "a.png"]} rect_on_screen].

Definition small_page : list Element :=
  [img {["data-src" := "a.png"]} rect_on_screen;
   img {["data-src" := "b.png"]} rect_below_fold;
   img ∅ rect_on_screen;
   img {["data-lazyload" := ""; "data-srcset" := "x.png 2x"]} rect_on_screen].

(** ** Readings of the specification that the code does not follow *)

(** "The strategy is re-derived from fresh capability checks on every
    re-scan trigger." *)
Definition rescan_reprobes : Prop :=
  forall (w : World) (name : string),
    name ∈ docListeners w ->
    checkType (exec (dispatch (DocumentEvent name)) w) = Some (detect (win w)).

(** The page after an IntersectionObserver polyfill has been installed in
    a browser that started without one. *)
Definition polyfilled_later : World :=
  set_win observing_browser (fst (lazyLoad no_overrides polling_browser one_image)).

(** ** The 'really-old' pass, element by element *)

(** [_updateElement] followed by [_removeDataAttrs] on one node. *)
Definition activate_now (e : Element) : Element :=
  removeDataAttrs_elem (updateElement_elem e).

(** One turn of the loop of the 'really-old' case on the slot [oe]. *)
Definition really_old_step (w : World) (oe : option nat) : World :=
  match oe with
  | Some e =>
      set_trace (trace w ++ updateElement_events w e)
        (set_document (alter activate_now e (document w)) w)
  | None => w
  end.

(** ** The observation callback, entry by entry *)

Definition is_activation (ev : Event) : bool :=
  match ev with
  | EvUnobserve _ _ | EvUpdate _ => true
  | _ => false
  end.

(** The events of a trace that satisfy [p], in order. *)
Definition keep (p : Event -> bool) (tr : list Event) : list Event :=
  filter (fun ev => p ev = true) tr.

Definition positive_entries (entries : list Entry) : list Entry :=
  filter (fun entry => positive_ratio entry = true) entries.

(** One turn of the loop of [_intersection], run by observer [o]. *)
Definition intersect_step (o : nat) (w : World) (entry : Entry) : World :=
  if positive_ratio entry then
    let t := target entry in
    let w1 := set_elsLength (Z.pred <$> elsLength w) w in
    let w2 := set_trace (trace w1 ++ [EvUnobserve o t])
                (set_observers
                   (alter (fun ob => set_observed (observed ob ∖ {[t]}) ob) o
                          (observers w1)) w1) in
    let w3 := set_document (alter (set_loadListener true) t (document w2)) w2 in
    set_trace (trace w3 ++ updateElement_events w3 t)
      (set_document (alter updateElement_elem t (document w3)) w3)
  else w.

(** [observer.disconnect()] on observer [o]. *)
Definition disconnected (o : nat) (w : World) : World :=
  set_trace (trace w ++ [EvDisconnect o])
    (set_observers (alter (set_observed ∅) o (observers w)) w).

(** What one activation by the observer leaves in the trace. *)
Definition activation_of (o : nat) (entry : Entry) : list Event :=
  [EvUnobserve o (target entry); EvUpdate (target entry)].

(** The small page after [lazyLoad()] in each kind of browser. *)
Definition observed_page : World :=
  fst (lazyLoad no_overrides observing_browser small_page).

Definition polled_page : World :=
  fst (lazyLoad no_overrides polling_browser small_page).

(** A batch in which node 0 is half visible and node 1 is not visible. *)
Definition sample_batch : list Entry :=
  [mkEntry 0 (1 # 2)%Q; mkEntry 1 0%Q].

(** "An entry whose intersectionRatio is greater than 0 is activated." *)
Definition positive_entries_activated : Prop :=
  forall (w : World) (o : nat) (entries : list Entry) (entry : Entry),
    observer w = Some o ->
    entry ∈ entries ->
    (0 < intersectionRatio entry)%Q ->
    (count (is_update (target entry)) (trace w)
     < count (is_update (target entry))
         (trace (exec (_intersection entries) w)))%nat.

(** The small page under observation where [window.picturefill] is an
    object that is not a function, and a batch in which nodes 3 and 0
    are fully visible. *)
Definition observed_page_bad_picturefill : World :=
  fst (lazyLoad no_overrides observing_browser_bad_picturefill small_page).

Definition two_visible : list Entry := [mkEntry 3 1%Q; mkEntry 0 1%Q].

(** ** The polling loop between two scans *)

(** The tail of the 'old' case when the working set is not empty:
    [frameCount++] and a new animation frame for [_setSrcs]. *)
Definition rescheduled (w : World) : World :=
  let h := nextHandle w in
  set_frameLoop (Some h)
    (set_trace (trace w ++ [EvRequestFrame h])
       (set_nextHandle (S h)
          (set_pending (pending w ++ [h])
             (set_frameCount (Z.succ <$> frameCount w) w)))).

(** The same block stopped by the call of [requestAnimationFrame]: the
    counter has been incremented and nothing else has happened. *)
Definition bumped (w : World) : World :=
  set_frameCount (Z.succ <$> frameCount w) w.

(** The polling browser on the small page at the moment [_init] calls
    [_setSrcs]: the working set holds nodes 0, 1 and 3 and the counter
    is at its maximum, 10. *)
Definition about_to_scan : World :=
  set_frameCount (Some 10)
    (set_elsLength (Some 3)
       (set_els [Some 0; Some 1; Some 3]%nat
          (set_checkType (Some Old) (initial_world polling_browser small_page)))).

Definition just_scanned : World := exec _setSrcs about_to_scan.

(** ** The polling scan, slot by slot *)

(** What the 'old' scan does to a node it finds in the viewport: the
    expando, the load listener, then [_updateElement]. *)
Definition polled_activation (e : Element) : Element :=
  updateElement_elem (set_loadListener true (set_lazyloaded true e)).

(** The same where [_updateElement] stops at the picturefill call. *)
Definition polled_stuck (e : Element) : Element :=
  updateElement_stuck (set_loadListener true (set_lazyloaded true e)).

(** What a hit of the scan has done to the node when control leaves the
    four statements, normally or by the exception. *)
Definition hit_function (f : Element -> Element) : Prop :=
  f = polled_activation \/ f = polled_stuck.

(** What a world shows of the activations: the document and the
    sequence of [_updateElement] calls. *)
Definition updates (w : World) : list Event := keep is_any_update (trace w).

(** A function on worlds that shows nothing: it leaves the document
    alone and calls [_updateElement] on nothing. *)
Definition quiet (f : World -> World) : Prop :=
  forall w, document (f w) = document w /\ updates (f w) = updates w.

(** The three deferred attributes of an element. *)
Definition deferred_of (e : Element)
  : option string * option string * option string :=
  (attributes e !! "data-src", attributes e !! "data-srcset",
   attributes e !! "data-lazyload").

Definition unmarked (e : Element) : Prop :=
  attributes e !! "data-lazyload" = None.

(** ** The lifetime of a polling loop *)

(** The callbacks the host can make while the strategy is 'old': no
    observer exists, so no intersection batch is ever delivered. *)
Inductive polling_event : HostEvent -> Prop :=
| polling_frame (h : nat) : polling_event (AnimationFrame h)
| polling_load (i : nat) : polling_event (Load i)
| polling_rescan (name : string) : polling_event (DocumentEvent name).

(** What the page and its user do between two callbacks (scrolling,
    resizing, inserting nodes, rewriting attributes) may change every
    node but does not delete a node or clear its [lazyloaded] expando,
    which belongs to the library. *)
Definition flags_kept (doc doc' : list Element) : Prop :=
  forall i x, doc !! i = Some x ->
    exists x', doc' !! i = Some x' /\ (lazyloaded x = true -> lazyloaded x' = true).

(** The worlds a polling loop goes through, from the call of
    [lazyLoad()] in a browser where the probe selects 'old'. *)
Inductive polling_run : World -> Prop :=
| run_lazyLoad (ov : Overrides) (wn : Window) (doc : list Element) :
    detect wn = Old ->
    polling_run (fst (lazyLoad ov wn doc))
| run_event (w : World) (ev : HostEvent) :
    polling_run w -> polling_event ev ->
    polling_run (exec (dispatch ev) w)
| run_page (w : World) (wn' : Window) (doc' : list Element) :
    polling_run w -> flags_kept (document w) doc' ->
    polling_run (set_win wn' (set_document doc' w)).

(** Each node has been updated at most once, and an updated node carries
    the [lazyloaded] expando. *)
Definition once (doc : list Element) (tr : list Event) : Prop :=
  forall i, (count (is_update i) tr <= 1)%nat
            /\ ((0 < count (is_update i) tr)%nat ->
                lazyloaded <$> doc !! i = Some true).

(** Node [i] is [x] and has been updated [n] times. *)
Definition settled (i : nat) (x : Element) (n : nat)
  (doc : list Element) (tr : list Event) : Prop :=
  doc !! i = Some x /\ count (is_update i) tr = n.

(** "The 'old'-strategy compaction path removes the deferred attributes
    immediately after updating the element": every unmarked node that a
    pass of the 'old' case updates would come out of that pass without
    deferred attributes. *)
Definition old_compaction_strips : Prop :=
  forall (w : World) (i : nat) (e : Element),
    checkType w = Some Old ->
    element_at w i = Some e ->
    unmarked e ->
    (count (is_update i) (trace w)
     < count (is_update i) (trace (exec _setSrcs w)))%nat ->
    exists e', element_at (exec _setSrcs w) i = Some e' /\ no_deferred e'.

(** Node [i] keeps the deferred attributes [d], and has its load
    listener attached once it has been updated more than [n] times. *)
Definition awaiting_load (i : nat)
  (d : option string * option string * option string) (n : nat)
  (doc : list Element) (tr : list Event) : Prop :=
  exists x, doc !! i = Some x
            /\ deferred_of x = d
            /\ ((n < count (is_update i) tr)%nat -> loadListener x = true).

(** ** Predicates that the inner functions maintain *)

(** The configuration of a run: the strategy tag, the options and the
    window.  Only [_lazyLoad] assigns [checkType] and [options], and no
    function writes to the window. *)
Definition config (w : World) : option CheckType * Options * Window :=
  (checkType w, options w, win w).

(** The configuration is [c]. *)
Definition has_config (c : option CheckType * Options * Window) (w : World)
  : Prop := config w = c.

(** [Q] holds of what the world shows of the activations. *)
Definition shows (Q : list Element -> list Event -> Prop) (w : World) : Prop :=
  Q (document w) (updates w).

Definition polling_shows (Q : list Element -> list Event -> Prop) (w : World)
  : Prop := checkType w = Some Old /\ shows Q w.

(** Node [i] carries the deferred attributes [d]. *)
Definition keeps (i : nat) (d : option string * option string * option string)
  (w : World) : Prop :=
  exists x, document w !! i = Some x /\ deferred_of x = d.

Definition keeps_live (i : nat)
  (d : option string * option string * option string) (w : World) : Prop :=
  checkType w ≠ Some ReallyOld /\ keeps i d w.

(** ** The viewport test as a function of the world *)

Definition rect_in_viewport (wn : Window) (r : Rect) : bool :=
  Z.ltb 0 (rect_bottom r)
  && Z.ltb 0 (rect_right r)
  && Z.ltb (rect_left r) (js_or (innerWidth wn) (clientWidth wn))
  && Z.ltb (rect_top r) (js_or (innerHeight wn) (clientHeight wn)).

(** The calls [_elementInViewport] makes on node [e] and what it returns
    or throws. *)
Definition viewport_test (w : World) (e : nat) : list Event * Result bool :=
  match element_at w e with
  | None => ([], Throw (TypeError "not an element"))
  | Some x =>
      match (if String.eqb (tagName x) "SOURCE" then parentNode x else Some e) with
      | None => ([], Throw (TypeError "parentNode is null"))
      | Some t =>
          if callable (getBoundingClientRect (win w)) then
            match element_at w t with
            | None => ([EvRect t], Throw (TypeError "not an element"))
            | Some xt => ([EvRect t], Ok (rect_in_viewport (win w) (rect xt)))
            end
          else ([], Throw (TypeError "getBoundingClientRect is not a function"))
      end
  end.

(** A picture whose source has no layout box of its own. *)
Definition picture_page : list Element :=
  [mkElement "PICTURE" ∅ None false false None rect_on_screen;
   mkElement "SOURCE" {["data-srcset" := "a.webp"]} None false false
             (Some 0%nat) (mkRect 0 0 0 0)].

(** ** The 'new' case, slot by slot *)

Definition is_disconnect (ev : Event) : bool :=
  match ev with EvDisconnect _ => true | _ => false end.


(** The world in which [_init] calls [_setSrcs]: the working set is the
    selection and the frame counter is at its maximum. *)
Definition collected (w : World) : World :=
  let ids := querySelectorAll (elementsSelector (options w)) (document w) in
  set_frameCount (Some (maxFrameCount (options w)))
    (set_elsLength (Some (Z.of_nat (length ids)))
       (set_els (Some <$> ids) w)).


(** The teardown of [_init] under 'new': the previous observer, when
    there is one, is disconnected; the TypeError of a call on the
    undefined variable is caught. *)
Definition torn_down_new (w : World) : World :=
  match observer w with
  | Some o => disconnected o w
  | None => w
  end.

(** ** From activation to the load event *)

(** What the observer's callback does to the target of a positive entry:
    the load listener, then [_updateElement]. *)
Definition observed_activation (e : Element) : Element :=
  updateElement_elem (set_loadListener true e).

(** Node state [y] comes from [x] by one or more activations: the
    non-empty deferred values of [x] are live on [y], and [y] is either
    stripped already or still as deferred as [x] and waiting for its load
    event. *)
Definition live_src (x : Element) (v : string) (y : Element) : Prop :=
  src y = Some v
  /\ (reflects_src (tagName x) = true -> attributes y !! "src" = Some v).

Definition activated_from (x y : Element) : Prop :=
  tagName y = tagName x
  /\ (no_deferred y
      \/ (deferred_of y = deferred_of x /\ unmarked x /\ loadListener y = true))
  /\ (forall v, attributes x !! "data-src" = Some v -> v ≠ "" -> live_src x v y)
  /\ (forall v, attributes x !! "data-srcset" = Some v -> v ≠ "" ->
                attributes y !! "srcset" = Some v).

(** The node after its load event, if it still had the listener. *)
Definition after_load (y : Element) : Element :=
  if loadListener y then removeDataAttrs_elem (set_loadListener false y) else y.

(** ** The clean-up loop on the array alone *)

(** [k] turns of [if (els[i] === undefined) els.splice(i, 1)] from index
    [i] on: the index moves on after a splice too. *)
Fixpoint compact (k i : nat) (l : list (option nat)) : list (option nat) :=
  match k with
  | O => l
  | S k' =>
      compact k' (S i)
        (if bool_decide (array_get l i = None) then delete i l else l)
  end.

(** The nodes of an array, without its holes. *)
Definition live (l : list (option nat)) : list nat := omap id l.

(** No two holes of the array are next to each other. *)
Fixpoint sparse (l : list (option nat)) : bool :=
  match l with
  | [] => true
  | Some _ :: l' => sparse l'
  | None :: l' =>
      match l' with
      | None :: _ => false
      | _ => sparse l'
      end
  end.

(** The working set after the clean-up loop of the 'old' case. *)
Definition cleaned_up (w : World) : World :=
  exec (for_each (seq 0 (length (els w))) splice_one) w.

(** A working set in which the scan has just hit nodes 0 and 2, and one
    in which it has hit the neighbours 0 and 1. *)
Definition holes_apart : World :=
  set_els [None; Some 1; None; Some 3]%nat
    (set_checkType (Some Old) (initial_world polling_browser small_page)).

Definition holes_together : World :=
  set_els [None; None; Some 2; Some 3]%nat
    (set_checkType (Some Old) (initial_world polling_browser small_page)).

(** ** What a function leaves alone *)

(** The part [proj] of the world has the value [a]. *)
Definition reads {A : Type} (proj : World -> A) (a : A) (w : World) : Prop :=
  proj w = a.

(** The animation frames of the polling loop: the handle the closure
    holds in [frameLoop], the requests the host has pending and the next
    handle it will hand out. *)
Definition loop_state (w : World) : option nat * list nat * nat :=
  (frameLoop w, pending w, nextHandle w).

(** The observers: the closure variable and the host's objects. *)
Definition observer_state (w : World) : option nat * list Observer :=
  (observer w, observers w).

(** At most one frame is pending, and it is the one whose handle the
    closure holds in [frameLoop]. *)
Definition one_loop (w : World) : Prop :=
  pending w = [] \/ exists h, pending w = [h] /\ frameLoop w = Some h.

(** [cancelAnimationFrame(frameLoop)] where the global exists. *)
Definition cancelled (w : World) : World :=
  set_trace (trace w ++ [EvCancelFrame (frameLoop w)])
    (set_pending (filter (fun x => Some x ≠ frameLoop w) (pending w)) w).

(** A browser like [polling_browser] that lacks the global
    [cancelAnimationFrame]. *)
Definition browser_without_cancel : Window :=
  mkWindow true (JFunction 1) false (JFunction 2) false standard_observer
           JUndefined 1024 768 1024 768.

(** The world in which [_lazyLoad] calls [_init]: the options merged and
    the strategy selected. *)
Definition started (ov : Overrides) (wn : Window) (doc : list Element) : World :=
  set_checkType (Some (detect wn))
    (set_options (merge_options default_options ov) (initial_world wn doc)).

(** "When the selector matches zero elements no error is thrown." *)
Definition empty_selection_never_throws : Prop :=
  forall w : World,
    querySelectorAll (elementsSelector (options w)) (document w) = [] ->
    snd (_init w) = Ok tt.

(** "Under 'really-old' every deferred attribute is removed from every
    eligible element before the call returns." *)
Definition really_old_strips_all : Prop :=
  forall (w : World) (i : nat) (e : Element),
    checkType w = Some ReallyOld ->
    element_at w i = Some e ->
    elementsSelector (options w) e = true ->
    exists e', element_at (exec _init w) i = Some e' /\ no_deferred e'.

(** [lazyLoad({threshold: 7})] *)
Definition threshold_seven : Overrides :=
  mkOverrides None None None (Some 7%Q) None.

(** ** The host calls of each strategy *)

(** The calls strategy [c] may make: every strategy updates elements,
    reflows them and listens for the re-scan event; only 'old' measures
    layout and touches animation frames; only 'new' touches observers. *)
Definition allowed (c : CheckType) (ev : Event) : bool :=
  match ev with
  | EvUpdate _ | EvPicturefill _ | EvListen _ => true
  | EvScan | EvRect _ | EvRequestFrame _ | EvCancelFrame _ =>
      match c with Old => true | _ => false end
  | EvNewObserver _ | EvObserve _ _ | EvUnobserve _ _ | EvDisconnect _ =>
      match c with New => true | _ => false end
  end.

(** The strategy is [c], the trace holds only calls that [c] may make,
    and outside 'new' the closure variable [observer] is undefined. *)
Definition within (c : CheckType) (w : World) : Prop :=
  checkType w = Some c
  /\ Forall (fun ev => allowed c ev = true) (trace w)
  /\ match c with New => True | _ => observer w = None end.

(** ** One viewport scan as a function of the world it starts in *)

(** The viewport test of node [e] returns: the node exists, a SOURCE has
    a parent, and the node measured has [getBoundingClientRect]. *)
Definition measurable (w : World) (e : nat) : Prop :=
  exists b, (viewport_test w e).2 = Ok b.

Definition in_view (w : World) (e : nat) : bool :=
  match (viewport_test w e).2 with
  | Ok b => b
  | Throw _ => false
  end.

(** The scan acts on node [e]: it does not carry the expando and it is
    in the viewport. *)
Definition due (w : World) (e : nat) : bool :=
  negb (bool_decide ((lazyloaded <$> element_at w e) = Some true))
  && in_view w e.

(** The nodes of the working set the scan acts on, in order. *)
Definition scan_hits (w : World) : list nat :=
  filter (fun e => due w e = true) (live (els w)).

(** A slot of the working set after the scan has visited it. *)
Definition blank (w : World) (oe : option nat) : option nat :=
  match oe with
  | Some e => if due w e then None else Some e
  | None => None
  end.

(** The four statements that follow a positive viewport test, on slot
    [i] holding node [e]. *)
Definition scan_hit (i e : nat) (w : World) : World :=
  let w1 := set_els (<[i := None]> (els w)) w in
  let w2 := set_document
              (alter (set_loadListener true) e
                 (alter (set_lazyloaded true) e (document w1))) w1 in
  set_trace (trace w2 ++ updateElement_events w2 e)
    (set_document (alter updateElement_elem e (document w2)) w2).

(** What the viewport test reads of a node. *)
Definition shape (x : Element) : string * option nat * Rect :=
  (tagName x, parentNode x, rect x).

Definition activate_all (l : list nat) (doc : list Element) : list Element :=
  foldl (fun d e => alter polled_activation e d) doc l.

(** The world [w'] that the first loop of a scan started in [w] has
    reached when it has visited the slots below [k]. *)
Definition scanned (w : World) (k : nat) (w' : World) : Prop :=
  let hits := filter (fun e => due w e = true) (live (take k (els w))) in
  win w' = win w
  /\ loop_state w' = loop_state w
  /\ els w' = ((blank w <$> take k (els w)) ++ drop k (els w))%list
  /\ document w' = activate_all hits (document w)
  /\ updates w' = (updates w ++ (EvUpdate <$> hits))%list.

(** The teardown of [_init] under 'old': the pending frame is
    cancelled; where the global [cancelAnimationFrame] is missing, the
    ReferenceError is caught and nothing happens. *)
Definition torn_down_old (w : World) : World :=
  if hasCancelAnimationFrame (win w) then cancelled w else w.

(** The first scan of a page in a browser where the probe selects 'old'
    although no element can be measured. *)
Definition scan_without_geometry : World :=
  collected (started no_overrides browser_without_geometry one_image).

(** No callback of the sequence [evs], run from [w], throws. *)
Fixpoint calm (evs : list HostEvent) (w : World) : Prop :=
  match evs with
  | [] => True
  | ev :: evs' =>
      snd (dispatch ev w) = Ok tt /\ calm evs' (exec (dispatch ev) w)
  end.

(** Between two callbacks of a polling loop: [elsLength] is the length
    of the working set array, at most one frame is pending, and one is
    pending exactly when the array is not empty. *)
Definition polling_alive (w : World) : Prop :=
  elsLength w = Some (Z.of_nat (length (els w)))
  /\ one_loop w
  /\ (pending w = [] <-> els w = []).


(** What both outcomes of [_updateElement] leave alone on the node. *)
Definition same_outside_footprint (x x' : Element) : Prop :=
  tagName x' = tagName x
  /\ parentNode x' = parentNode x
  /\ rect x' = rect x
  /\ lazyloaded x' = lazyloaded x
  /\ (forall name,
        name ≠ "srcset" -> name ≠ "src" -> name ≠ "data-lazyloaded" ->
        name ≠ "data-src" -> name ≠ "data-srcset" ->
        name ≠ "data-lazyload" ->
        attributes x' !! name = attributes x !! name)
  /\ (reflects_src (tagName x) = false ->
      attributes x' !! "src" = attributes x !! "src").

(** ** The re-scan *)

(** The teardown with which [_init] begins, by strategy tag. *)
Definition torn_down (w : World) : World :=
  match checkType w with
  | Some Old => torn_down_old w
  | Some New => torn_down_new w
  | _ => w
  end.

(** ** The debounce when a scan throws *)

(** "No visibility check occurs before K animation-frame callbacks have
    elapsed since the most recent check": after a frame callback that
    scans, the next K frame callbacks do not. *)
Definition debounce_after_every_scan : Prop :=
  forall (w : World) (h : nat) (hs : list nat),
    checkType w = Some Old ->
    h ∈ pending w ->
    frameCount w = Some (maxFrameCount (options w)) ->
    Z.of_nat (length hs) <= maxFrameCount (options w) ->
    let w1 := exec (dispatch (AnimationFrame h)) w in
    count is_scan (trace (run_events (AnimationFrame <$> hs) w1))
    = count is_scan (trace w1).

Definition two_frames : Overrides := mkOverrides None None None None (Some 2).

(** A video below the fold with a deferred source. *)
Definition video_page : list Element :=
  [mkElement "VIDEO" ∅ None false false None rect_below_fold;
   mkElement "SOURCE" {["data-srcset" := "a.webm"]} None false false
             (Some 0%nat) (mkRect 0 0 0 0)].

(** A script of the page takes a node out of its parent. *)
Definition orphan (e : Element) : Element :=
  match e with
  | mkElement tg atts sr lz ll _ rc => mkElement tg atts sr lz ll None rc
  end.

Definition detach (i : nat) (w : World) : World :=
  set_document (alter orphan i (document w)) w.

(** Two polling loops, started by [lazyLoad()] and by a re-scan event in
    a browser without [cancelAnimationFrame]; the source is detached
    after the re-scan; then each loop has run one callback, and frames 3
    and 4 are pending with the counter at its maximum of 2. *)
Definition two_loops_detached : World :=
  run_events [AnimationFrame 1; AnimationFrame 2]
    (detach 1
       (run_events [DocumentEvent "page:updated"]
          (fst (lazyLoad two_frames browser_without_cancel video_page)))).

(** ** Properties *)

Local Open Scope list_scope.

#[local] Arguments insert : simpl never.
#[local] Arguments delete : simpl never.
#[local] Arguments lookup : simpl never.
#[local] Arguments alter : simpl never.

Ltac unfold_monad :=
  unfold when, emit, mbind, M_bind, mret, M_ret, mthrow, M_throw, get, modify in *.

(** *** The capability probe *)

Lemma typeof_never_undefined (v : JsVal) :
  strict_eq (JString (typeof v)) JUndefined = false.
Proof. reflexivity. Qed.

(** The probe never looks at the geometry API: its third disjunct is
    constantly false. *)
Lemma detect_eq (wn : Window) :
  detect wn =
  if negb (hasAddEventListener wn) || negb (truthy (requestAnimationFrame wn))
  then ReallyOld
  else if hasIntersectionObserver wn then New else Old.
Proof.
  unfold detect. rewrite typeof_never_undefined, orb_false_r. reflexivity.
Qed.

Lemma detect_spec_agrees (wn : Window) :
  geometry_unavailable wn = false -> detect wn = detect_spec wn.
Proof.
  intros Hg. rewrite detect_eq. unfold detect_spec. rewrite Hg, orb_false_r.
  reflexivity.
Qed.

(** Claim C1.  The probe is meant to select 'really-old' whenever
    getBoundingClientRect is unavailable.  In a browser that has event
    listeners and animation frames but no getBoundingClientRect the code
    selects 'old' where the claim requires 'really-old', and the first
    viewport scan then throws a TypeError. *)
Theorem detect_without_geometry :
  geometry_unavailable browser_without_geometry = true
  /\ detect_spec browser_without_geometry = ReallyOld
  /\ detect browser_without_geometry = Old
  /\ checkType (fst (lazyLoad no_overrides browser_without_geometry one_image))
     = Some Old
  /\ snd (lazyLoad no_overrides browser_without_geometry one_image)
     = Throw (TypeError "getBoundingClientRect is not a function").
Proof. repeat split; vm_compute; reflexivity. Qed.

(** *** Reasoning rules for the monad *)

Lemma exec_bind {A B : Type} (m : M A) (k : A -> M B) (w : World) :
  exec (m ≫= k) w =
  match m w with
  | (w', Ok a) => exec (k a) w'
  | (w', Throw _) => w'
  end.
Proof.
  unfold exec, mbind, M_bind. destruct (m w) as [w' [a|e]]; reflexivity.
Qed.

Lemma bind_ok_inv {A B : Type} (m : M A) (k : A -> M B) w w' b :
  (m ≫= k) w = (w', Ok b) ->
  exists a w1, m w = (w1, Ok a) /\ k a w1 = (w', Ok b).
Proof.
  unfold mbind, M_bind. destruct (m w) as [w1 [a|e]]; intros H.
  - exists a, w1. split; [reflexivity | exact H].
  - discriminate H.
Qed.

Lemma bind_get {B : Type} (k : World -> M B) (w : World) :
  (get ≫= k) w = k w w.
Proof. reflexivity. Qed.

Lemma bind_modify {B : Type} (f : World -> World) (k : unit -> M B) (w : World) :
  (modify f ≫= k) w = k tt (f w).
Proof. reflexivity. Qed.

Lemma bind_ret {A B : Type} (a : A) (k : A -> M B) (w : World) :
  (mret a ≫= k) w = k a w.
Proof. reflexivity. Qed.

Lemma bind_eq {A B : Type} (m : M A) (k : A -> M B) (w w1 : World) (a : A) :
  m w = (w1, Ok a) -> (m ≫= k) w = k a w1.
Proof. intros H. unfold mbind, M_bind. rewrite H. reflexivity. Qed.

Section Preserves.
Variable P : World -> Prop.

Lemma preserves_ret {A : Type} (a : A) : preserves P (mret a).
Proof. intros w Hw. exact Hw. Qed.

Lemma preserves_throw {A : Type} (e : Err) : preserves P (mthrow (A := A) e).
Proof. intros w Hw. exact Hw. Qed.

Lemma preserves_bind {A B : Type} (m : M A) (k : A -> M B) :
  preserves P m -> (forall a, preserves P (k a)) -> preserves P (m ≫= k).
Proof.
  intros Hm Hk w Hw. rewrite exec_bind.
  specialize (Hm w Hw). unfold exec in Hm.
  destruct (m w) as [w' [a|e]]; simpl in Hm; [apply Hk|]; assumption.
Qed.

(** After [get] the continuation may use that its argument is the
    current world. *)
Lemma preserves_get {B : Type} (k : World -> M B) :
  (forall w, P w -> P (exec (k w) w)) -> preserves P (get ≫= k).
Proof. intros Hk w Hw. rewrite exec_bind. simpl. apply Hk, Hw. Qed.

Lemma preserves_modify (f : World -> World) :
  (forall w, P w -> P (f w)) -> preserves P (modify f).
Proof. intros Hf w Hw. apply Hf, Hw. Qed.

Lemma preserves_when (b : bool) (m : M unit) :
  preserves P m -> preserves P (when b m).
Proof. intros Hm. destruct b; [exact Hm | apply preserves_ret]. Qed.

Lemma preserves_try_catch (m : M unit) :
  preserves P m -> preserves P (try_catch m).
Proof.
  intros Hm w Hw. specialize (Hm w Hw). unfold exec, try_catch in *.
  destruct (m w) as [w' r]. exact Hm.
Qed.

Lemma preserves_for_each {A : Type} (l : list A) (body : A -> M unit) :
  (forall x, x ∈ l -> preserves P (body x)) -> preserves P (for_each l body).
Proof.
  induction l as [|x l IH]; intros Hbody; simpl.
  - apply preserves_ret.
  - apply preserves_bind.
    + apply Hbody. left.
    + intros _. apply IH. intros y Hy. apply Hbody. right. exact Hy.
Qed.
End Preserves.

(** A loop whose body never throws is a left fold. *)
Lemma for_each_total {A : Type} (l : list A) (body : A -> M unit) (w : World) :
  (forall x w', x ∈ l -> snd (body x w') = Ok tt) ->
  for_each l body w = (foldl (fun w x => exec (body x) w) w l, Ok tt).
Proof.
  revert w. induction l as [|x l IH]; intros w Hbody; simpl.
  - reflexivity.
  - unfold mbind, M_bind. specialize (Hbody x w (list_elem_of_here _ _)) as Hx.
    unfold exec at 2. destruct (body x w) as [w1 r]. simpl in Hx. subst r.
    apply IH. intros y w' Hy. apply Hbody. right. exact Hy.
Qed.

(** A loop whose body, while an invariant holds, returns normally with
    the world [g w x], is the left fold of [g]. *)
Lemma for_each_steps {A : Type} (I : World -> Prop)
  (g : World -> A -> World) (l : list A) (body : A -> M unit) (w : World) :
  I w ->
  (forall x w', x ∈ l -> I w' -> body x w' = (g w' x, Ok tt) /\ I (g w' x)) ->
  for_each l body w = (foldl g w l, Ok tt).
Proof.
  revert w. induction l as [|x l IH]; intros w Hw Hbody; simpl.
  - reflexivity.
  - unfold mbind, M_bind.
    destruct (Hbody x w (list_elem_of_here _ _) Hw) as [Hx HI].
    rewrite Hx. apply IH; [exact HI|].
    intros y w' Hy. apply Hbody. right. exact Hy.
Qed.

(** *** The element functions *)

Lemma alter_missing {A : Type} (f : A -> A) (l : list A) (i : nat) :
  l !! i = None -> alter f i l = l.
Proof.
  intros Hi. apply list_eq. intros j. rewrite list_lookup_alter.
  case_decide; subst; [rewrite Hi|]; reflexivity.
Qed.

Lemma removeDataAttrs_eq (i : nat) (w : World) :
  _removeDataAttrs i w =
  (set_document (alter removeDataAttrs_elem i (document w)) w, Ok tt).
Proof.
  destruct w. unfold _removeDataAttrs, removeAttribute, update_element.
  unfold_monad. simpl. rewrite !list_alter_alter_eq.
  do 2 f_equal. apply list_alter_ext; [|reflexivity].
  intros [] _. reflexivity.
Qed.

Lemma loaded_eq (i : nat) (w : World) :
  _loaded i w =
  (set_document
     (alter (removeDataAttrs_elem ∘ set_loadListener false) i (document w)) w,
   Ok tt).
Proof.
  unfold _loaded, removeEventListener_load, update_element. unfold_monad.
  rewrite removeDataAttrs_eq. destruct w. simpl.
  rewrite list_alter_alter_eq. reflexivity.
Qed.

(** A call of [_updateElement] either stops at the picturefill call,
    having written the srcset attribute only, or runs to the end. *)
Lemma updateElement_cases (i : nat) (w : World) :
  _updateElement i w =
  if picturefill_fails w i
  then (set_trace (trace w ++ [EvUpdate i])
          (set_document (alter updateElement_stuck i (document w)) w),
        Throw (TypeError "window.picturefill is not a function"))
  else (set_trace (trace w ++ updateElement_events w i)
          (set_document (alter updateElement_elem i (document w)) w), Ok tt).
Proof.
  destruct w as [op fl fc es el ob ct wn doc pe nh obs dl tr].
  unfold _updateElement, updateElement_events, picturefill_fails,
    picturefill_ok, host_picturefill, assign_src, getAttribute, element_at,
    dataset_set, setAttribute, removeEventListener_load, update_element.
  unfold_monad. simpl.
  destruct (doc !! i) as [e|] eqn:He; simpl.
  - assert (Hfix : forall f : Element -> Element,
               f e = updateElement_elem e ->
               alter f i doc = alter updateElement_elem i doc).
    { intros f Hf. apply list_alter_ext; [|reflexivity].
      intros x Hx. congruence. }
    assert (Hfix0 : e = updateElement_elem e ->
               doc = alter updateElement_elem i doc).
    { intros Hf. apply list_eq. intros j. rewrite list_lookup_alter.
      case_decide; subst; [rewrite He; simpl; congruence | reflexivity]. }
    assert (Hstuck : alter
              (fun e0 => set_attributes
                 (<["srcset" := default "" (attributes e !! "data-srcset")]>
                    (attributes e0)) e0) i doc
              = alter updateElement_stuck i doc).
    { apply list_alter_ext; [|reflexivity]. intros x Hx.
      assert (x = e) by congruence. subst x. reflexivity. }
    destruct (truthy_attr (attributes e !! "data-srcset")) eqn:Hs;
    destruct (truthy (picturefill wn)) eqn:Hp;
    destruct (callable (picturefill wn)) eqn:Hcl;
    destruct (truthy_attr (attributes e !! "data-src")) eqn:Hr;
    destruct (bool_decide (is_Some (attributes e !! "data-lazyload"))) eqn:Hd;
    simpl; rewrite ?Hp; simpl; rewrite ?Hcl; simpl;
    try (rewrite Hstuck; reflexivity);
    rewrite ?removeDataAttrs_eq; simpl;
    rewrite <- ?(assoc_L (++)); simpl; rewrite ?list_alter_alter_eq;
    do 2 f_equal; first [apply Hfix | apply Hfix0];
    unfold updateElement_elem; rewrite ?Hs, ?Hr, ?Hd; destruct e; reflexivity.
  - rewrite alter_missing by exact He. reflexivity.
Qed.

Lemma picturefill_ok_fails (w : World) (i : nat) :
  picturefill_ok (win w) = true -> picturefill_fails w i = false.
Proof.
  intros H. unfold picturefill_fails. rewrite H. apply andb_false_r.
Qed.

(** Where picturefill is absent or a function the call returns. *)
Lemma updateElement_eq (i : nat) (w : World) :
  picturefill_ok (win w) = true ->
  _updateElement i w =
  (set_trace (trace w ++ updateElement_events w i)
     (set_document (alter updateElement_elem i (document w)) w), Ok tt).
Proof.
  intros H. rewrite updateElement_cases, (picturefill_ok_fails w i H).
  reflexivity.
Qed.

Lemma removeDataAttrs_elem_no_deferred (e : Element) :
  no_deferred (removeDataAttrs_elem e).
Proof.
  destruct e. unfold no_deferred, removeDataAttrs_elem. simpl.
  repeat split; simplify_map_eq; reflexivity.
Qed.

Lemma updateElement_elem_id (e : Element) :
  no_deferred e -> updateElement_elem e = e.
Proof.
  intros (Hsrc & Hset & Hdl). unfold updateElement_elem.
  rewrite Hsrc, Hset, Hdl. simpl. reflexivity.
Qed.

Lemma updateElement_elem_marked (e : Element) :
  is_Some (attributes e !! "data-lazyload") ->
  no_deferred (updateElement_elem e)
  /\ attributes (updateElement_elem e) !! "data-lazyloaded" = Some "".
Proof.
  intros Hdl. unfold updateElement_elem.
  rewrite (bool_decide_eq_true_2 _ Hdl). split.
  - apply removeDataAttrs_elem_no_deferred.
  - destruct e as [tg atts sr lz ll pn rc]. unfold assign_src_elem. simpl.
    destruct (truthy_attr (atts !! "data-srcset")),
             (truthy_attr (atts !! "data-src")); simpl;
      destruct (reflects_src tg); simpl;
      simplify_map_eq; reflexivity.
Qed.

Lemma updateElement_events_no_deferred (w : World) (i : nat) (e : Element) :
  element_at w i = Some e -> no_deferred e ->
  updateElement_events w i = [EvUpdate i].
Proof.
  intros He (_ & Hset & _). unfold updateElement_events.
  rewrite He. simpl. rewrite Hset. reflexivity.
Qed.

Lemma alter_fixpoint {A : Type} (f : A -> A) (l : list A) (i : nat) (x : A) :
  l !! i = Some x -> f x = x -> alter f i l = l.
Proof.
  intros Hi Hx. apply list_eq. intros j. rewrite list_lookup_alter.
  case_decide; subst; [rewrite Hi; simpl; congruence | reflexivity].
Qed.

(** With nothing deferred on the node, the call reads three nulls and
    skips every branch. *)
Lemma updateElement_no_deferred_eq (w : World) (i : nat) (e : Element) :
  element_at w i = Some e ->
  no_deferred e ->
  _updateElement i w = (set_trace (trace w ++ [EvUpdate i]) w, Ok tt).
Proof.
  intros He Hnd. rewrite updateElement_cases.
  assert (Hf : picturefill_fails w i = false).
  { unfold picturefill_fails. rewrite He. simpl.
    destruct Hnd as (_ & -> & _). reflexivity. }
  rewrite Hf.
  rewrite (updateElement_events_no_deferred w i e He Hnd).
  rewrite (alter_fixpoint updateElement_elem (document w) i e He
             (updateElement_elem_id e Hnd)).
  destruct w; reflexivity.
Qed.

(** Claim C10.  On an element that carries none of data-src, data-srcset
    and data-lazyload, [_updateElement] changes nothing: the document (its
    attributes, src properties and load listeners) is the same, and the
    only event is the ghost mark of the call, so picturefill is not
    invoked. *)
Theorem updateElement_without_deferred (w : World) (i : nat) (e : Element) :
  element_at w i = Some e ->
  no_deferred e ->
  _updateElement i w = (set_trace (trace w ++ [EvUpdate i]) w, Ok tt)
  /\ document (exec (_updateElement i) w) = document w
  /\ count is_picturefill (trace (exec (_updateElement i) w))
     = count is_picturefill (trace w).
Proof.
  intros He Hnd.
  pose proof (updateElement_no_deferred_eq w i e He Hnd) as Heq.
  split; [exact Heq|]. unfold exec. rewrite Heq. destruct w; simpl. split.
  - reflexivity.
  - unfold count. rewrite filter_app, length_app. simpl. lia.
Qed.

Lemma updateElement_without_deferred_witness :
  let w := initial_world polling_browser small_page in
  _updateElement 2 w = (set_trace (trace w ++ [EvUpdate 2%nat]) w, Ok tt)
  /\ document (exec (_updateElement 2) w) = document w
  /\ count is_picturefill (trace (exec (_updateElement 2) w))
     = count is_picturefill (trace w).
Proof.
  apply (updateElement_without_deferred
           (initial_world polling_browser small_page) 2
           (img ∅ rect_on_screen)).
  - reflexivity.
  - repeat split; reflexivity.
Defined.

Lemma updateElement_returns (i : nat) (w : World) :
  snd (_updateElement i w) = Ok tt <-> picturefill_fails w i = false.
Proof.
  rewrite updateElement_cases. destruct (picturefill_fails w i); simpl.
  - split; discriminate.
  - split; reflexivity.
Qed.

(** Claim C7.  For a call of [_updateElement] on an element carrying
    data-lazyload: the call leaves the element with the loaded marker
    and without deferred attributes exactly when it returns normally (a
    call stopped by [window.picturefill] does not get that far); and
    after a first call that has set the marker and stripped the deferred
    attributes, a second call returns normally, leaves the whole document
    as the first call left it and does not invoke picturefill. *)
Theorem updateElement_twice (w : World) (i : nat) (e : Element) :
  element_at w i = Some e ->
  is_Some (attributes e !! "data-lazyload") ->
  let w1 := exec (_updateElement i) w in
  let marked_and_stripped :=
    exists e1, element_at w1 i = Some e1
               /\ no_deferred e1
               /\ attributes e1 !! "data-lazyloaded" = Some "" in
  (snd (_updateElement i w) = Ok tt <-> marked_and_stripped)
  /\ (marked_and_stripped ->
      _updateElement i w1 = (set_trace (trace w1 ++ [EvUpdate i]) w1, Ok tt)
      /\ document (exec (_updateElement i) w1) = document w1).
Proof.
  intros He Hdl w1 marked_and_stripped.
  destruct (updateElement_elem_marked e Hdl) as [Hnd Hmark].
  split.
  - rewrite updateElement_returns. unfold marked_and_stripped, w1, exec.
    rewrite updateElement_cases. unfold element_at in *.
    destruct (picturefill_fails w i) eqn:Hf.
    + split; [discriminate|]. intros (e1 & He1 & Hnd1 & _). exfalso.
      destruct w; simpl in *. rewrite list_lookup_alter_eq, He in He1.
      injection He1 as <-.
      unfold picturefill_fails, element_at in Hf. simpl in Hf. rewrite He in Hf.
      apply andb_prop in Hf as [Hs _]. simpl in Hs.
      destruct Hnd1 as (_ & Hset & _).
      unfold updateElement_stuck in Hset. destruct e as [tg atts sr lz ll pn rc].
      simpl in *. rewrite lookup_insert_ne in Hset by discriminate.
      rewrite Hset in Hs. discriminate Hs.
    + split; [|reflexivity]. intros _. exists (updateElement_elem e).
      destruct w; simpl in *. rewrite list_lookup_alter_eq, He. auto.
  - intros (e1 & He1 & Hnd1 & _).
    pose proof (updateElement_no_deferred_eq w1 i e1 He1 Hnd1) as Heq.
    split; [exact Heq|]. unfold exec. rewrite Heq. destruct w1; reflexivity.
Qed.

Lemma updateElement_twice_witness :
  let w := initial_world polling_browser small_page in
  let w1 := exec (_updateElement 3) w in
  let marked_and_stripped :=
    exists e1, element_at w1 3 = Some e1
               /\ no_deferred e1
               /\ attributes e1 !! "data-lazyloaded" = Some "" in
  (snd (_updateElement 3 w) = Ok tt <-> marked_and_stripped)
  /\ (marked_and_stripped ->
      _updateElement 3 w1 = (set_trace (trace w1 ++ [EvUpdate 3%nat]) w1, Ok tt)
      /\ document (exec (_updateElement 3) w1) = document w1).
Proof.
  apply (updateElement_twice
           (initial_world polling_browser small_page) 3
           (img {["data-lazyload" := ""; "data-srcset" := "x.png 2x"]}
                rect_on_screen)).
  - reflexivity.
  - exists "". vm_compute. reflexivity.
Defined.

(** *** Frame rules: what no inner function touches *)

Lemma preserves_get_plain (P : World -> Prop) : preserves P get.
Proof. intros w Hw. exact Hw. Qed.

Ltac preserves_step :=
  lazymatch goal with
  | |- preserves _ (mret _) => apply preserves_ret
  | |- preserves _ (mthrow _) => apply preserves_throw
  | |- preserves _ get => apply preserves_get_plain
  | |- preserves _ (mbind _ _) => apply preserves_bind; [|intros ?]
  | |- preserves _ (when _ _) => apply preserves_when
  | |- preserves _ (try_catch _) => apply preserves_try_catch
  | |- preserves _ (for_each _ _) => apply preserves_for_each; intros ? _
  | |- preserves _ (match ?x with _ => _ end) => destruct x
  | |- preserves _ (emit _) => apply preserves_modify
  | |- preserves _ (modify _) => apply preserves_modify
  end.

Section ConfigFrame.
Variable c : option CheckType * Options * Window.

Ltac leaf := intros [] H; simpl; exact H.

Lemma config_update_element f i : preserves (has_config c) (update_element f i).
Proof. unfold update_element. apply preserves_modify. leaf. Qed.

Lemma config_removeDataAttrs i : preserves (has_config c) (_removeDataAttrs i).
Proof.
  unfold _removeDataAttrs, removeAttribute.
  repeat (simple apply config_update_element
          || preserves_step).
Qed.

Lemma config_updateElement i : preserves (has_config c) (_updateElement i).
Proof.
  unfold _updateElement, getAttribute, dataset_set, setAttribute,
    removeEventListener_load, host_picturefill, assign_src.
  repeat (simple apply config_update_element
          || simple apply config_removeDataAttrs
          || preserves_step
          || leaf).
Qed.

Lemma config_loaded i : preserves (has_config c) (_loaded i).
Proof.
  unfold _loaded, removeEventListener_load.
  repeat (simple apply config_update_element
          || simple apply config_removeDataAttrs
          || preserves_step).
Qed.

Lemma config_with_observer f :
  (forall o, preserves (has_config c) (f o)) -> preserves (has_config c) (with_observer f).
Proof.
  intros Hf. unfold with_observer. repeat (simple apply Hf
          || preserves_step).
Qed.

Lemma config_observer_disconnect : preserves (has_config c) observer_disconnect.
Proof.
  apply config_with_observer. intros o. repeat (preserves_step
          || leaf).
Qed.

Lemma config_observer_observe i : preserves (has_config c) (observer_observe i).
Proof.
  apply config_with_observer. intros o. repeat (preserves_step
          || leaf).
Qed.

Lemma config_observer_unobserve i : preserves (has_config c) (observer_unobserve i).
Proof.
  apply config_with_observer. intros o. repeat (preserves_step
          || leaf).
Qed.

Lemma config_elementInViewport i : preserves (has_config c) (_elementInViewport i).
Proof.
  unfold _elementInViewport. repeat (preserves_step
          || leaf).
Qed.

Lemma config_intersection entries : preserves (has_config c) (_intersection entries).
Proof.
  unfold _intersection, addEventListener_load.
  repeat (simple apply config_observer_disconnect
          || simple apply config_observer_unobserve
          || simple apply config_update_element
          || simple apply config_updateElement
          || preserves_step
          || leaf).
Qed.

Lemma config_scan_one i : preserves (has_config c) (scan_one i).
Proof.
  unfold scan_one, addEventListener_load.
  repeat (simple apply config_elementInViewport
          || simple apply config_update_element
          || simple apply config_updateElement
          || preserves_step
          || leaf).
Qed.

Lemma config_splice_one i : preserves (has_config c) (splice_one i).
Proof. unfold splice_one. repeat (preserves_step
          || leaf). Qed.

Lemma config_requestAnimationFrame : preserves (has_config c) host_requestAnimationFrame.
Proof. unfold host_requestAnimationFrame. repeat (preserves_step
          || leaf). Qed.

Lemma config_setSrcs : preserves (has_config c) _setSrcs.
Proof.
  unfold _setSrcs, case_really_old, case_old, old_scan, old_reschedule,
    case_new, set_elsLength_to_length, host_newObserver.
  repeat (simple apply config_scan_one
          || simple apply config_splice_one
          || simple apply config_updateElement
          || simple apply config_removeDataAttrs
          || simple apply config_requestAnimationFrame
          || simple apply config_observer_observe
          || preserves_step
          || leaf).
Qed.

Lemma config_init : preserves (has_config c) _init.
Proof.
  unfold _init, set_elsLength_to_length, host_cancelAnimationFrame.
  repeat (simple apply config_setSrcs
          || simple apply config_observer_disconnect
          || preserves_step
          || leaf).
Qed.

Lemma config_dispatch ev : preserves (has_config c) (dispatch ev).
Proof.
  unfold dispatch.
  repeat (simple apply config_setSrcs
          || simple apply config_init
          || simple apply config_loaded
          || simple apply config_intersection
          || preserves_step
          || leaf).
Qed.
End ConfigFrame.

Lemma dispatch_config (ev : HostEvent) (w : World) :
  config (exec (dispatch ev) w) = config w.
Proof. apply (config_dispatch (config w) ev w). reflexivity. Qed.

Lemma exec_config {A : Type} (m : M A) (w : World) c :
  preserves (has_config c) m -> config w = c -> config (exec m w) = c.
Proof. intros Hm Hw. apply Hm, Hw. Qed.

Lemma document_addEventListener_config name w :
  config (exec (document_addEventListener name) w) = config w.
Proof.
  destruct w. unfold document_addEventListener, exec. unfold_monad. simpl.
  case_bool_decide; reflexivity.
Qed.

Lemma config_document_addEventListener c name :
  preserves (has_config c) (document_addEventListener name).
Proof.
  intros w H. unfold has_config in *.
  rewrite document_addEventListener_config. exact H.
Qed.

(** What [_lazyLoad] does after it has merged the options and selected
    the strategy. *)
Lemma config_lazyLoad_tail c :
  preserves (has_config c)
    (_init ;;
     w ← get;
     when (name_truthy (pageUpdatedEventName (options w)))
       (match name_string (pageUpdatedEventName (options w)) with
        | Some name => document_addEventListener name
        | None => mthrow (TypeError "Cannot convert the event type to a string")
        end)).
Proof.
  repeat (simple apply config_init
          || simple apply config_document_addEventListener
          || preserves_step).
Qed.

Lemma lazyLoad_config ov wn doc :
  config (fst (lazyLoad ov wn doc))
  = (Some (detect wn), merge_options default_options ov, wn).
Proof.
  unfold lazyLoad, _lazyLoad. rewrite !bind_modify.
  change (fst (?m ?w)) with (exec m w).
  match goal with
  | |- config (exec _ ?w0) = ?c => apply (config_lazyLoad_tail c w0)
  end.
  reflexivity.
Qed.

Lemma lazyLoad_checkType ov wn doc :
  checkType (fst (lazyLoad ov wn doc)) = Some (detect wn).
Proof.
  pose proof (lazyLoad_config ov wn doc) as H. unfold config in H. congruence.
Qed.

(** Claim C3, as stated, fails: a page starts in a browser without
    IntersectionObserver, the API appears later, and the re-scan event
    still runs the polling strategy although a fresh probe would now
    select 'new'. *)
Lemma rescan_does_not_reprobe : ~ rescan_reprobes.
Proof.
  intros H. specialize (H polyfilled_later "page:updated").
  assert (Hin : "page:updated" ∈ docListeners polyfilled_later).
  { vm_compute. left. }
  specialize (H Hin). vm_compute in H. discriminate H.
Qed.

(** *** Initialisation over an empty selection *)

Lemma count_app (p : Event -> bool) (tr1 tr2 : list Event) :
  count p (tr1 ++ tr2) = (count p tr1 + count p tr2)%nat.
Proof. unfold count. rewrite filter_app, length_app. reflexivity. Qed.

Lemma count_nil (p : Event -> bool) : count p [] = 0%nat.
Proof. reflexivity. Qed.

Lemma count_cons (p : Event -> bool) (ev : Event) (tr : list Event) :
  count p (ev :: tr) = ((if p ev then 1 else 0) + count p tr)%nat.
Proof.
  unfold count. rewrite filter_cons.
  destruct (decide (p ev = true)) as [Hp|Hp].
  - rewrite Hp. reflexivity.
  - apply not_true_is_false in Hp. rewrite Hp. reflexivity.
Qed.

Ltac count_simpl := rewrite ?count_app, ?count_cons, ?count_nil; simpl.

(** Claim C8, as stated, fails under 'new': the observer is constructed
    before the working set is looked at, and with a threshold of 7 the
    constructor throws a RangeError although the selector matches
    nothing. *)
Lemma empty_selection_can_throw : ~ empty_selection_never_throws.
Proof.
  intros H.
  specialize (H (started threshold_seven observing_browser
                   [img ∅ rect_on_screen])).
  vm_compute in H. specialize (H eq_refl). discriminate H.
Qed.

(** Claim C8, amended.  When the selector matches nothing and, under
    'new', the constructor accepts the configured margin and threshold,
    [_init] returns normally under every strategy tag: the working set is
    empty, the document is untouched, no animation frame is requested
    (none is added to the pending ones), no element is observed or
    updated, and under 'new' the observer that was created observes
    nothing. *)
Theorem init_without_elements (w : World) :
  querySelectorAll (elementsSelector (options w)) (document w) = [] ->
  (checkType w = Some New -> observer_accepted w) ->
  exists w',
    _init w = (w', Ok tt)
    /\ els w' = []
    /\ document w' = document w
    /\ count is_request (trace w') = count is_request (trace w)
    /\ (forall h, h ∈ pending w' -> h ∈ pending w)
    /\ count is_observe (trace w') = count is_observe (trace w)
    /\ count is_any_update (trace w') = count is_any_update (trace w)
    /\ (checkType w = Some New ->
        exists o ob, observer w' = Some o /\ observers w' !! o = Some ob
                     /\ observed ob = ∅).
Proof.
  intros Hq Hacc. destruct w as [op fl fc es el ob ct wn doc pe nh obs dl tr].
  unfold querySelectorAll in Hq. unfold observer_accepted in Hacc.
  simpl in Hq, Hacc.
  unfold _init, _setSrcs, case_really_old, case_old, old_scan,
    old_reschedule, case_new, set_elsLength_to_length, try_catch,
    host_cancelAnimationFrame, observer_disconnect, with_observer,
    host_newObserver, host_requestAnimationFrame.
  unfold_monad. unfold querySelectorAll.
  destruct ct as [[| |]|]; simpl.
  - rewrite Hq. simpl.
    eexists. split; [reflexivity|]. simpl. repeat split; auto. discriminate.
  - destruct (hasCancelAnimationFrame wn); simpl; rewrite Hq; simpl;
      rewrite bool_decide_eq_true_2 by reflexivity; simpl;
      (eexists; split; [reflexivity|]); simpl;
      count_simpl; repeat split; auto; try lia; try discriminate.
    intros h Hh. apply list_elem_of_filter in Hh. tauto.
  - destruct ob as [o|]; simpl; rewrite Hq; simpl;
      rewrite (Hacc eq_refl); simpl;
      (eexists; split; [reflexivity|]); simpl;
      count_simpl; repeat split; auto; try lia; intros _.
    + eexists _, _. split; [reflexivity|].
      split; [apply list_lookup_middle; reflexivity | reflexivity].
    + eexists _, _. split; [reflexivity|].
      split; [apply list_lookup_middle; reflexivity | reflexivity].
  - rewrite Hq. simpl.
    eexists. split; [reflexivity|]. simpl. repeat split; auto. discriminate.
Qed.

Lemma init_without_elements_witness :
  let w := set_checkType (Some New)
             (initial_world observing_browser [img ∅ rect_on_screen]) in
  exists w',
    _init w = (w', Ok tt)
    /\ els w' = []
    /\ document w' = document w
    /\ count is_request (trace w') = count is_request (trace w)
    /\ (forall h, h ∈ pending w' -> h ∈ pending w)
    /\ count is_observe (trace w') = count is_observe (trace w)
    /\ count is_any_update (trace w') = count is_any_update (trace w)
    /\ (checkType w = Some New ->
        exists o ob, observer w' = Some o /\ observers w' !! o = Some ob
                     /\ observed ob = ∅).
Proof.
  apply (init_without_elements
           (set_checkType (Some New)
              (initial_world observing_browser [img ∅ rect_on_screen]))).
  - vm_compute. reflexivity.
  - intros _. vm_compute. reflexivity.
Defined.

(** *** Collecting the elements *)

Lemma query_from_spec sel k doc i :
  i ∈ query_from sel k doc <->
  exists j e, i = (k + j)%nat /\ doc !! j = Some e /\ sel e = true.
Proof.
  revert k. induction doc as [|e doc IH]; intros k; simpl.
  - split; [intros H; inversion H | intros (j & e & _ & H & _); discriminate H].
  - assert (Hrest : i ∈ query_from sel (S k) doc <->
                    exists j e', i = (k + S j)%nat /\ doc !! j = Some e'
                                 /\ sel e' = true).
    { rewrite IH. split; intros (j & e' & -> & H1 & H2); exists j, e';
        (split; [lia | auto]). }
    destruct (sel e) eqn:He.
    + rewrite elem_of_cons, Hrest. split.
      * intros [-> | (j & e' & -> & H1 & H2)].
        -- exists 0%nat, e. split; [lia | auto].
        -- exists (S j), e'. auto.
      * intros ([|j] & e' & -> & H1 & H2).
        -- left. lia.
        -- right. exists j, e'. auto.
    + rewrite Hrest. split.
      * intros (j & e' & -> & H1 & H2). exists (S j), e'. auto.
      * intros ([|j] & e' & -> & H1 & H2).
        -- unfold lookup in H1. simpl in H1. congruence.
        -- exists j, e'. auto.
Qed.

Lemma querySelectorAll_spec sel doc i :
  i ∈ querySelectorAll sel doc <-> exists e, doc !! i = Some e /\ sel e = true.
Proof.
  unfold querySelectorAll. rewrite query_from_spec. split.
  - intros (j & e & -> & H). exists e. exact H.
  - intros (e & H). exists i, e. split; [reflexivity | exact H].
Qed.

Lemma query_from_NoDup sel k doc : NoDup (query_from sel k doc).
Proof.
  revert k. induction doc as [|e doc IH]; intros k; simpl.
  - constructor.
  - destruct (sel e); [|apply IH]. constructor; [|apply IH].
    rewrite query_from_spec. intros (j & _ & Hj & _). lia.
Qed.

Lemma querySelectorAll_NoDup sel doc : NoDup (querySelectorAll sel doc).
Proof. apply query_from_NoDup. Qed.

Lemma htmlCollectionToArray_loop_spec (c : list nat) (i : nat) :
  (i < length c)%nat ->
  htmlCollectionToArray_loop c i (replicate i None ++ (Some <$> drop i c))
  = Some <$> c.
Proof.
  induction i as [|i IH]; intros Hi; cbn [htmlCollectionToArray_loop].
  - rewrite drop_0. reflexivity.
  - destruct (lookup_lt_is_Some_2 c i) as [x Hx]; [lia|].
    unfold array_set. rewrite decide_True.
    2:{ rewrite length_app, length_replicate. lia. }
    rewrite Hx. rewrite <- IH by lia. f_equal.
    rewrite (drop_S c x i Hx).
    rewrite replicate_S_end, <- (assoc_L (++)).
    rewrite insert_app_r_alt by (rewrite length_replicate; lia).
    rewrite length_replicate, Nat.sub_diag. reflexivity.
Qed.

(** The copying loop returns the collection itself, without holes. *)
Lemma htmlCollectionToArray_spec (c : list nat) :
  htmlCollectionToArray c = Some <$> c.
Proof.
  unfold htmlCollectionToArray. destruct (length c) as [|n] eqn:Hn.
  - destruct c; [reflexivity | discriminate Hn].
  - cbn [htmlCollectionToArray_loop].
    destruct (lookup_lt_is_Some_2 c n) as [x Hx]; [lia|].
    rewrite <- (htmlCollectionToArray_loop_spec c n) by lia. f_equal.
    unfold array_set. rewrite decide_False by (simpl; lia).
    simpl. rewrite Nat.sub_0_r, Hx. f_equal.
    rewrite (drop_S c x n Hx). rewrite drop_ge by lia. reflexivity.
Qed.

(** *** The 'really-old' strategy *)

Lemma foldl_pointwise {A B : Type} (f g : A -> B -> A) (a : A) (l : list B) :
  (forall a x, f a x = g a x) -> foldl f a l = foldl g a l.
Proof.
  intros Hfg. revert a. induction l as [|x l IH]; intros a; simpl.
  - reflexivity.
  - rewrite Hfg. apply IH.
Qed.

Lemma really_old_body_eq (i : nat) (w : World) :
  picturefill_ok (win w) = true ->
  (w0 ← get;
   match array_get (els w0) i with
   | Some e => _updateElement e ;; _removeDataAttrs e
   | None => mret tt
   end) w
  = (really_old_step w (array_get (els w) i), Ok tt).
Proof.
  intros Hpf. unfold mbind at 1, M_bind at 1, get.
  destruct (array_get (els w) i) as [e|]; [|reflexivity].
  unfold mbind, M_bind. rewrite updateElement_eq, removeDataAttrs_eq by exact Hpf.
  destruct w. simpl. rewrite list_alter_alter_eq. reflexivity.
Qed.

Lemma really_old_step_win w oe : win (really_old_step w oe) = win w.
Proof. destruct w, oe; reflexivity. Qed.

(** A counting loop that reads [els[i]] and leaves [els] alone visits
    the slots of [els] in order. *)
Lemma index_fold (step : World -> option nat -> World) :
  (forall w oe, els (step w oe) = els w) ->
  forall l1 l2 w,
    els w = l1 ++ l2 ->
    foldl (fun w i => step w (array_get (els w) i)) w
          (seq (length l1) (length l2))
    = foldl step w l2.
Proof.
  intros Hels l1 l2. revert l1. induction l2 as [|x l2 IH]; intros l1 w Hw.
  - reflexivity.
  - cbn [length seq foldl].
    assert (Hx : array_get (els w) (length l1) = x).
    { unfold array_get. rewrite Hw, list_lookup_middle by reflexivity.
      reflexivity. }
    rewrite Hx.
    specialize (IH (l1 ++ [x]) (step w x)).
    rewrite length_app in IH. simpl in IH.
    replace (length l1 + 1)%nat with (S (length l1)) in IH by lia.
    apply IH. rewrite Hels, Hw, <- (assoc_L (++)). reflexivity.
Qed.

Lemma really_old_step_els w oe : els (really_old_step w oe) = els w.
Proof. destruct w, oe; reflexivity. Qed.

Lemma setSrcs_really_old (w : World) :
  checkType w = Some ReallyOld ->
  picturefill_ok (win w) = true ->
  _setSrcs w =
  (set_els []
     (foldl really_old_step
        (set_elsLength (Some (Z.of_nat (length (els w)))) w) (els w)),
   Ok tt).
Proof.
  intros Hct Hpf. unfold _setSrcs. rewrite bind_get, Hct.
  unfold case_really_old, set_elsLength_to_length.
  rewrite bind_get, bind_modify.
  set (w1 := set_elsLength _ w).
  assert (Hels : els w1 = els w) by (destruct w; reflexivity).
  assert (Hpf1 : picturefill_ok (win w1) = true) by (destruct w; exact Hpf).
  erewrite bind_eq.
  2:{ apply (for_each_steps (fun w' => picturefill_ok (win w') = true)
               (fun w' i => really_old_step w' (array_get (els w') i)));
        [exact Hpf1|].
      intros i w' _ Hw'. split; [apply really_old_body_eq, Hw'|].
      rewrite really_old_step_win. exact Hw'. }
  unfold modify. f_equal. f_equal.
  rewrite <- Hels at 2.
  rewrite <- (index_fold really_old_step really_old_step_els [] (els w1) w1 eq_refl).
  rewrite Hels. reflexivity.
Qed.

Lemma fold_activate_frame ids w :
  let w' := foldl really_old_step w (Some <$> ids) in
  els w' = els w /\ pending w' = pending w /\ observers w' = observers w
  /\ observer w' = observer w /\ length (document w') = length (document w).
Proof.
  revert w. induction ids as [|e ids IH]; intros w.
  - repeat split; reflexivity.
  - rewrite fmap_cons. cbn [foldl]. cbv zeta in *.
    destruct (IH (really_old_step w (Some e))) as (H1 & H2 & H3 & H4 & H5).
    rewrite H1, H2, H3, H4, H5. destruct w; simpl.
    rewrite length_alter. repeat split; reflexivity.
Qed.

Lemma updateElement_events_count (p : Event -> bool) w e :
  p (EvUpdate e) = false -> p (EvPicturefill e) = false ->
  count p (updateElement_events w e) = 0%nat.
Proof.
  intros H1 H2. unfold updateElement_events.
  destruct (_ && _); count_simpl; rewrite ?H1, ?H2; reflexivity.
Qed.

Lemma updateElement_events_update j w e :
  count (is_update j) (updateElement_events w e)
  = if bool_decide (j = e) then 1%nat else 0%nat.
Proof.
  unfold updateElement_events.
  destruct (_ && _); count_simpl; case_bool_decide; subst;
    rewrite ?Nat.eqb_refl; try reflexivity;
    (destruct (Nat.eqb_spec j e); [contradiction | reflexivity]).
Qed.

Lemma fold_activate_spec ids :
  NoDup ids ->
  forall w j,
    let w' := foldl really_old_step w (Some <$> ids) in
    document w' !! j
    = (if bool_decide (j ∈ ids) then activate_now <$> document w !! j
       else document w !! j)
    /\ count (is_update j) (trace w')
       = (count (is_update j) (trace w)
          + if bool_decide (j ∈ ids) then 1 else 0)%nat
    /\ count is_request (trace w') = count is_request (trace w)
    /\ count is_observe (trace w') = count is_observe (trace w).
Proof.
  induction 1 as [|e ids Hnotin Hnd IH]; intros w j.
  - simpl. repeat split; lia.
  - rewrite fmap_cons. cbn [foldl]. cbv zeta in *.
    destruct (IH (really_old_step w (Some e)) j) as (Hd & Hu & Hr & Ho).
    rewrite Hd, Hu, Hr, Ho. clear Hd Hu Hr Ho IH.
    destruct w as [op fl fc es el ob ct wn doc pe nh obs dl tr]. simpl.
    rewrite !count_app, updateElement_events_update.
    rewrite !updateElement_events_count by reflexivity.
    rewrite list_lookup_alter.
    destruct (decide (j = e)) as [->|Hne].
    + rewrite (bool_decide_eq_false_2 (e ∈ ids)) by exact Hnotin.
      rewrite (bool_decide_eq_true_2 (e ∈ e :: ids)) by left.
      rewrite decide_True by reflexivity.
      rewrite bool_decide_eq_true_2 by reflexivity.
      repeat split; lia.
    + rewrite decide_False by congruence.
      rewrite (bool_decide_eq_false_2 (j = e)) by exact Hne.
      assert (Hiff : j ∈ e :: ids <-> j ∈ ids).
      { rewrite elem_of_cons. tauto. }
      rewrite (bool_decide_ext _ _ Hiff).
      repeat split; lia.
Qed.


Lemma truthy_attr_Some (v : string) : v ≠ "" -> truthy_attr (Some v) = true.
Proof.
  intros Hv. simpl. destruct (String.eqb_spec v ""); [contradiction | reflexivity].
Qed.

Lemma activate_now_spec (e : Element) :
  no_deferred (activate_now e)
  /\ (forall v, attributes e !! "data-src" = Some v -> v ≠ "" ->
                src (activate_now e) = Some v
                /\ (reflects_src (tagName e) = true ->
                    attributes (activate_now e) !! "src" = Some v))
  /\ (forall v, attributes e !! "data-srcset" = Some v -> v ≠ "" ->
                attributes (activate_now e) !! "srcset" = Some v).
Proof.
  split; [apply removeDataAttrs_elem_no_deferred|].
  unfold activate_now, updateElement_elem, removeDataAttrs_elem,
    assign_src_elem.
  destruct e as [tg atts sr lz ll pn rc]. simpl. split.
  - intros v Hv Hne. rewrite Hv, (truthy_attr_Some v Hne).
    destruct (truthy_attr (atts !! "data-srcset")), (bool_decide _);
      simpl; destruct (reflects_src tg); simpl;
      (split; [reflexivity | intros Hr; try discriminate Hr]);
      simplify_map_eq; reflexivity.
  - intros v Hv Hne. rewrite Hv, (truthy_attr_Some v Hne).
    destruct (truthy_attr (atts !! "data-src")), (bool_decide _); simpl;
      try (destruct (reflects_src tg)); simpl;
      simplify_map_eq; reflexivity.
Qed.

Lemma init_really_old (w : World) :
  checkType w = Some ReallyOld ->
  picturefill_ok (win w) = true ->
  let ids := querySelectorAll (elementsSelector (options w)) (document w) in
  _init w =
  (set_els []
     (foldl really_old_step
        (set_frameCount (Some (maxFrameCount (options w)))
           (set_elsLength (Some (Z.of_nat (length ids)))
              (set_els (Some <$> ids) w)))
        (Some <$> ids)),
   Ok tt).
Proof.
  intros Hct Hpf ids. unfold _init.
  unfold mbind at 1, M_bind at 1, get. rewrite Hct.
  unfold set_elsLength_to_length. unfold_monad.
  rewrite htmlCollectionToArray_spec. fold ids.
  match goal with |- context [_setSrcs ?x] => set (w1 := x) end.
  assert (H1 : checkType w1 = Some ReallyOld) by (destruct w; exact Hct).
  assert (H2 : picturefill_ok (win w1) = true) by (destruct w; exact Hpf).
  rewrite (setSrcs_really_old w1 H1 H2).
  destruct w. simpl. rewrite !length_fmap. reflexivity.
Qed.

(** Claim C4, as stated, fails where [window.picturefill] is truthy and
    not a function: on the small page the pass throws a TypeError at
    node 3, which keeps its data-srcset and data-lazyload. *)
Lemma really_old_stops_at_picturefill : ~ really_old_strips_all.
Proof.
  intros H.
  destruct (H (started no_overrides ancient_browser_bad_picturefill small_page)
              3%nat
              (img {["data-lazyload" := ""; "data-srcset" := "x.png 2x"]}
                   rect_on_screen))
    as (e' & He' & Hnd).
  - reflexivity.
  - reflexivity.
  - vm_compute. reflexivity.
  - vm_compute in He'. injection He' as <-.
    destruct Hnd as (_ & Hset & _). vm_compute in Hset. discriminate Hset.
Qed.

(** Claim C4, amended.  Under 'really-old', where [window.picturefill] is
    absent or a function, one call of [_init] returns normally with an
    empty working set and nothing scheduled (the pending frames and the
    observers are as before, no frame is requested, no element is
    observed); every element the selector matches is updated exactly
    once, ends without any deferred attribute, and has its data-src and
    data-srcset values, when non-empty, copied to src (the property, and
    the attribute where it reflects the property) and to srcset.  The
    rectangle of an element plays no part. *)
Theorem really_old_activates_all (w : World) :
  checkType w = Some ReallyOld ->
  picturefill_ok (win w) = true ->
  exists w',
    _init w = (w', Ok tt)
    /\ els w' = []
    /\ pending w' = pending w
    /\ observers w' = observers w
    /\ count is_request (trace w') = count is_request (trace w)
    /\ count is_observe (trace w') = count is_observe (trace w)
    /\ forall i e,
         element_at w i = Some e ->
         elementsSelector (options w) e = true ->
         count (is_update i) (trace w') = S (count (is_update i) (trace w))
         /\ exists e',
              element_at w' i = Some e'
              /\ no_deferred e'
              /\ (forall v, attributes e !! "data-src" = Some v -> v ≠ "" ->
                            src e' = Some v
                            /\ (reflects_src (tagName e) = true ->
                                attributes e' !! "src" = Some v))
              /\ (forall v, attributes e !! "data-srcset" = Some v -> v ≠ "" ->
                            attributes e' !! "srcset" = Some v).
Proof.
  intros Hct Hpf. eexists. split; [apply (init_really_old w Hct Hpf)|].
  set (ids := querySelectorAll (elementsSelector (options w)) (document w)).
  set (w1 := set_frameCount _ _).
  pose proof (fold_activate_frame ids w1) as (_ & Hp & Ho & _ & _).
  assert (Hfields : pending w1 = pending w /\ observers w1 = observers w
                    /\ trace w1 = trace w /\ document w1 = document w)
    by (destruct w; repeat split; reflexivity).
  destruct Hfields as (Hp1 & Ho1 & Ht1 & Hd1).
  assert (Hset : forall x : World,
            pending (set_els [] x) = pending x
            /\ observers (set_els [] x) = observers x
            /\ trace (set_els [] x) = trace x
            /\ document (set_els [] x) = document x
            /\ els (set_els [] x) = [])
    by (intros []; repeat split; reflexivity).
  destruct (Hset (foldl really_old_step w1 (Some <$> ids)))
    as (Hsp & Hso & Hst & Hsd & Hse).
  rewrite Hse, Hsp, Hso, Hst, Hp, Ho, Hp1, Ho1.
  pose proof (fold_activate_spec ids (querySelectorAll_NoDup _ _) w1) as Hspec.
  cbv zeta in Hspec.
  split; [reflexivity|]. split; [reflexivity|]. split; [reflexivity|].
  destruct (Hspec 0%nat) as (_ & _ & Hr & Hob). rewrite Hr, Hob, Ht1.
  split; [reflexivity|]. split; [reflexivity|].
  intros i e He Hsel.
  assert (Hin : i ∈ ids).
  { apply querySelectorAll_spec. exists e. split; assumption. }
  destruct (Hspec i) as (Hdoc & Hupd & _ & _).
  rewrite (bool_decide_eq_true_2 _ Hin) in Hdoc, Hupd.
  split; [rewrite Hupd, Ht1; lia|].
  exists (activate_now e). unfold element_at in *.
  rewrite Hsd, Hdoc, Hd1, He. split; [reflexivity|].
  apply activate_now_spec.
Qed.

Lemma really_old_activates_all_witness :
  let w := set_checkType (Some ReallyOld)
             (initial_world ancient_browser small_page) in
  exists w',
    _init w = (w', Ok tt)
    /\ els w' = []
    /\ pending w' = pending w
    /\ observers w' = observers w
    /\ count is_request (trace w') = count is_request (trace w)
    /\ count is_observe (trace w') = count is_observe (trace w)
    /\ forall i e,
         element_at w i = Some e ->
         elementsSelector (options w) e = true ->
         count (is_update i) (trace w') = S (count (is_update i) (trace w))
         /\ exists e',
              element_at w' i = Some e'
              /\ no_deferred e'
              /\ (forall v, attributes e !! "data-src" = Some v -> v ≠ "" ->
                            src e' = Some v
                            /\ (reflects_src (tagName e) = true ->
                                attributes e' !! "src" = Some v))
              /\ (forall v, attributes e !! "data-srcset" = Some v -> v ≠ "" ->
                            attributes e' !! "srcset" = Some v).
Proof.
  apply (really_old_activates_all
           (set_checkType (Some ReallyOld)
              (initial_world ancient_browser small_page))).
  - reflexivity.
  - reflexivity.
Defined.

(** *** The observation strategy *)

Lemma intersection_body_eq (o : nat) (entry : Entry) (w : World) :
  observer w = Some o ->
  picturefill_ok (win w) = true ->
  when (positive_ratio entry)
    (modify (fun w => set_elsLength (Z.pred <$> elsLength w) w) ;;
     observer_unobserve (target entry) ;;
     addEventListener_load (target entry) ;;
     _updateElement (target entry)) w
  = (intersect_step o w entry, Ok tt).
Proof.
  intros Ho Hpf. unfold intersect_step, when.
  destruct (positive_ratio entry); [|reflexivity].
  unfold observer_unobserve, with_observer, addEventListener_load,
    update_element.
  unfold mbind, M_bind, modify, emit, get.
  destruct w as [op fl fc es el ob ct wn doc pe nh obs dl tr].
  simpl in *. subst ob. simpl. unfold mbind, M_bind, modify. simpl.
  rewrite updateElement_eq by exact Hpf. reflexivity.
Qed.

Lemma intersect_step_observer o w entry :
  observer (intersect_step o w entry) = observer w.
Proof.
  unfold intersect_step. destruct (positive_ratio entry); [|reflexivity].
  destruct w; reflexivity.
Qed.

Lemma intersect_step_win o w entry :
  win (intersect_step o w entry) = win w.
Proof.
  unfold intersect_step. destruct (positive_ratio entry); [|reflexivity].
  destruct w; reflexivity.
Qed.

Lemma intersection_eq (o : nat) (entries : list Entry) (w : World) :
  observer w = Some o ->
  picturefill_ok (win w) = true ->
  _intersection entries w =
  (foldl (intersect_step o)
     (if bool_decide (elsLength w = Some 0) then disconnected o w else w)
     entries,
   Ok tt).
Proof.
  intros Ho Hpf. unfold _intersection. unfold mbind at 1, M_bind at 1, get.
  set (w0 := if bool_decide (elsLength w = Some 0) then disconnected o w else w).
  assert (H0 : when (bool_decide (elsLength w = Some 0)) observer_disconnect w
               = (w0, Ok tt)).
  { unfold when, w0. case_bool_decide; [|reflexivity].
    unfold observer_disconnect, with_observer, disconnected.
    unfold mbind, M_bind, get, emit, modify. rewrite Ho.
    destruct w; reflexivity. }
  unfold mbind at 1, M_bind at 1. rewrite H0.
  assert (Ho0 : observer w0 = Some o /\ picturefill_ok (win w0) = true).
  { unfold w0. case_bool_decide; [|split; assumption].
    destruct w; split; assumption. }
  rewrite (for_each_steps
             (fun w' => observer w' = Some o /\ picturefill_ok (win w') = true)
             (intersect_step o));
    [reflexivity | exact Ho0 |].
  intros entry w' _ [Hw' Hpf']. split.
  - apply intersection_body_eq; assumption.
  - rewrite intersect_step_observer, intersect_step_win. split; assumption.
Qed.

Lemma keep_app p tr1 tr2 : keep p (tr1 ++ tr2) = keep p tr1 ++ keep p tr2.
Proof. apply filter_app. Qed.

Lemma keep_cons p ev tr :
  keep p (ev :: tr) = if p ev then ev :: keep p tr else keep p tr.
Proof.
  unfold keep. rewrite filter_cons.
  destruct (decide (p ev = true)) as [Hp|Hp].
  - rewrite Hp. reflexivity.
  - apply not_true_is_false in Hp. rewrite Hp. reflexivity.
Qed.

Lemma keep_activation_update w t :
  keep is_activation (updateElement_events w t) = [EvUpdate t].
Proof.
  unfold updateElement_events. destruct (_ && _); rewrite !keep_cons; reflexivity.
Qed.

Lemma intersect_step_trace o w entry :
  keep is_activation (trace (intersect_step o w entry))
  = keep is_activation (trace w)
    ++ (if positive_ratio entry then activation_of o entry else []).
Proof.
  unfold intersect_step, activation_of.
  destruct (positive_ratio entry); [|rewrite app_nil_r; reflexivity].
  destruct w; simpl. rewrite !keep_app, keep_activation_update.
  rewrite keep_cons. simpl. rewrite <- (assoc_L (++)). reflexivity.
Qed.

Lemma intersect_step_document o w entry i :
  (target entry = i -> positive_ratio entry = false) ->
  document (intersect_step o w entry) !! i = document w !! i.
Proof.
  intros Hi. unfold intersect_step.
  destruct (positive_ratio entry); [|reflexivity].
  assert (Hne : target entry ≠ i) by (intros H; specialize (Hi H); discriminate).
  destruct w; simpl. rewrite !list_lookup_alter_ne by exact Hne. reflexivity.
Qed.

(** An observer's set of targets only shrinks in the callback. *)
Lemma intersect_step_observed o w entry ob' :
  observers (intersect_step o w entry) !! o = Some ob' ->
  exists ob, observers w !! o = Some ob
             /\ observed ob' ⊆ observed ob
             /\ (positive_ratio entry = true -> target entry ∉ observed ob').
Proof.
  unfold intersect_step. destruct (positive_ratio entry).
  - destruct w as [op fl fc es el obv ct wn doc pe nh obs dl tr]; simpl.
    rewrite list_lookup_alter_eq.
    destruct (obs !! o) as [ob|]; [|discriminate]. simpl.
    intros Heq. injection Heq as <-. exists ob. split; [reflexivity|].
    destruct ob; simpl. split.
    + intros x Hx. apply elem_of_difference in Hx. tauto.
    + intros _ Hx. apply elem_of_difference in Hx as [_ Hx].
      apply Hx, elem_of_singleton. reflexivity.
  - intros H. exists ob'. split; [exact H|]. split; [reflexivity | discriminate].
Qed.

Lemma fold_intersect_observed o entries : forall w ob',
  observers (foldl (intersect_step o) w entries) !! o = Some ob' ->
  exists ob, observers w !! o = Some ob
             /\ observed ob' ⊆ observed ob
             /\ forall entry, entry ∈ entries -> positive_ratio entry = true ->
                   target entry ∉ observed ob'.
Proof.
  induction entries as [|e entries IH]; intros w ob' Hob'; simpl in *.
  - exists ob'. split; [exact Hob'|]. split; [reflexivity|].
    intros entry H. inversion H.
  - destruct (IH _ _ Hob') as (ob1 & H1 & Hsub1 & Hrest).
    destruct (intersect_step_observed o w e ob1 H1) as (ob & H0 & Hsub & Hhead).
    exists ob. split; [exact H0|]. split; [set_solver|].
    intros entry Hin Hpos. apply elem_of_cons in Hin as [->|Hin].
    + specialize (Hhead Hpos). set_solver.
    + apply Hrest; assumption.
Qed.

Lemma fold_intersect_spec o entries : forall w,
  let w' := foldl (intersect_step o) w entries in
  keep is_activation (trace w')
  = keep is_activation (trace w)
    ++ flat_map (activation_of o) (positive_entries entries)
  /\ forall i,
       (forall entry, entry ∈ entries -> target entry = i ->
                      positive_ratio entry = false) ->
       document w' !! i = document w !! i.
Proof.
  induction entries as [|e entries IH]; intros w.
  - simpl. rewrite app_nil_r. split; reflexivity.
  - cbn [foldl]. cbv zeta in *.
    destruct (IH (intersect_step o w e)) as [Htr Hdoc]. split.
    + rewrite Htr, intersect_step_trace, <- (assoc_L (++)). f_equal.
      unfold positive_entries. rewrite filter_cons.
      destruct (positive_ratio e) eqn:He.
      * rewrite decide_True by reflexivity. reflexivity.
      * rewrite decide_False by discriminate. reflexivity.
    + intros i Hi. rewrite Hdoc.
      * apply intersect_step_document. intros Ht. apply Hi; [left | exact Ht].
      * intros entry Hin. apply Hi. right. exact Hin.
Qed.

Lemma positive_ratio_spec (entry : Entry) :
  positive_ratio entry = true <-> (0 < intersectionRatio entry)%Q.
Proof.
  unfold positive_ratio. rewrite negb_true_iff.
  rewrite <- not_true_iff_false, Qle_bool_iff. split.
  - apply Qnot_le_lt.
  - apply Qlt_not_le.
Qed.

Lemma zero_ratio_not_positive (entry : Entry) :
  (intersectionRatio entry == 0)%Q -> positive_ratio entry = false.
Proof.
  intros Hz. apply not_true_iff_false. rewrite positive_ratio_spec, Hz.
  apply Qlt_irrefl.
Qed.

(** What the callback does not touch: a node that is the target of no
    positive entry, whether the callback returns or throws. *)
Lemma spared_emit (i : nat) (x : option Element) (n : nat) (ev : Event) :
  is_update i ev = false ->
  preserves (fun w => document w !! i = x /\ count (is_update i) (trace w) = n)
    (emit ev).
Proof.
  intros Hev. apply preserves_modify. intros [] [Hd Hc]. simpl in *.
  split; [exact Hd|]. rewrite count_app, count_cons, Hev, count_nil. lia.
Qed.

Lemma spared_updateElement (i j : nat) (x : option Element) (n : nat) :
  j ≠ i ->
  preserves (fun w => document w !! i = x /\ count (is_update i) (trace w) = n)
    (_updateElement j).
Proof.
  intros Hne w [Hd Hc]. unfold exec. rewrite updateElement_cases.
  destruct (picturefill_fails w j); destruct w; simpl in *;
    rewrite list_lookup_alter_ne by exact Hne;
    (split; [exact Hd|]); rewrite count_app.
  - rewrite count_cons, count_nil. simpl.
    destruct (Nat.eqb_spec i j); [congruence | lia].
  - rewrite updateElement_events_update.
    rewrite bool_decide_eq_false_2 by congruence. lia.
Qed.

Lemma spared_intersection
  (i : nat) (x : option Element) (n : nat) (entries : list Entry) :
  (forall entry, entry ∈ entries -> target entry = i ->
                 positive_ratio entry = false) ->
  preserves (fun w => document w !! i = x /\ count (is_update i) (trace w) = n)
    (_intersection entries).
Proof.
  intros Hz. unfold _intersection, observer_disconnect, observer_unobserve,
    with_observer, addEventListener_load, update_element.
  apply preserves_bind; [apply preserves_get_plain|]. intros w0.
  apply preserves_bind.
  - repeat (simple apply spared_emit || preserves_step
            || (intros [] H; exact H) || reflexivity).
  - intros _. apply preserves_for_each. intros entry Hin.
    destruct (positive_ratio entry) eqn:Hpos; [|apply preserves_ret].
    assert (Hne : target entry ≠ i).
    { intros Ht. rewrite (Hz entry Hin Ht) in Hpos. discriminate Hpos. }
    unfold when.
    repeat (simple apply spared_emit
            || (simple apply spared_updateElement; exact Hne)
            || preserves_step
            || (intros [] H; exact H) || reflexivity).
    intros [] [Hd Hc]. simpl in *.
    rewrite list_lookup_alter_ne by exact Hne. split; assumption.
Qed.

(** Claim C5, as stated, fails where [window.picturefill] is truthy and
    not a function: in a batch where nodes 3 and 0 are both visible the
    callback throws at node 3, which has a data-srcset, and node 0 is
    never activated. *)
Lemma callback_stops_at_picturefill : ~ positive_entries_activated.
Proof.
  intros H.
  specialize (H observed_page_bad_picturefill 0%nat two_visible
                (mkEntry 0 1%Q)).
  assert (Hlt : (0 < 0)%nat); [|lia].
  apply H.
  - reflexivity.
  - right. left.
  - reflexivity.
Qed.

(** Claim C5, amended.  In one call of [_intersection] by observer [o],
    a node that is the target of no positive entry is left as it was and
    is not updated, whether the callback returns or throws.  Where
    [window.picturefill] is absent or a function the callback returns, and
    the activations are, in order, those of the entries with a positive
    intersection ratio, one per entry, each an [unobserve] of the target
    followed by its update; an entry whose ratio is 0 contributes none;
    when the callback returns, no target of a positive entry is observed
    by [o]. *)
Theorem intersection_activates_positive
  (w : World) (o : nat) (entries : list Entry) :
  observer w = Some o ->
  let w' := exec (_intersection entries) w in
  (forall i,
     (forall entry, entry ∈ entries -> target entry = i ->
                    (intersectionRatio entry == 0)%Q) ->
     element_at w' i = element_at w i
     /\ count (is_update i) (trace w') = count (is_update i) (trace w))
  /\ (picturefill_ok (win w) = true ->
      outcome (_intersection entries) w = Ok tt
      /\ keep is_activation (trace w')
         = keep is_activation (trace w)
           ++ flat_map (activation_of o) (positive_entries entries)
      /\ (forall entry, entry ∈ positive_entries entries <->
                        entry ∈ entries /\ (0 < intersectionRatio entry)%Q)
      /\ (forall entry ob',
            entry ∈ entries -> (0 < intersectionRatio entry)%Q ->
            observers w' !! o = Some ob' -> target entry ∉ observed ob')).
Proof.
  intros Ho w'. split.
  { intros i Hi. unfold w', element_at.
    apply (spared_intersection i (document w !! i)
             (count (is_update i) (trace w)) entries); [|split; reflexivity].
    intros entry Hin Ht. apply zero_ratio_not_positive. apply Hi; assumption. }
  intros Hpf. unfold w', exec, outcome.
  rewrite (intersection_eq o entries w Ho Hpf). cbn [fst snd].
  set (w0 := if bool_decide (elsLength w = Some 0) then disconnected o w else w).
  assert (H0 : keep is_activation (trace w0) = keep is_activation (trace w)).
  { unfold w0. case_bool_decide; [|reflexivity].
    destruct w; simpl. rewrite keep_app, keep_cons. simpl.
    apply app_nil_r. }
  destruct (fold_intersect_spec o entries w0) as [Htr _].
  split; [reflexivity|]. split; [rewrite Htr, H0; reflexivity|]. split.
  { intros entry. unfold positive_entries.
    rewrite list_elem_of_filter, positive_ratio_spec. tauto. }
  intros entry ob' Hin Hpos Hob'.
  destruct (fold_intersect_observed o entries w0 ob' Hob') as (_ & _ & _ & H).
  apply H; [exact Hin|]. apply positive_ratio_spec. exact Hpos.
Qed.

Lemma intersection_activates_positive_witness :
  let w' := exec (_intersection sample_batch) observed_page in
  (forall i,
     (forall entry, entry ∈ sample_batch -> target entry = i ->
                    (intersectionRatio entry == 0)%Q) ->
     element_at w' i = element_at observed_page i
     /\ count (is_update i) (trace w')
        = count (is_update i) (trace observed_page))
  /\ (picturefill_ok (win observed_page) = true ->
      outcome (_intersection sample_batch) observed_page = Ok tt
      /\ keep is_activation (trace w')
         = keep is_activation (trace observed_page)
           ++ flat_map (activation_of 0) (positive_entries sample_batch)
      /\ (forall entry, entry ∈ positive_entries sample_batch <->
                        entry ∈ sample_batch /\ (0 < intersectionRatio entry)%Q)
      /\ (forall entry ob',
            entry ∈ sample_batch -> (0 < intersectionRatio entry)%Q ->
            observers w' !! 0%nat = Some ob' -> target entry ∉ observed ob')).
Proof.
  apply (intersection_activates_positive observed_page 0 sample_batch).
  vm_compute. reflexivity.
Defined.

(** *** The polling strategy: debouncing *)

(** The block guarded by [elsLength > 0]: skipped, or stopped by the
    call of a [requestAnimationFrame] that is not a function when the
    counter has already been incremented, or run to the end. *)
Lemma old_reschedule_cases (w : World) :
  old_reschedule w
  = if js_positive (elsLength w)
    then if callable (requestAnimationFrame (win w))
         then (rescheduled w, Ok tt)
         else (bumped w,
               Throw (TypeError "window.requestAnimationFrame is not a function"))
    else (w, Ok tt).
Proof.
  unfold old_reschedule, host_requestAnimationFrame, rescheduled, bumped.
  unfold_monad.
  destruct (js_positive (elsLength w)); [|reflexivity].
  destruct w as [op fl fc es el ob ct wn doc pe nh obs dl tr]. simpl.
  destruct (callable (requestAnimationFrame wn)); reflexivity.
Qed.

Lemma old_reschedule_eq (w : World) :
  callable (requestAnimationFrame (win w)) = true ->
  old_reschedule w
  = (if js_positive (elsLength w) then rescheduled w else w, Ok tt).
Proof.
  intros Hc. rewrite old_reschedule_cases, Hc.
  destruct (js_positive (elsLength w)); reflexivity.
Qed.

Lemma bumped_fields (w : World) :
  config (bumped w) = config w
  /\ elsLength (bumped w) = elsLength w
  /\ els (bumped w) = els w
  /\ document (bumped w) = document w
  /\ frameCount (bumped w) = Z.succ <$> frameCount w
  /\ loop_state (bumped w) = loop_state w
  /\ trace (bumped w) = trace w.
Proof. destruct w; repeat split; reflexivity. Qed.

Lemma setSrcs_old (w : World) :
  checkType w = Some Old ->
  _setSrcs w =
  (when (bool_decide (frameCount w = Some (maxFrameCount (options w))))
     old_scan ;;
   old_reschedule) w.
Proof.
  intros Hct. unfold _setSrcs. rewrite bind_get, Hct. reflexivity.
Qed.

Lemma setSrcs_old_idle (w : World) :
  checkType w = Some Old ->
  frameCount w ≠ Some (maxFrameCount (options w)) ->
  _setSrcs w = old_reschedule w.
Proof.
  intros Hct Hfc. rewrite (setSrcs_old w Hct).
  rewrite bool_decide_eq_false_2 by exact Hfc.
  unfold when. rewrite bind_ret. reflexivity.
Qed.

Lemma rescheduled_fields (w : World) :
  config (rescheduled w) = config w
  /\ elsLength (rescheduled w) = elsLength w
  /\ frameCount (rescheduled w) = Z.succ <$> frameCount w
  /\ count is_scan (trace (rescheduled w)) = count is_scan (trace w).
Proof.
  destruct w; unfold rescheduled; simpl. count_simpl.
  repeat split; lia.
Qed.

Lemma dispatch_frame_eq (h : nat) (w : World) :
  dispatch (AnimationFrame h) w =
  if bool_decide (h ∈ pending w)
  then _setSrcs (set_pending (filter (fun x => x ≠ h) (pending w)) w)
  else (w, Ok tt).
Proof.
  unfold dispatch. unfold mbind at 1, M_bind at 1, get at 1. unfold when.
  case_bool_decide; reflexivity.
Qed.

(** A frame callback that finds the counter away from the maximum does
    not scan; it leaves the counter alone or adds one to it. *)
Lemma frame_below_threshold (h : nat) (w : World) (c : Z) :
  checkType w = Some Old ->
  frameCount w = Some c ->
  c ≠ maxFrameCount (options w) ->
  let w' := exec (dispatch (AnimationFrame h)) w in
  config w' = config w
  /\ count is_scan (trace w') = count is_scan (trace w)
  /\ exists c', frameCount w' = Some c' /\ c <= c' <= c + 1.
Proof.
  intros Hct Hfc Hne w'. unfold w', exec. rewrite dispatch_frame_eq.
  case_bool_decide as Hin.
  - set (w1 := set_pending _ w).
    assert (H1 : checkType w1 = Some Old /\ frameCount w1 = Some c
                 /\ options w1 = options w /\ config w1 = config w
                 /\ trace w1 = trace w /\ elsLength w1 = elsLength w)
      by (destruct w; repeat split; assumption).
    destruct H1 as (Hct1 & Hfc1 & Hop1 & Hcf1 & Htr1 & Hel1).
    rewrite setSrcs_old_idle; [|exact Hct1|rewrite Hfc1, Hop1; congruence].
    rewrite old_reschedule_cases.
    destruct (js_positive (elsLength w1));
      [destruct (callable (requestAnimationFrame (win w1)))|]; cbn [fst].
    + destruct (rescheduled_fields w1) as (Hc & _ & Hf & Hs).
      rewrite Hc, Hs, Hf, Hfc1, Hcf1, Htr1. repeat split.
      exists (Z.succ c). split; [reflexivity | lia].
    + destruct (bumped_fields w1) as (Hc & _ & _ & _ & Hf & _ & Hs).
      rewrite Hc, Hs, Hf, Hfc1, Hcf1, Htr1. repeat split.
      exists (Z.succ c). split; [reflexivity | lia].
    + rewrite Hcf1, Htr1, Hfc1. repeat split. exists c. split; [reflexivity | lia].
  - simpl. repeat split. exists c. split; [exact Hfc | lia].
Qed.

Lemma run_events_cons (ev : HostEvent) (evs : list HostEvent) (w : World) :
  run_events (ev :: evs) w = run_events evs (exec (dispatch ev) w).
Proof. reflexivity. Qed.

Lemma frames_below_threshold (hs : list nat) : forall (w : World) (c : Z),
  checkType w = Some Old ->
  frameCount w = Some c ->
  c + Z.of_nat (length hs) <= maxFrameCount (options w) ->
  count is_scan (trace (run_events (AnimationFrame <$> hs) w))
  = count is_scan (trace w).
Proof.
  induction hs as [|h hs IH]; intros w c Hct Hfc Hle.
  - reflexivity.
  - rewrite fmap_cons, run_events_cons. cbn [length] in Hle.
    destruct (frame_below_threshold h w c Hct Hfc) as (Hcf & Hsc & c' & Hfc' & Hc');
      [lia|].
    unfold config in Hcf. injection Hcf as Hct' Hop' _.
    rewrite (IH _ c'); [exact Hsc | congruence | exact Hfc' | rewrite Hop'; lia].
Qed.

(** A scan that returns leaves the counter at 0, or at -1 when the
    working set has become empty. *)
Lemma setSrcs_old_scan (w w1 : World) :
  checkType w = Some Old ->
  frameCount w = Some (maxFrameCount (options w)) ->
  _setSrcs w = (w1, Ok tt) ->
  config w1 = config w
  /\ exists c, frameCount w1 = Some c /\ c <= 0.
Proof.
  intros Hct Hfc Hrun. split.
  { pose proof (exec_config _setSrcs w (config w) (config_setSrcs (config w)) eq_refl) as H.
    unfold exec in H. rewrite Hrun in H. exact H. }
  rewrite (setSrcs_old w Hct), bool_decide_eq_true_2 in Hrun by exact Hfc.
  unfold when in Hrun.
  apply bind_ok_inv in Hrun as ([] & wa & Hblock & Htail).
  assert (Hfa : frameCount wa = Some (-1)).
  { unfold old_scan in Hblock. rewrite bind_get in Hblock.
    do 5 (apply bind_ok_inv in Hblock as ([] & ? & _ & Hblock)).
    unfold modify in Hblock. injection Hblock as <-.
    match goal with |- frameCount (set_frameCount _ ?x) = _ => destruct x end.
    reflexivity. }
  rewrite old_reschedule_cases in Htail.
  destruct (js_positive (elsLength wa));
    [destruct (callable (requestAnimationFrame (win wa)));
       [|discriminate Htail]|];
    injection Htail as <-.
  - destruct (rescheduled_fields wa) as (_ & _ & Hf & _).
    rewrite Hf, Hfa. exists 0. split; [reflexivity | lia].
  - exists (-1). split; [exact Hfa | lia].
Qed.

(** Claim C6, as stated, fails when a scan throws: the counter is reset
    only at the end of a scan, so a scan stopped by an exception leaves
    it at the maximum.  With two loops pending (a re-scan event in a
    browser without [cancelAnimationFrame]) and a source detached from
    its parent, frame 3 scans and throws, and frame 4, the very next
    callback, scans again. *)
Lemma second_loop_scans_at_once : ~ debounce_after_every_scan.
Proof.
  intros H. specialize (H two_loops_detached 3%nat [4%nat]).
  assert (H1 : checkType two_loops_detached = Some Old)
    by (vm_compute; reflexivity).
  assert (H2 : 3%nat ∈ pending two_loops_detached).
  { replace (pending two_loops_detached) with [3; 4]%nat
      by (vm_compute; reflexivity).
    left. }
  assert (H3 : frameCount two_loops_detached
               = Some (maxFrameCount (options two_loops_detached)))
    by (vm_compute; reflexivity).
  assert (H4 : Z.of_nat (length [4%nat])
               <= maxFrameCount (options two_loops_detached))
    by (vm_compute; discriminate).
  specialize (H H1 H2 H3 H4). vm_compute in H. discriminate H.
Qed.

Example frames_three_and_four_scan :
  let w3 := exec (dispatch (AnimationFrame 3)) two_loops_detached in
  let w4 := exec (dispatch (AnimationFrame 4)) w3 in
  maxFrameCount (options two_loops_detached) = 2
  /\ count is_scan (trace two_loops_detached) = 4%nat
  /\ count is_scan (trace w3) = 5%nat
  /\ count is_scan (trace w4) = 6%nat.
Proof. repeat split; vm_compute; reflexivity. Qed.

(** Claim C6, amended.  Under 'old' with maxFrameCount = K, once a
    viewport scan has returned normally, the next K animation-frame
    callbacks perform no scan (the trace gains neither a scan mark nor
    a getBoundingClientRect call), whichever frame handles the host
    fires. *)
Theorem polling_debounce (w w1 : World) (hs : list nat) :
  checkType w = Some Old ->
  frameCount w = Some (maxFrameCount (options w)) ->
  _setSrcs w = (w1, Ok tt) ->
  Z.of_nat (length hs) <= maxFrameCount (options w) ->
  count is_scan (trace (run_events (AnimationFrame <$> hs) w1))
  = count is_scan (trace w1).
Proof.
  intros Hct Hfc Hrun Hlen.
  destruct (setSrcs_old_scan w w1 Hct Hfc Hrun) as (Hcf & c & Hc & Hle).
  unfold config in Hcf. injection Hcf as Hct1 Hop1 _.
  apply (frames_below_threshold hs w1 c).
  - congruence.
  - exact Hc.
  - rewrite Hop1. lia.
Qed.

Lemma polling_debounce_witness :
  count is_scan (trace (run_events (AnimationFrame <$> seq 1 10) just_scanned))
  = count is_scan (trace just_scanned).
Proof.
  apply (polling_debounce about_to_scan just_scanned (seq 1 10)).
  - reflexivity.
  - reflexivity.
  - vm_compute. reflexivity.
  - simpl. lia.
Defined.

(** The bound is exact: on the small page ten callbacks go by without a
    scan and the eleventh scans. *)
Example eleventh_frame_scans :
  count is_scan (trace just_scanned) = 4%nat
  /\ count is_scan (trace (run_events (AnimationFrame <$> seq 1 10) just_scanned))
     = 4%nat
  /\ count is_scan (trace (run_events (AnimationFrame <$> seq 1 11) just_scanned))
     = 6%nat.
Proof. repeat split; vm_compute; reflexivity. Qed.

(** *** The polling strategy: what a scan may change *)

Lemma updates_app_quiet (tr : list Event) (ev : Event) :
  is_any_update ev = false ->
  keep is_any_update (tr ++ [ev]) = keep is_any_update tr.
Proof.
  intros Hev. rewrite keep_app, keep_cons, Hev. apply app_nil_r.
Qed.

Lemma updates_events (w : World) (e : nat) :
  keep is_any_update (updateElement_events w e) = [EvUpdate e].
Proof.
  unfold updateElement_events. destruct (_ && _); rewrite !keep_cons; reflexivity.
Qed.

Lemma elementInViewport_spec (e : nat) (w : World) :
  document (fst (_elementInViewport e w)) = document w
  /\ updates (fst (_elementInViewport e w)) = updates w
  /\ (forall b, snd (_elementInViewport e w) = Ok b -> is_Some (element_at w e)).
Proof.
  unfold _elementInViewport, updates. rewrite bind_get.
  destruct (element_at w e) as [x|] eqn:Hx; [|repeat split; intros; discriminate].
  destruct (if String.eqb (tagName x) "SOURCE" then parentNode x else Some e)
    as [t|]; [|repeat split; eauto].
  destruct (callable (getBoundingClientRect (win w))); [|repeat split; eauto].
  unfold emit. rewrite bind_modify.
  destruct (element_at w t) as [xt|]; destruct w; simpl;
    rewrite updates_app_quiet by reflexivity; repeat split; eauto.
Qed.

(** The four statements of the scan that follow a positive viewport
    test. *)
Lemma scan_hit_eq (i e : nat) (w : World) :
  exists w2 r f,
    (modify (fun w => set_els (<[i := None]> (els w)) w) ;;
     update_element (set_lazyloaded true) e ;;
     addEventListener_load e ;;
     _updateElement e) w = (w2, r)
    /\ hit_function f
    /\ document w2 = alter f e (document w)
    /\ updates w2 = updates w ++ [EvUpdate e].
Proof.
  unfold addEventListener_load, update_element.
  rewrite !bind_modify, updateElement_cases.
  match goal with |- context [picturefill_fails ?x e] =>
    destruct (picturefill_fails x e)
  end.
  - eexists _, _, polled_stuck. split; [reflexivity|].
    split; [right; reflexivity|]. unfold updates.
    destruct w; simpl. rewrite !list_alter_alter_eq, keep_app.
    split; reflexivity.
  - eexists _, _, polled_activation. split; [reflexivity|].
    split; [left; reflexivity|]. unfold updates.
    destruct w; simpl. rewrite !list_alter_alter_eq, keep_app, updates_events.
    split; reflexivity.
Qed.

Section PollingInvariant.
(** [Q] is a property of the document and of the sequence of updates
    that every hit of the scan maintains. *)
Variable Q : list Element -> list Event -> Prop.
Hypothesis Q_hit : forall doc tr e x f,
  Q doc tr -> doc !! e = Some x -> lazyloaded x = false -> hit_function f ->
  Q (alter f e doc) (tr ++ [EvUpdate e]).


Lemma P_quiet (f : World -> World) : quiet f -> preserves (shows Q) (modify f).
Proof.
  intros Hf. apply preserves_modify. intros w Hw. unfold shows.
  destruct (Hf w) as [-> ->]. exact Hw.
Qed.

Lemma P_emit (ev : Event) : is_any_update ev = false -> preserves (shows Q) (emit ev).
Proof.
  intros Hev. apply P_quiet. intros w. unfold updates.
  destruct w; simpl. split; [reflexivity | apply updates_app_quiet, Hev].
Qed.

Ltac quiet_leaf :=
  first [ apply P_emit; reflexivity
        | apply P_quiet; intros []; split; reflexivity ].

Lemma P_elementInViewport e : preserves (shows Q) (_elementInViewport e).
Proof.
  unfold _elementInViewport. repeat (preserves_step || quiet_leaf).
Qed.

Lemma P_scan_one i : preserves (shows Q) (scan_one i).
Proof.
  unfold scan_one. apply preserves_get. intros w Hw.
  destruct (array_get (els w) i) as [e|]; [|exact Hw].
  case_bool_decide as Hflag; [exact Hw|].
  rewrite exec_bind.
  destruct (elementInViewport_spec e w) as (Hdoc & Hupd & Hsome).
  destruct (_elementInViewport e w) as [w1 [visible|err]]; simpl in *.
  - destruct (Hsome visible eq_refl) as [x Hx].
    assert (HP1 : shows Q w1) by (unfold shows; rewrite Hdoc, Hupd; exact Hw).
    destruct visible; [|exact HP1]. unfold when.
    destruct (scan_hit_eq i e w1) as (w2 & r & f & Hrun & Hf & Hdoc2 & Hupd2).
    unfold exec. rewrite Hrun. simpl. unfold shows. rewrite Hdoc2, Hupd2.
    apply (Q_hit _ _ e x f HP1).
    + rewrite Hdoc. exact Hx.
    + rewrite Hx in Hflag. simpl in Hflag.
      destruct (lazyloaded x); [contradiction Hflag; reflexivity | reflexivity].
    + exact Hf.
  - unfold shows. rewrite Hdoc, Hupd. exact Hw.
Qed.

Lemma P_splice_one i : preserves (shows Q) (splice_one i).
Proof. unfold splice_one. repeat (preserves_step || quiet_leaf). Qed.

Lemma P_old_scan : preserves (shows Q) old_scan.
Proof.
  unfold old_scan, set_elsLength_to_length.
  repeat (simple apply P_scan_one || simple apply P_splice_one
          || preserves_step || quiet_leaf).
Qed.

Lemma P_old_reschedule : preserves (shows Q) old_reschedule.
Proof.
  unfold old_reschedule, host_requestAnimationFrame.
  repeat (preserves_step || quiet_leaf).
Qed.

Lemma P_setSrcs_old (w : World) :
  checkType w = Some Old -> shows Q w -> shows Q (exec _setSrcs w).
Proof.
  intros Hct Hw. unfold exec. rewrite (setSrcs_old w Hct).
  revert Hw. apply (preserves_bind (shows Q)).
  - apply preserves_when, P_old_scan.
  - intros _. apply P_old_reschedule.
Qed.
End PollingInvariant.

(** *** The polling strategy: invariants of a whole run *)

Lemma exec_checkType {A : Type} (m : M A) (w : World) :
  (forall c, preserves (has_config c) m) ->
  checkType (exec m w) = checkType w.
Proof.
  intros Hm. pose proof (Hm (config w) w eq_refl) as H.
  unfold has_config, config in H. congruence.
Qed.

Section PollingRun.
Variable Q : list Element -> list Event -> Prop.
Hypothesis Q_start : forall doc, Q doc [].
Hypothesis Q_hit : forall doc tr e x f,
  Q doc tr -> doc !! e = Some x -> lazyloaded x = false -> hit_function f ->
  Q (alter f e doc) (tr ++ [EvUpdate e]).
Hypothesis Q_load : forall doc tr i,
  Q doc tr ->
  Q (alter (removeDataAttrs_elem ∘ set_loadListener false) i doc) tr.
Hypothesis Q_page : forall doc doc' tr,
  Q doc tr -> flags_kept doc doc' -> Q doc' tr.


Lemma run_quiet (f : World -> World) :
  quiet f -> (forall w, checkType (f w) = checkType w) ->
  preserves (polling_shows Q) (modify f).
Proof.
  intros Hq Hc. apply preserves_modify. intros w [Hct Hw]. split.
  - rewrite Hc. exact Hct.
  - unfold shows. destruct (Hq w) as [-> ->]. exact Hw.
Qed.

Lemma run_emit (ev : Event) :
  is_any_update ev = false -> preserves (polling_shows Q) (emit ev).
Proof.
  intros Hev. apply run_quiet.
  - intros w. unfold updates. destruct w; simpl.
    split; [reflexivity | apply updates_app_quiet, Hev].
  - intros []; reflexivity.
Qed.

Ltac run_leaf :=
  first [ apply run_emit; reflexivity
        | apply run_quiet; [intros []; split; reflexivity
                           | intros []; reflexivity] ].

Lemma run_setSrcs : preserves (polling_shows Q) _setSrcs.
Proof.
  intros w [Hct Hw]. split.
  - rewrite (exec_checkType _setSrcs w config_setSrcs). exact Hct.
  - apply (P_setSrcs_old Q Q_hit w Hct Hw).
Qed.

Lemma run_init : preserves (polling_shows Q) _init.
Proof.
  unfold _init, set_elsLength_to_length, host_cancelAnimationFrame,
    observer_disconnect, with_observer.
  repeat (simple apply run_setSrcs || preserves_step || run_leaf).
Qed.

Lemma run_loaded i : preserves (polling_shows Q) (_loaded i).
Proof.
  intros w [Hct Hw]. unfold exec. rewrite loaded_eq. simpl. split.
  - destruct w; exact Hct.
  - unfold shows, updates in *. destruct w; simpl in *. apply Q_load, Hw.
Qed.

Lemma run_dispatch ev : polling_event ev -> preserves (polling_shows Q) (dispatch ev).
Proof.
  intros Hev. unfold dispatch. destruct Hev;
    repeat (simple apply run_setSrcs || simple apply run_init
            || simple apply run_loaded || preserves_step || run_leaf).
Qed.

Lemma run_lazyLoad_start ov wn doc :
  detect wn = Old -> polling_shows Q (fst (lazyLoad ov wn doc)).
Proof.
  intros Hd. unfold lazyLoad, _lazyLoad.
  rewrite !bind_modify. change (fst (?m ?w)) with (exec m w).
  match goal with |- (polling_shows Q) (exec _ ?x) => set (w1 := x) end.
  assert (H1 : polling_shows Q w1).
  { split; [simpl; rewrite Hd; reflexivity | apply Q_start]. }
  revert H1. generalize w1. clear w1.
  change (preserves (polling_shows Q)
            (_init ;; w ← get;
             when (name_truthy (pageUpdatedEventName (options w)))
               (match name_string (pageUpdatedEventName (options w)) with
                | Some name => document_addEventListener name
                | None =>
                    mthrow (TypeError "Cannot convert the event type to a string")
                end))).
  unfold document_addEventListener.
  repeat (simple apply run_init || preserves_step || run_leaf);
    (apply run_quiet;
     [intros []; simpl; case_bool_decide; split; reflexivity
     |intros []; simpl; case_bool_decide; reflexivity]).
Qed.

Theorem polling_run_invariant (w : World) :
  polling_run w -> checkType w = Some Old /\ Q (document w) (updates w).
Proof.
  induction 1 as [ov wn doc Hd | w ev Hrun IH Hev | w wn' doc' Hrun IH Hkept].
  - apply (run_lazyLoad_start ov wn doc Hd).
  - apply (run_dispatch ev Hev w IH).
  - destruct IH as [Hct HQ]. destruct w; simpl in *. split; [exact Hct|].
    apply (Q_page _ _ _ HQ Hkept).
Qed.
End PollingRun.

(** *** The polling strategy: at most one activation per element *)

Lemma count_keep (p q : Event -> bool) (tr : list Event) :
  (forall ev, p ev = true -> q ev = true) ->
  count p (keep q tr) = count p tr.
Proof.
  intros Hpq. induction tr as [|ev tr IH]; [reflexivity|].
  rewrite keep_cons. destruct (q ev) eqn:Hq.
  - rewrite !count_cons, IH. reflexivity.
  - rewrite count_cons, IH. destruct (p ev) eqn:Hp; [|reflexivity].
    rewrite (Hpq ev Hp) in Hq. discriminate Hq.
Qed.

Lemma count_updates (i : nat) (w : World) :
  count (is_update i) (updates w) = count (is_update i) (trace w).
Proof.
  apply count_keep. intros [] H; try discriminate H. reflexivity.
Qed.

Lemma updateElement_elem_lazyloaded (e : Element) :
  lazyloaded (updateElement_elem e) = lazyloaded e.
Proof.
  unfold updateElement_elem, removeDataAttrs_elem, assign_src_elem.
  destruct e as [tg atts sr lz ll pn rc]. simpl.
  destruct (truthy_attr _), (truthy_attr _), (bool_decide _);
    simpl; try (destruct (reflects_src tg)); reflexivity.
Qed.

Lemma polled_activation_lazyloaded (e : Element) :
  lazyloaded (polled_activation e) = true.
Proof.
  unfold polled_activation. rewrite updateElement_elem_lazyloaded.
  destruct e; reflexivity.
Qed.

Lemma hit_function_lazyloaded (f : Element -> Element) (e : Element) :
  hit_function f -> lazyloaded (f e) = true.
Proof.
  intros [-> | ->]; [apply polled_activation_lazyloaded|].
  destruct e; reflexivity.
Qed.

Lemma once_start (doc : list Element) : once doc [].
Proof. intros i. rewrite count_nil. split; lia. Qed.

Lemma count_snoc_update (i e : nat) (tr : list Event) :
  count (is_update i) (tr ++ [EvUpdate e])
  = (count (is_update i) tr + if bool_decide (i = e) then 1 else 0)%nat.
Proof.
  rewrite count_app, count_cons, count_nil. simpl.
  case_bool_decide as Hie.
  - subst. rewrite Nat.eqb_refl. lia.
  - destruct (Nat.eqb_spec i e); [contradiction | lia].
Qed.

Lemma once_hit doc tr e x f :
  once doc tr -> doc !! e = Some x -> lazyloaded x = false -> hit_function f ->
  once (alter f e doc) (tr ++ [EvUpdate e]).
Proof.
  intros Honce He Hx Hf i. destruct (Honce i) as [Hle Hflag].
  rewrite count_snoc_update, list_lookup_alter.
  case_bool_decide as Hie.
  - subst i. rewrite decide_True by reflexivity. rewrite He. simpl.
    rewrite (hit_function_lazyloaded f x Hf).
    assert (count (is_update e) tr = 0)%nat as ->.
    { destruct (count (is_update e) tr) as [|n] eqn:Hn; [reflexivity|].
      rewrite He in Hflag. simpl in Hflag.
      specialize (Hflag ltac:(lia)). congruence. }
    split; [lia | reflexivity].
  - rewrite decide_False by congruence. rewrite Nat.add_0_r.
    split; assumption.
Qed.

Lemma once_load doc tr i :
  once doc tr ->
  once (alter (removeDataAttrs_elem ∘ set_loadListener false) i doc) tr.
Proof.
  intros Honce j. destruct (Honce j) as [Hle Hflag]. split; [exact Hle|].
  intros Hpos. specialize (Hflag Hpos). rewrite list_lookup_alter.
  case_decide; [|exact Hflag]. subst j.
  destruct (doc !! i) as [[]|]; [|discriminate]. exact Hflag.
Qed.

Lemma once_page doc doc' tr :
  once doc tr -> flags_kept doc doc' -> once doc' tr.
Proof.
  intros Honce Hkept j. destruct (Honce j) as [Hle Hflag]. split; [exact Hle|].
  intros Hpos. specialize (Hflag Hpos).
  destruct (doc !! j) as [x|] eqn:Hx; [|discriminate].
  destruct (Hkept j x Hx) as (x' & -> & Hx'). simpl in *.
  f_equal. apply Hx'. congruence.
Qed.

Lemma settled_hit i x n doc tr e y f :
  lazyloaded x = true ->
  settled i x n doc tr -> doc !! e = Some y -> lazyloaded y = false ->
  hit_function f ->
  settled i x n (alter f e doc) (tr ++ [EvUpdate e]).
Proof.
  intros Hx [Hi Hn] He Hy _.
  assert (Hne : i ≠ e) by (intros ->; congruence).
  unfold settled. rewrite count_snoc_update, list_lookup_alter_ne by congruence.
  rewrite bool_decide_eq_false_2 by exact Hne. split; [exact Hi | lia].
Qed.

(** Claim C9.  In every world of a polling run, from the call of
    [lazyLoad()] through any animation frames, load events, re-scans and
    changes made by the page, each node has been updated at most once and
    an updated node carries the [lazyloaded] expando; and a node that
    carries the expando is left as it is, without a further update, by
    any frame callback, whatever the working set still holds. *)
Theorem polling_activates_once (w : World) (i : nat) :
  polling_run w ->
  (count (is_update i) (trace w) <= 1)%nat
  /\ ((0 < count (is_update i) (trace w))%nat -> flagged w i)
  /\ (flagged w i -> forall h,
        element_at (exec (dispatch (AnimationFrame h)) w) i = element_at w i
        /\ count (is_update i) (trace (exec (dispatch (AnimationFrame h)) w))
           = count (is_update i) (trace w)).
Proof.
  intros Hrun.
  destruct (polling_run_invariant once once_start once_hit once_load once_page
              w Hrun) as [Hct Honce].
  destruct (Honce i) as [Hle Hflag]. rewrite count_updates in Hle, Hflag.
  split; [exact Hle|]. split; [exact Hflag|].
  intros Hi h. unfold flagged, element_at in Hi.
  destruct (document w !! i) as [x|] eqn:Hx; [|discriminate].
  simpl in Hi. injection Hi as Hi.
  set (n := count (is_update i) (trace w)).
  assert (Hgoal : settled i x n
                    (document (exec (dispatch (AnimationFrame h)) w))
                    (updates (exec (dispatch (AnimationFrame h)) w))).
  { unfold exec. rewrite dispatch_frame_eq. case_bool_decide.
    - apply (P_setSrcs_old (settled i x n)
               (fun doc tr e y f => settled_hit i x n doc tr e y f Hi)).
      + destruct w; exact Hct.
      + split; [destruct w; exact Hx|].
        unfold n. rewrite <- (count_updates i w). destruct w; reflexivity.
    - split; [exact Hx | apply count_updates]. }
  destruct Hgoal as [Hdoc Hcount]. unfold element_at.
  rewrite Hdoc, Hx. split; [reflexivity|].
  rewrite <- count_updates. exact Hcount.
Qed.

Lemma polling_activates_once_witness :
  let w := exec (dispatch (AnimationFrame 1)) polled_page in
  (count (is_update 0) (trace w) <= 1)%nat
  /\ ((0 < count (is_update 0) (trace w))%nat -> flagged w 0)
  /\ (flagged w 0 -> forall h,
        element_at (exec (dispatch (AnimationFrame h)) w) 0 = element_at w 0
        /\ count (is_update 0) (trace (exec (dispatch (AnimationFrame h)) w))
           = count (is_update 0) (trace w)).
Proof.
  apply (polling_activates_once
           (exec (dispatch (AnimationFrame 1)) polled_page) 0).
  apply run_event.
  - apply (run_lazyLoad no_overrides polling_browser small_page). reflexivity.
  - apply polling_frame.
Defined.

(** *** When the deferred attributes are removed *)

Lemma updateElement_elem_unmarked (x : Element) :
  unmarked x ->
  deferred_of (updateElement_elem x) = deferred_of x
  /\ loadListener (updateElement_elem x) = loadListener x.
Proof.
  unfold unmarked, deferred_of, updateElement_elem, assign_src_elem. intros Hx.
  rewrite Hx. rewrite bool_decide_eq_false_2 by (intros [? H]; discriminate H).
  destruct x as [tg atts sr lz ll pn rc]. simpl in *.
  destruct (truthy_attr (atts !! "data-srcset")),
           (truthy_attr (atts !! "data-src")); simpl;
    try (destruct (reflects_src tg)); simpl;
    rewrite ?lookup_insert_ne by discriminate; rewrite ?Hx; split; reflexivity.
Qed.

Lemma updateElement_stuck_unmarked (x : Element) :
  deferred_of (updateElement_stuck x) = deferred_of x
  /\ loadListener (updateElement_stuck x) = loadListener x.
Proof.
  unfold deferred_of, updateElement_stuck.
  destruct x as [tg atts sr lz ll pn rc]. simpl.
  rewrite !lookup_insert_ne by discriminate. split; reflexivity.
Qed.

Lemma polled_activation_unmarked (x : Element) :
  unmarked x ->
  deferred_of (polled_activation x) = deferred_of x
  /\ loadListener (polled_activation x) = true.
Proof.
  intros Hx. unfold polled_activation.
  destruct (updateElement_elem_unmarked
              (set_loadListener true (set_lazyloaded true x))) as [Hd Hl].
  { destruct x; exact Hx. }
  rewrite Hd, Hl. destruct x; split; reflexivity.
Qed.

Lemma hit_function_unmarked (f : Element -> Element) (x : Element) :
  hit_function f -> unmarked x ->
  deferred_of (f x) = deferred_of x /\ loadListener (f x) = true.
Proof.
  intros [-> | ->] Hx; [apply polled_activation_unmarked, Hx|].
  unfold polled_stuck.
  destruct (updateElement_stuck_unmarked
              (set_loadListener true (set_lazyloaded true x))) as [-> ->].
  destruct x; split; reflexivity.
Qed.

Lemma awaiting_load_hit i d n doc tr e y f :
  d.2 = None ->
  awaiting_load i d n doc tr -> doc !! e = Some y -> lazyloaded y = false ->
  hit_function f ->
  awaiting_load i d n (alter f e doc) (tr ++ [EvUpdate e]).
Proof.
  intros Hd (x & Hi & Hdx & Hl) He Hy Hf. unfold awaiting_load.
  rewrite count_snoc_update, list_lookup_alter.
  destruct (decide (e = i)) as [->|Hne].
  - rewrite Hi. simpl. exists (f x).
    assert (Hun : unmarked x).
    { unfold unmarked. rewrite <- Hd, <- Hdx. reflexivity. }
    destruct (hit_function_unmarked f x Hf Hun) as [H1 H2].
    split; [reflexivity|]. split; [congruence | intros _; exact H2].
  - exists x. split; [exact Hi|]. split; [exact Hdx|].
    rewrite bool_decide_eq_false_2 by congruence. rewrite Nat.add_0_r. exact Hl.
Qed.

(** In the 'old' case a pass never strips an unmarked node; a node it
    updates gets the load listener. *)
Lemma old_pass_keeps_deferred (w : World) (i : nat) (e : Element) :
  checkType w = Some Old ->
  element_at w i = Some e ->
  unmarked e ->
  exists e', element_at (exec _setSrcs w) i = Some e'
             /\ deferred_of e' = deferred_of e
             /\ ((count (is_update i) (trace w)
                  < count (is_update i) (trace (exec _setSrcs w)))%nat ->
                 loadListener e' = true).
Proof.
  intros Hct He Hun.
  pose proof (P_setSrcs_old
                (awaiting_load i (deferred_of e) (count (is_update i) (trace w)))
                (fun doc tr e0 y f =>
                   awaiting_load_hit i (deferred_of e)
                     (count (is_update i) (trace w)) doc tr e0 y f Hun)
                w Hct) as H.
  rewrite <- count_updates in H. destruct H as (x & Hx & Hd & Hl).
  - exists e. split; [exact He|]. split; [reflexivity | lia].
  - exists x. rewrite !count_updates in Hl. repeat split; assumption.
Qed.

Lemma intersect_step_doc (o : nat) (w : World) (entry : Entry) :
  document (intersect_step o w entry)
  = if positive_ratio entry
    then alter (updateElement_elem ∘ set_loadListener true) (target entry)
               (document w)
    else document w.
Proof.
  unfold intersect_step. destruct (positive_ratio entry); [|reflexivity].
  destruct w; simpl. apply list_alter_alter_eq.
Qed.

Lemma fold_intersect_keeps (o i : nat) (entries : list Entry) :
  forall (w : World) (x : Element),
    document w !! i = Some x ->
    unmarked x ->
    exists x',
      document (foldl (intersect_step o) w entries) !! i = Some x'
      /\ deferred_of x' = deferred_of x
      /\ (loadListener x = true
          \/ (exists entry, entry ∈ entries /\ positive_ratio entry = true
                            /\ target entry = i) ->
          loadListener x' = true).
Proof.
  induction entries as [|entry entries IH]; intros w x Hx Hun.
  - exists x. split; [exact Hx|]. split; [reflexivity|].
    intros [H | (entry & Hin & _)]; [exact H | inversion Hin].
  - cbn [foldl].
    assert (Hstep : exists x1,
               document (intersect_step o w entry) !! i = Some x1
               /\ deferred_of x1 = deferred_of x
               /\ (loadListener x = true
                   \/ (positive_ratio entry = true /\ target entry = i) ->
                   loadListener x1 = true)).
    { rewrite intersect_step_doc. destruct (positive_ratio entry) eqn:Hpos.
      - rewrite list_lookup_alter. case_decide as Ht.
        + rewrite Ht, Hx. simpl. eexists. split; [reflexivity|]. cbn [compose].
          destruct (updateElement_elem_unmarked (set_loadListener true x))
            as [Hd Hl]; [destruct x; exact Hun|].
          rewrite Hd, Hl. destruct x; split; [reflexivity | intros _; reflexivity].
        + exists x. split; [exact Hx|]. split; [reflexivity|].
          intros [H | [_ H]]; [exact H | contradiction]. 
      - exists x. split; [exact Hx|]. split; [reflexivity|].
        intros [H | [H _]]; [exact H | discriminate H]. }
    destruct Hstep as (x1 & Hx1 & Hd1 & Hl1).
    assert (Hun1 : unmarked x1).
    { unfold unmarked in *. unfold deferred_of in Hd1. congruence. }
    destruct (IH _ x1 Hx1 Hun1) as (x' & Hx' & Hd' & Hl').
    exists x'. split; [exact Hx'|]. split; [congruence|].
    intros [H | (en & Hin & Hpos & Ht)].
    + apply Hl'. left. apply Hl1. left. exact H.
    + apply elem_of_cons in Hin as [-> | Hin].
      * apply Hl'. left. apply Hl1. right. split; assumption.
      * apply Hl'. right. exists en. repeat split; assumption.
Qed.

(** In the 'new' case the callback never strips an unmarked node; the
    target of a positive entry gets the load listener. *)
Lemma new_callback_keeps_deferred
  (w : World) (o i : nat) (e : Element) (entries : list Entry) :
  observer w = Some o ->
  picturefill_ok (win w) = true ->
  element_at w i = Some e ->
  unmarked e ->
  exists e', element_at (exec (_intersection entries) w) i = Some e'
             /\ deferred_of e' = deferred_of e
             /\ ((exists entry, entry ∈ entries /\ positive_ratio entry = true
                                /\ target entry = i) ->
                 loadListener e' = true).
Proof.
  intros Ho Hpf He Hun. unfold exec. rewrite (intersection_eq o entries w Ho Hpf).
  cbn [fst].
  set (w0 := if bool_decide (elsLength w = Some 0) then disconnected o w else w).
  assert (H0 : document w0 !! i = Some e).
  { unfold w0. case_bool_decide; [destruct w|]; exact He. }
  destruct (fold_intersect_keeps o i entries w0 e H0 Hun) as (x' & H1 & H2 & H3).
  exists x'. split; [exact H1|]. split; [exact H2|].
  intros H. apply H3. right. exact H.
Qed.

(** Whether the callback returns or throws, it never strips an unmarked
    node, and a node it has updated has the load listener. *)
Lemma awaiting_emit i d n (ev : Event) :
  is_update i ev = false ->
  preserves (fun w => awaiting_load i d n (document w) (trace w)) (emit ev).
Proof.
  intros Hev. apply preserves_modify. intros [] (x & Hx & Hdx & Hl).
  simpl in *. exists x. split; [exact Hx|]. split; [exact Hdx|].
  rewrite count_app, count_cons, Hev, count_nil. simpl.
  rewrite Nat.add_0_r. exact Hl.
Qed.

Lemma awaiting_activation i d n (t : nat) :
  d.2 = None ->
  preserves (fun w => awaiting_load i d n (document w) (trace w))
    (addEventListener_load t ;; _updateElement t).
Proof.
  intros Hd w (x & Hx & Hdx & Hl). unfold exec, addEventListener_load,
    update_element.
  rewrite bind_modify, updateElement_cases.
  assert (Hun : unmarked x).
  { unfold unmarked. rewrite <- Hd, <- Hdx. reflexivity. }
  match goal with |- context [picturefill_fails ?w0 t] =>
    destruct (picturefill_fails w0 t)
  end; destruct w; simpl in *; unfold awaiting_load;
    rewrite list_alter_alter_eq, list_lookup_alter;
    (destruct (decide (t = i)) as [->|Hne];
     [rewrite Hx; simpl; eexists; split; [reflexivity|]
     |exists x; split; [exact Hx|]; split; [exact Hdx|]]).
  - cbn [compose].
    destruct (updateElement_stuck_unmarked (set_loadListener true x)) as [-> ->].
    split; [destruct x; exact Hdx | intros _; destruct x; reflexivity].
  - rewrite count_app, count_cons, count_nil. simpl.
    destruct (Nat.eqb_spec i t); [congruence|]. rewrite Nat.add_0_r. exact Hl.
  - cbn [compose].
    destruct (updateElement_elem_unmarked (set_loadListener true x))
      as [-> ->]; [destruct x; exact Hun|].
    split; [destruct x; exact Hdx | intros _; destruct x; reflexivity].
  - rewrite count_app, updateElement_events_update.
    rewrite bool_decide_eq_false_2 by congruence.
    rewrite Nat.add_0_r. exact Hl.
Qed.

Lemma callback_keeps_deferred
  (w : World) (i : nat) (e : Element) (entries : list Entry) :
  element_at w i = Some e ->
  unmarked e ->
  exists e', element_at (exec (_intersection entries) w) i = Some e'
             /\ deferred_of e' = deferred_of e
             /\ ((count (is_update i) (trace w)
                  < count (is_update i)
                      (trace (exec (_intersection entries) w)))%nat ->
                 loadListener e' = true).
Proof.
  intros He Hun.
  assert (H : preserves
                (fun w0 => awaiting_load i (deferred_of e)
                             (count (is_update i) (trace w))
                             (document w0) (trace w0))
                (_intersection entries)).
  { unfold _intersection, observer_disconnect, observer_unobserve,
      with_observer.
    repeat (simple apply awaiting_emit
            || (simple apply awaiting_activation; exact Hun)
            || preserves_step
            || (intros [] H; exact H) || reflexivity). }
  apply H. exists e. split; [exact He|]. split; [reflexivity | lia].
Qed.

(** The load listener strips the deferred attributes and removes itself. *)
Lemma load_strips_deferred (w : World) (i : nat) (e : Element) :
  element_at w i = Some e ->
  loadListener e = true ->
  exists e', element_at (exec (dispatch (Load i)) w) i = Some e'
             /\ no_deferred e' /\ loadListener e' = false.
Proof.
  intros He Hl. unfold exec, dispatch. rewrite bind_get.
  rewrite He. simpl. rewrite Hl.
  rewrite bool_decide_eq_true_2 by reflexivity. unfold when.
  rewrite loaded_eq. unfold element_at in *. destruct w; simpl in *.
  rewrite list_lookup_alter_eq, He. simpl.
  eexists. split; [reflexivity|]. split.
  - apply removeDataAttrs_elem_no_deferred.
  - destruct e; reflexivity.
Qed.

(** Under 'really-old' every selected node leaves [_init] stripped. *)
Lemma really_old_strips (w : World) (i : nat) (e : Element) :
  checkType w = Some ReallyOld ->
  picturefill_ok (win w) = true ->
  element_at w i = Some e ->
  elementsSelector (options w) e = true ->
  exists e', element_at (exec _init w) i = Some e' /\ no_deferred e'.
Proof.
  intros Hct Hpf He Hsel. unfold exec. rewrite (init_really_old w Hct Hpf).
  cbn [fst].
  set (ids := querySelectorAll (elementsSelector (options w)) (document w)).
  set (w1 := set_frameCount _ _).
  assert (Hin : i ∈ ids).
  { apply querySelectorAll_spec. exists e. split; assumption. }
  destruct (fold_activate_spec ids (querySelectorAll_NoDup _ _) w1 i)
    as (Hdoc & _).
  rewrite (bool_decide_eq_true_2 _ Hin) in Hdoc.
  assert (Hd1 : document w1 = document w) by (destruct w; reflexivity).
  exists (activate_now e). unfold element_at in *. split.
  - match goal with |- document (set_els [] ?x) !! _ = _ =>
      replace (document (set_els [] x)) with (document x)
        by (destruct x; reflexivity)
    end.
    rewrite Hdoc, Hd1, He. reflexivity.
  - apply activate_now_spec.
Qed.

(** Outside 'really-old', no callback other than the load event of a
    node strips that node while it is unmarked. *)
Section Keeps.
Variable i : nat.
Variable d : option string * option string * option string.
Hypothesis d_unmarked : d.2 = None.


Lemma keeps_quiet (f : World -> World) :
  (forall w, document (f w) = document w
             /\ checkType (f w) = checkType w) ->
  preserves (keeps_live i d) (modify f).
Proof.
  intros Hf. apply preserves_modify. intros w [Hc Hw]. unfold keeps_live, keeps.
  destruct (Hf w) as [-> ->]. split; assumption.
Qed.

Lemma keeps_update_element (f : Element -> Element) (j : nat) :
  (forall x, deferred_of x = d -> deferred_of (f x) = d) ->
  preserves (keeps_live i d) (update_element f j).
Proof.
  intros Hf. apply preserves_modify. intros w [Hc (x & Hx & Hdx)].
  split; [destruct w; exact Hc|].
  unfold keeps. destruct w; simpl in *. rewrite list_lookup_alter.
  case_decide as Hj.
  - subst j. rewrite Hx. simpl. eexists. split; [reflexivity|].
    apply Hf, Hdx.
  - exists x. split; assumption.
Qed.

Lemma keeps_updateElement (j : nat) : preserves (keeps_live i d) (_updateElement j).
Proof.
  intros w [Hc (x & Hx & Hdx)]. unfold exec. rewrite updateElement_cases.
  destruct (picturefill_fails w j);
    (split; [destruct w; exact Hc|]);
    unfold keeps; destruct w; simpl in *; rewrite list_lookup_alter;
    (case_decide as Hj; [|exists x; split; assumption]);
    subst j; rewrite Hx; simpl; (eexists; split; [reflexivity|]).
  - destruct (updateElement_stuck_unmarked x) as [H _]. congruence.
  - destruct (updateElement_elem_unmarked x) as [H _]; [|congruence].
    unfold unmarked. rewrite <- d_unmarked, <- Hdx. reflexivity.
Qed.

Ltac keeps_leaf :=
  first [ apply keeps_quiet; intros []; split; reflexivity
        | apply keeps_update_element; intros [] H; exact H ].

Ltac keeps_known :=
  first [ simple apply keeps_updateElement ].

Lemma keeps_elementInViewport e : preserves (keeps_live i d) (_elementInViewport e).
Proof.
  unfold _elementInViewport, emit. repeat (preserves_step || keeps_leaf).
Qed.

Lemma keeps_scan_one k : preserves (keeps_live i d) (scan_one k).
Proof.
  unfold scan_one, addEventListener_load.
  repeat (simple apply keeps_elementInViewport || keeps_known
          || preserves_step || keeps_leaf).
Qed.

Lemma keeps_with_observer f :
  (forall o, preserves (keeps_live i d) (f o)) -> preserves (keeps_live i d) (with_observer f).
Proof.
  intros Hf. unfold with_observer. repeat (simple apply Hf || preserves_step).
Qed.

Lemma keeps_intersection entries : preserves (keeps_live i d) (_intersection entries).
Proof.
  unfold _intersection, observer_disconnect, observer_unobserve,
    addEventListener_load, emit.
  repeat (keeps_known || (simple apply keeps_with_observer; intros ?)
          || preserves_step || keeps_leaf).
Qed.

Lemma keeps_case_old : preserves (keeps_live i d) case_old.
Proof.
  unfold case_old, old_scan, old_reschedule, splice_one,
    set_elsLength_to_length, host_requestAnimationFrame, emit.
  repeat (simple apply keeps_scan_one || preserves_step || keeps_leaf).
Qed.

Lemma keeps_case_new : preserves (keeps_live i d) case_new.
Proof.
  unfold case_new, host_newObserver, observer_observe,
    set_elsLength_to_length, emit.
  repeat ((simple apply keeps_with_observer; intros ?)
          || preserves_step || keeps_leaf).
Qed.

Lemma keeps_setSrcs : preserves (keeps_live i d) _setSrcs.
Proof.
  unfold _setSrcs. apply preserves_get. intros w [Hc Hw].
  destruct (checkType w) as [[| |]|] eqn:Hct.
  - contradiction Hc; reflexivity.
  - apply keeps_case_old. unfold keeps_live. split; [congruence | exact Hw].
  - apply keeps_case_new. unfold keeps_live. split; [congruence | exact Hw].
  - unfold keeps_live, exec, mret, M_ret. simpl. split; [congruence | exact Hw].
Qed.

Lemma keeps_init : preserves (keeps_live i d) _init.
Proof.
  unfold _init, host_cancelAnimationFrame, observer_disconnect,
    set_elsLength_to_length, emit.
  repeat (simple apply keeps_setSrcs
          || (simple apply keeps_with_observer; intros ?)
          || preserves_step || keeps_leaf).
Qed.

Lemma keeps_loaded (j : nat) : j ≠ i -> preserves (keeps_live i d) (_loaded j).
Proof.
  intros Hj w [Hc (x & Hx & Hdx)]. unfold exec. rewrite loaded_eq.
  split; [destruct w; exact Hc|]. unfold keeps. destruct w; simpl in *.
  rewrite list_lookup_alter_ne by exact Hj. exists x. split; assumption.
Qed.

Lemma keeps_dispatch (ev : HostEvent) :
  ev ≠ Load i -> preserves (keeps_live i d) (dispatch ev).
Proof.
  intros Hev. unfold dispatch. destruct ev as [h|j|name|entries].
  - repeat (simple apply keeps_setSrcs || preserves_step || keeps_leaf).
  - assert (Hj : j ≠ i) by congruence.
    repeat (simple apply keeps_loaded || preserves_step). exact Hj.
  - repeat (simple apply keeps_init || preserves_step).
  - repeat (simple apply keeps_intersection || preserves_step).
Qed.
End Keeps.

(** Claim C2, as stated, fails for the 'old' strategy: on the small page
    the first pass updates node 0 and compacts the working set, and the
    node still carries data-src when the pass returns. *)
Lemma old_compaction_keeps_deferred : ~ old_compaction_strips.
Proof.
  intros H.
  destruct (H about_to_scan 0%nat (img {["data-src" := "a.png"]} rect_on_screen))
    as (e' & He' & Hnd & _).
  - reflexivity.
  - reflexivity.
  - vm_compute. reflexivity.
  - vm_compute. lia.
  - vm_compute in He'. injection He' as <-.
    vm_compute in Hnd. discriminate Hnd.
Qed.

(** Claim C2, amended.  For a node without data-lazyload: outside
    'really-old', no callback other than the node's own load event
    changes its data-src or data-srcset, whether the callback returns or
    throws; a pass of the 'old' case (compaction included) and a callback
    of the observer keep them and have attached the load listener to the
    node they update; where [window.picturefill] is absent or a function
    the callback of the observer reaches every positive entry; the load
    event then removes the deferred attributes and the listener; under
    'really-old', where [window.picturefill] is absent or a function,
    [_init] removes them at once. *)
Theorem deferred_attributes_wait_for_load (w : World) (i : nat) (e : Element) :
  element_at w i = Some e ->
  unmarked e ->
  (checkType w ≠ Some ReallyOld ->
   forall ev, ev ≠ Load i ->
     exists e', element_at (exec (dispatch ev) w) i = Some e'
                /\ deferred_of e' = deferred_of e)
  /\ (checkType w = Some Old ->
      exists e', element_at (exec _setSrcs w) i = Some e'
                 /\ deferred_of e' = deferred_of e
                 /\ ((count (is_update i) (trace w)
                      < count (is_update i) (trace (exec _setSrcs w)))%nat ->
                     loadListener e' = true))
  /\ (forall entries,
        exists e', element_at (exec (_intersection entries) w) i = Some e'
                   /\ deferred_of e' = deferred_of e
                   /\ ((count (is_update i) (trace w)
                        < count (is_update i)
                            (trace (exec (_intersection entries) w)))%nat ->
                       loadListener e' = true))
  /\ (picturefill_ok (win w) = true ->
      forall o entries,
        observer w = Some o ->
        (exists entry, entry ∈ entries /\ positive_ratio entry = true
                       /\ target entry = i) ->
        exists e', element_at (exec (_intersection entries) w) i = Some e'
                   /\ loadListener e' = true)
  /\ (loadListener e = true ->
      exists e', element_at (exec (dispatch (Load i)) w) i = Some e'
                 /\ no_deferred e' /\ loadListener e' = false)
  /\ (checkType w = Some ReallyOld ->
      picturefill_ok (win w) = true ->
      elementsSelector (options w) e = true ->
      exists e', element_at (exec _init w) i = Some e' /\ no_deferred e').
Proof.
  intros He Hun. split; [|split; [|split; [|split; [|split]]]].
  - intros Hct ev Hev.
    destruct (keeps_dispatch i (deferred_of e) Hun ev Hev w) as [_ H].
    + split; [exact Hct|]. exists e. split; [exact He | reflexivity].
    + exact H.
  - intros Hct. apply old_pass_keeps_deferred; assumption.
  - intros entries. apply callback_keeps_deferred; assumption.
  - intros Hpf o entries Ho Hpos.
    destruct (new_callback_keeps_deferred w o i e entries Ho Hpf He Hun)
      as (e' & He' & _ & Hl).
    exists e'. split; [exact He' | apply Hl, Hpos].
  - intros Hl. apply (load_strips_deferred w i e); assumption.
  - intros Hct Hpf Hsel. apply (really_old_strips w i e); assumption.
Qed.

Lemma deferred_attributes_wait_for_load_witness :
  let w := about_to_scan in
  let i := 0%nat in
  let e := img {["data-src" := "a.png"]} rect_on_screen in
  (checkType w ≠ Some ReallyOld ->
   forall ev, ev ≠ Load i ->
     exists e', element_at (exec (dispatch ev) w) i = Some e'
                /\ deferred_of e' = deferred_of e)
  /\ (checkType w = Some Old ->
      exists e', element_at (exec _setSrcs w) i = Some e'
                 /\ deferred_of e' = deferred_of e
                 /\ ((count (is_update i) (trace w)
                      < count (is_update i) (trace (exec _setSrcs w)))%nat ->
                     loadListener e' = true))
  /\ (forall entries,
        exists e', element_at (exec (_intersection entries) w) i = Some e'
                   /\ deferred_of e' = deferred_of e
                   /\ ((count (is_update i) (trace w)
                        < count (is_update i)
                            (trace (exec (_intersection entries) w)))%nat ->
                       loadListener e' = true))
  /\ (picturefill_ok (win w) = true ->
      forall o entries,
        observer w = Some o ->
        (exists entry, entry ∈ entries /\ positive_ratio entry = true
                       /\ target entry = i) ->
        exists e', element_at (exec (_intersection entries) w) i = Some e'
                   /\ loadListener e' = true)
  /\ (loadListener e = true ->
      exists e', element_at (exec (dispatch (Load i)) w) i = Some e'
                 /\ no_deferred e' /\ loadListener e' = false)
  /\ (checkType w = Some ReallyOld ->
      picturefill_ok (win w) = true ->
      elementsSelector (options w) e = true ->
      exists e', element_at (exec _init w) i = Some e' /\ no_deferred e').
Proof.
  apply (deferred_attributes_wait_for_load about_to_scan 0
           (img {["data-src" := "a.png"]} rect_on_screen)).
  - reflexivity.
  - vm_compute. reflexivity.
Defined.

(** *** Further properties of the helper functions *)

(** [_htmlCollectionToArray] fills the array from the last index down,
    growing it on the first write; the result has the length of the
    collection, no hole, and the nodes in the order of the collection. *)
Theorem htmlCollectionToArray_copies (c : list nat) :
  length (htmlCollectionToArray c) = length c
  /\ (forall i, array_get (htmlCollectionToArray c) i = c !! i)
  /\ (forall i, (i < length c)%nat -> htmlCollectionToArray c !! i ≠ Some None).
Proof.
  rewrite htmlCollectionToArray_spec. split; [apply length_fmap|]. split.
  - intros i. unfold array_get. rewrite list_lookup_fmap.
    destruct (c !! i); reflexivity.
  - intros i _. rewrite list_lookup_fmap. destruct (c !! i); discriminate.
Qed.

Lemma dispatch_load_eq (i : nat) (w : World) :
  dispatch (Load i) w =
  if bool_decide ((loadListener <$> element_at w i) = Some true)
  then _loaded i w else (w, Ok tt).
Proof.
  unfold dispatch. rewrite bind_get. unfold when.
  case_bool_decide; reflexivity.
Qed.


Lemma elementInViewport_eq (e : nat) (w : World) :
  _elementInViewport e w
  = (set_trace (trace w ++ (viewport_test w e).1) w, (viewport_test w e).2).
Proof.
  assert (Hnil : set_trace (trace w ++ []) w = w).
  { rewrite app_nil_r. destruct w; reflexivity. }
  unfold _elementInViewport, viewport_test, rect_in_viewport.
  rewrite bind_get.
  destruct (element_at w e) as [x|]; [|simpl; rewrite Hnil; reflexivity].
  destruct (if String.eqb (tagName x) "SOURCE" then parentNode x else Some e)
    as [t|]; [|simpl; rewrite Hnil; reflexivity].
  destruct (callable (getBoundingClientRect (win w)));
    [|simpl; rewrite Hnil; reflexivity].
  unfold emit. rewrite bind_modify.
  destruct (element_at w t); reflexivity.
Qed.

(** A [source] element has no layout box: the test on it is the test on
    its parent node, with the same call and the same answer. *)
Theorem source_tested_by_parent (w : World) (e p : nat) (x xp : Element) :
  element_at w e = Some x ->
  tagName x = "SOURCE" ->
  parentNode x = Some p ->
  element_at w p = Some xp ->
  tagName xp ≠ "SOURCE" ->
  _elementInViewport e w = _elementInViewport p w
  /\ snd (_elementInViewport e w)
     = (if callable (getBoundingClientRect (win w))
        then Ok (rect_in_viewport (win w) (rect xp))
        else Throw (TypeError "getBoundingClientRect is not a function")).
Proof.
  intros He Htag Hp Hxp Hntag.
  assert (Hte : viewport_test w e = viewport_test w p).
  { unfold viewport_test. rewrite He, Htag, Hp, Hxp. simpl.
    destruct (String.eqb_spec (tagName xp) "SOURCE"); [contradiction|].
    rewrite Hxp. reflexivity. }
  rewrite !elementInViewport_eq, Hte. split; [reflexivity|].
  cbn [snd]. unfold viewport_test. rewrite Hxp.
  destruct (String.eqb_spec (tagName xp) "SOURCE"); [contradiction|].
  rewrite Hxp. destruct (callable _); reflexivity.
Qed.

Lemma source_tested_by_parent_witness :
  let w := initial_world polling_browser picture_page in
  _elementInViewport 1 w = _elementInViewport 0 w
  /\ snd (_elementInViewport 1 w)
     = (if callable (getBoundingClientRect (win w))
        then Ok (rect_in_viewport (win w) rect_on_screen)
        else Throw (TypeError "getBoundingClientRect is not a function")).
Proof.
  apply (source_tested_by_parent (initial_world polling_browser picture_page)
           1 0
           (mkElement "SOURCE" {["data-srcset" := "a.webp"]} None false false
                      (Some 0%nat) (mkRect 0 0 0 0))
           (mkElement "PICTURE" ∅ None false false None rect_on_screen)).
  - reflexivity.
  - reflexivity.
  - reflexivity.
  - reflexivity.
  - discriminate.
Defined.

Lemma updateElement_elem_footprint (x : Element) :
  same_outside_footprint x (updateElement_elem x).
Proof.
  unfold same_outside_footprint, updateElement_elem, removeDataAttrs_elem,
    assign_src_elem.
  destruct x as [tg atts sr lz ll pn rc]. simpl.
  destruct (truthy_attr (atts !! "data-srcset")),
           (truthy_attr (atts !! "data-src")),
           (bool_decide (is_Some (atts !! "data-lazyload"))); simpl;
    destruct (reflects_src tg) eqn:Hr; simpl;
    repeat split; try discriminate;
    try (intros name H1 H2 H3 H4 H5 H6); try (intros _);
    rewrite ?lookup_delete_ne, ?lookup_insert_ne by congruence; reflexivity.
Qed.

Lemma updateElement_stuck_footprint (x : Element) :
  same_outside_footprint x (updateElement_stuck x).
Proof.
  unfold same_outside_footprint, updateElement_stuck.
  destruct x as [tg atts sr lz ll pn rc]. simpl.
  repeat split; try (intros name H1 H2 H3 H4 H5 H6); try (intros _);
    rewrite ?lookup_insert_ne by congruence; reflexivity.
Qed.

Lemma updateElement_elem_live (y : Element) :
  tagName (updateElement_elem y) = tagName y
  /\ (forall v, attributes y !! "data-src" = Some v -> v ≠ "" ->
                live_src y v (updateElement_elem y))
  /\ (forall v, attributes y !! "data-srcset" = Some v -> v ≠ "" ->
                attributes (updateElement_elem y) !! "srcset" = Some v).
Proof.
  split; [apply updateElement_elem_footprint|].
  unfold live_src, updateElement_elem, removeDataAttrs_elem, assign_src_elem.
  destruct y as [tg atts sr lz ll pn rc]. simpl. split.
  - intros v Hv Hne. rewrite Hv, (truthy_attr_Some v Hne).
    destruct (truthy_attr (atts !! "data-srcset")), (bool_decide _);
      simpl; destruct (reflects_src tg); simpl;
      (split; [reflexivity | intros Hr; try discriminate Hr]);
      simplify_map_eq; reflexivity.
  - intros v Hv Hne. rewrite Hv, (truthy_attr_Some v Hne).
    destruct (truthy_attr (atts !! "data-src")), (bool_decide _); simpl;
      try (destruct (reflects_src tg)); simpl;
      simplify_map_eq; reflexivity.
Qed.

(** [_updateElement] writes to one node only, whether it returns or
    throws, and on that node only to the [src] property, the load
    listener and the attributes srcset, src, data-lazyloaded, data-src,
    data-srcset and data-lazyload: every other attribute, the tag, the
    parent, the rectangle and the expando are as before, and so is every
    other node; the src attribute is written on the elements whose [src]
    property reflects it and on no other.  When the call returns, a
    non-empty data-src has been assigned to [src], which on a reflecting
    element replaces the src attribute (a placeholder, for instance),
    and a non-empty data-srcset is the srcset attribute. *)
Theorem updateElement_footprint (w : World) (i : nat) (x : Element) :
  element_at w i = Some x ->
  let w' := exec (_updateElement i) w in
  (forall j, j ≠ i -> element_at w' j = element_at w j)
  /\ length (document w') = length (document w)
  /\ exists x',
       element_at w' i = Some x'
       /\ tagName x' = tagName x
       /\ parentNode x' = parentNode x
       /\ rect x' = rect x
       /\ lazyloaded x' = lazyloaded x
       /\ (forall name,
             name ≠ "srcset" -> name ≠ "src" -> name ≠ "data-lazyloaded" ->
             name ≠ "data-src" -> name ≠ "data-srcset" ->
             name ≠ "data-lazyload" ->
             attributes x' !! name = attributes x !! name)
       /\ (reflects_src (tagName x) = false ->
           attributes x' !! "src" = attributes x !! "src")
       /\ (snd (_updateElement i w) = Ok tt ->
           (forall v, attributes x !! "data-src" = Some v -> v ≠ "" ->
                      src x' = Some v
                      /\ (reflects_src (tagName x) = true ->
                          attributes x' !! "src" = Some v))
           /\ (forall v, attributes x !! "data-srcset" = Some v -> v ≠ "" ->
                         attributes x' !! "srcset" = Some v)).
Proof.
  intros Hx w'. unfold w', exec. rewrite updateElement_cases.
  unfold element_at in *.
  destruct (picturefill_fails w i);
    destruct w as [op fl fc es el ob ct wn doc pe nh obs dl tr]; simpl in *;
    (split; [intros j Hj; apply list_lookup_alter_ne; congruence|]);
    (split; [apply length_alter|]);
    rewrite list_lookup_alter_eq, Hx; simpl;
    (eexists; split; [reflexivity|]).
  - pose proof (updateElement_stuck_footprint x) as H.
    unfold same_outside_footprint in H.
    destruct H as (H1 & H2 & H3 & H4 & H5 & H6).
    repeat (split; [assumption|]). discriminate.
  - pose proof (updateElement_elem_footprint x) as H.
    unfold same_outside_footprint in H.
    destruct H as (H1 & H2 & H3 & H4 & H5 & H6).
    repeat (split; [assumption|]). intros _.
    destruct (updateElement_elem_live x) as (_ & Hs & Hss).
    split; [exact Hs | exact Hss].
Qed.

Lemma updateElement_footprint_witness :
  let x := img {["src" := "placeholder.gif"; "data-src" := "real.png"]}
               rect_on_screen in
  let w := initial_world polling_browser [x] in
  let w' := exec (_updateElement 0) w in
  (forall j, j ≠ 0%nat -> element_at w' j = element_at w j)
  /\ length (document w') = length (document w)
  /\ exists x',
       element_at w' 0 = Some x'
       /\ tagName x' = tagName x
       /\ parentNode x' = parentNode x
       /\ rect x' = rect x
       /\ lazyloaded x' = lazyloaded x
       /\ (forall name,
             name ≠ "srcset" -> name ≠ "src" -> name ≠ "data-lazyloaded" ->
             name ≠ "data-src" -> name ≠ "data-srcset" ->
             name ≠ "data-lazyload" ->
             attributes x' !! name = attributes x !! name)
       /\ (reflects_src (tagName x) = false ->
           attributes x' !! "src" = attributes x !! "src")
       /\ (snd (_updateElement 0 w) = Ok tt ->
           (forall v, attributes x !! "data-src" = Some v -> v ≠ "" ->
                      src x' = Some v
                      /\ (reflects_src (tagName x) = true ->
                          attributes x' !! "src" = Some v))
           /\ (forall v, attributes x !! "data-srcset" = Some v -> v ≠ "" ->
                         attributes x' !! "srcset" = Some v)).
Proof.
  apply (updateElement_footprint
           (initial_world polling_browser
              [img {["src" := "placeholder.gif"; "data-src" := "real.png"]}
                   rect_on_screen])
           0
           (img {["src" := "placeholder.gif"; "data-src" := "real.png"]}
                rect_on_screen)).
  reflexivity.
Defined.

(** On an element whose [src] property reflects the attribute, the
    assignment [element.src = v] replaces a placeholder in the attribute. *)
Example placeholder_replaced :
  let x := img {["src" := "placeholder.gif"; "data-src" := "real.png"]}
               rect_on_screen in
  attributes (updateElement_elem x) !! "src" = Some "real.png"
  /\ src (updateElement_elem x) = Some "real.png".
Proof. split; vm_compute; reflexivity. Qed.

(** *** Further properties of the observation strategy *)

Lemma intersect_step_elsLength (o : nat) (w : World) (entry : Entry) :
  elsLength (intersect_step o w entry)
  = (if positive_ratio entry then Z.pred <$> elsLength w else elsLength w)
  /\ count is_disconnect (trace (intersect_step o w entry))
     = count is_disconnect (trace w).
Proof.
  unfold intersect_step. destruct (positive_ratio entry); [|split; reflexivity].
  destruct w; simpl. rewrite !count_app.
  rewrite updateElement_events_count by reflexivity.
  count_simpl. split; [reflexivity | lia].
Qed.

Lemma fold_intersect_elsLength (o : nat) (entries : list Entry) :
  forall w,
    elsLength (foldl (intersect_step o) w entries)
    = (fun n => n - Z.of_nat (length (positive_entries entries))) <$> elsLength w
    /\ count is_disconnect (trace (foldl (intersect_step o) w entries))
       = count is_disconnect (trace w).
Proof.
  induction entries as [|entry entries IH]; intros w.
  - simpl. destruct (elsLength w); simpl; split; try reflexivity.
    f_equal. lia.
  - cbn [foldl]. destruct (IH (intersect_step o w entry)) as [Hl Hd].
    destruct (intersect_step_elsLength o w entry) as [Hl1 Hd1].
    rewrite Hl, Hd, Hl1, Hd1. split; [|reflexivity].
    unfold positive_entries. rewrite filter_cons.
    destruct (positive_ratio entry) eqn:Hpos.
    + rewrite decide_True by reflexivity. cbn [length].
      destruct (elsLength w); simpl; [f_equal; lia | reflexivity].
    + rewrite decide_False by discriminate. reflexivity.
Qed.

(** Where [window.picturefill] is absent or a function, the callback
    returns and counts down by one for each positive entry, with no floor
    at zero, and it disconnects the observer only when it finds the
    counter at 0 on entry: the batch that brings the counter to 0 leaves
    the observer connected. *)
Theorem intersection_counts_down (w : World) (o : nat) (entries : list Entry) :
  observer w = Some o ->
  picturefill_ok (win w) = true ->
  let w' := exec (_intersection entries) w in
  outcome (_intersection entries) w = Ok tt
  /\ elsLength w'
     = (fun n => n - Z.of_nat (length (positive_entries entries))) <$> elsLength w
  /\ count is_disconnect (trace w')
     = (count is_disconnect (trace w)
        + if bool_decide (elsLength w = Some 0%Z) then 1 else 0)%nat.
Proof.
  intros Ho Hpf w'. unfold w', exec, outcome.
  rewrite (intersection_eq o entries w Ho Hpf).
  cbn [fst snd]. split; [reflexivity|].
  destruct (fold_intersect_elsLength o entries
              (if bool_decide (elsLength w = Some 0) then disconnected o w else w))
    as [Hl Hd].
  rewrite Hl, Hd. case_bool_decide.
  - unfold disconnected. destruct w; simpl. count_simpl. split; [reflexivity | lia].
  - split; [reflexivity | lia].
Qed.

Lemma intersection_counts_down_witness :
  let w' := exec (_intersection sample_batch) observed_page in
  outcome (_intersection sample_batch) observed_page = Ok tt
  /\ elsLength w'
     = (fun n => n - Z.of_nat (length (positive_entries sample_batch)))
         <$> elsLength observed_page
  /\ count is_disconnect (trace w')
     = (count is_disconnect (trace observed_page)
        + if bool_decide (elsLength observed_page = Some 0%Z) then 1 else 0)%nat.
Proof.
  apply (intersection_counts_down observed_page 0 sample_batch).
  - vm_compute. reflexivity.
  - vm_compute. reflexivity.
Defined.





Lemma init_new_eq (w : World) :
  checkType w = Some New ->
  _init w = case_new (collected (torn_down_new w)).
Proof.
  intros Hct. unfold _init. rewrite bind_get, Hct.
  assert (Htd : try_catch observer_disconnect w = (torn_down_new w, Ok tt)).
  { unfold try_catch, observer_disconnect, with_observer, torn_down_new,
      disconnected. rewrite bind_get.
    destruct (observer w); [|reflexivity].
    unfold_monad. destruct w; reflexivity. }
  rewrite (bind_eq _ _ _ _ _ Htd).
  unfold set_elsLength_to_length. rewrite !bind_modify.
  rewrite htmlCollectionToArray_spec.
  assert (Hct' : checkType (torn_down_new w) = Some New).
  { unfold torn_down_new. destruct (observer w); destruct w; exact Hct. }
  unfold _setSrcs. rewrite bind_get.
  match goal with |- match checkType ?x with _ => _ end _ = _ =>
    replace (checkType x) with (Some New)
      by (destruct (torn_down_new w); simpl in *; congruence);
    replace x with (collected (torn_down_new w))
      by (unfold collected; destruct (torn_down_new w); simpl;
          rewrite length_fmap; reflexivity)
  end.
  reflexivity.
Qed.




(** *** From activation to the load event *)

Lemma observed_activation_first (x : Element) :
  activated_from x (observed_activation x).
Proof.
  unfold activated_from, observed_activation.
  destruct (updateElement_elem_live (set_loadListener true x)) as (Ht & Hs & Hss).
  split; [rewrite Ht; destruct x; reflexivity|]. split; [|split].
  - destruct (attributes x !! "data-lazyload") as [m|] eqn:Hm.
    + left. apply updateElement_elem_marked. destruct x; simpl in *.
      rewrite Hm. eexists; reflexivity.
    + right.
      destruct (updateElement_elem_unmarked (set_loadListener true x))
        as [Hd Hl]; [destruct x; exact Hm|].
      rewrite Hd, Hl. destruct x; repeat split; assumption.
  - intros v Hv Hne. destruct x; apply Hs; assumption.
  - intros v Hv. apply Hss. destruct x; exact Hv.
Qed.

Lemma set_loadListener_attributes (b : bool) (y : Element) :
  attributes (set_loadListener b y) = attributes y
  /\ src (set_loadListener b y) = src y
  /\ loadListener (set_loadListener b y) = b
  /\ tagName (set_loadListener b y) = tagName y.
Proof. destruct y; repeat split; reflexivity. Qed.

Lemma observed_activation_again (x y : Element) :
  activated_from x y -> activated_from x (observed_activation y).
Proof.
  intros (Htag & Hstate & Hsrc & Hsrcset). unfold observed_activation.
  destruct (set_loadListener_attributes true y) as (Ha & Hs & Hl & Htg).
  destruct Hstate as [Hnd | (Hd & Hun & Hll)].
  - assert (Hnd' : no_deferred (set_loadListener true y)).
    { unfold no_deferred. rewrite Ha. exact Hnd. }
    rewrite (updateElement_elem_id _ Hnd').
    split; [congruence|]. split; [left; exact Hnd'|].
    unfold live_src in *. rewrite Ha, Hs. split; assumption.
  - assert (Hdy : deferred_of (set_loadListener true y) = deferred_of x).
    { unfold deferred_of in *. rewrite Ha. exact Hd. }
    assert (Huny : unmarked (set_loadListener true y)).
    { unfold unmarked in *. unfold deferred_of in Hdy. congruence. }
    destruct (updateElement_elem_unmarked _ Huny) as [Hd' Hl'].
    destruct (updateElement_elem_live (set_loadListener true y))
      as (Ht1 & Hlive1 & Hlive2).
    split; [congruence|].
    split; [right; rewrite Hd', Hl', Hl; repeat split; assumption|].
    unfold deferred_of in Hdy. injection Hdy as H1 H2 _.
    split; intros v Hv Hne.
    + destruct (Hlive1 v) as [Hp Hq]; [congruence | exact Hne|].
      split; [exact Hp|]. intros Hr. apply Hq. congruence.
    + apply Hlive2; congruence.
Qed.

Lemma after_load_stripped (x y : Element) :
  activated_from x y ->
  no_deferred (after_load y)
  /\ loadListener (after_load y) = false
  /\ (forall v, attributes x !! "data-src" = Some v -> v ≠ "" ->
                live_src x v (after_load y))
  /\ (forall v, attributes x !! "data-srcset" = Some v -> v ≠ "" ->
                attributes (after_load y) !! "srcset" = Some v).
Proof.
  intros (Htag & Hstate & Hsrc & Hsrcset). unfold after_load.
  destruct (loadListener y) eqn:Hl.
  - split; [apply removeDataAttrs_elem_no_deferred|].
    unfold removeDataAttrs_elem, live_src in *.
    destruct y as [tg atts sr lz ll pn rc].
    simpl in *. split; [reflexivity|]. split.
    + intros v Hv Hne. destruct (Hsrc v Hv Hne) as [Hp Hq].
      split; [exact Hp|]. intros Hr.
      rewrite !lookup_delete_ne by discriminate. apply Hq, Hr.
    + intros v Hv Hne. rewrite !lookup_delete_ne by discriminate.
      apply Hsrcset; assumption.
  - destruct Hstate as [Hnd | (_ & _ & Hll)]; [|congruence].
    split; [exact Hnd|]. split; [exact Hl|]. split; assumption.
Qed.

Lemma fold_intersect_activated (o i : nat) (x : Element) (entries : list Entry) :
  forall (w : World) (y : Element),
    document w !! i = Some y ->
    (activated_from x y
     \/ (y = x /\ exists entry, entry ∈ entries /\ positive_ratio entry = true
                               /\ target entry = i)) ->
    exists y', document (foldl (intersect_step o) w entries) !! i = Some y'
               /\ activated_from x y'.
Proof.
  induction entries as [|entry entries IH]; intros w y Hy Hstart.
  - exists y. split; [exact Hy|].
    destruct Hstart as [H | (_ & en & Hin & _)]; [exact H | inversion Hin].
  - cbn [foldl].
    destruct (decide (positive_ratio entry = true /\ target entry = i))
      as [[Hpos Ht] | Hmiss].
    + apply (IH _ (observed_activation y)).
      * rewrite intersect_step_doc, Hpos, Ht, list_lookup_alter_eq, Hy.
        reflexivity.
      * left. destruct Hstart as [H | [-> _]].
        -- apply observed_activation_again, H.
        -- apply observed_activation_first.
    + apply (IH _ y).
      * rewrite intersect_step_doc. destruct (positive_ratio entry); [|exact Hy].
        rewrite list_lookup_alter_ne; [exact Hy|]. intros Ht. apply Hmiss. auto.
      * destruct Hstart as [H | (-> & en & Hin & Hpos & Ht)]; [left; exact H|].
        right. split; [reflexivity|]. exists en.
        apply elem_of_cons in Hin as [-> | Hin]; [|auto].
        contradiction Hmiss. auto.
Qed.

(** The round trip under 'new', where [window.picturefill] is absent or
    a function: when a batch holds a positive entry for a node and the
    node's load event follows, the node ends without deferred attributes
    and without the load listener, with its non-empty data-src assigned
    to [src] (and written to the src attribute where the property
    reflects it) and its non-empty data-srcset in the srcset attribute,
    whether or not it carries data-lazyload. *)
Theorem observed_then_loaded
  (w : World) (o i : nat) (x : Element) (entries : list Entry) (entry : Entry) :
  observer w = Some o ->
  picturefill_ok (win w) = true ->
  element_at w i = Some x ->
  entry ∈ entries ->
  (0 < intersectionRatio entry)%Q ->
  target entry = i ->
  let w2 := exec (dispatch (Load i)) (exec (_intersection entries) w) in
  exists x',
    element_at w2 i = Some x'
    /\ no_deferred x'
    /\ loadListener x' = false
    /\ (forall v, attributes x !! "data-src" = Some v -> v ≠ "" ->
                  live_src x v x')
    /\ (forall v, attributes x !! "data-srcset" = Some v -> v ≠ "" ->
                  attributes x' !! "srcset" = Some v).
Proof.
  intros Ho Hpf Hx Hin Hpos Ht w2.
  apply positive_ratio_spec in Hpos.
  unfold w2, exec at 2. rewrite (intersection_eq o entries w Ho Hpf). cbn [fst].
  set (w0 := if bool_decide (elsLength w = Some 0) then disconnected o w else w).
  assert (H0 : document w0 !! i = Some x).
  { unfold w0. case_bool_decide; [destruct w|]; exact Hx. }
  destruct (fold_intersect_activated o i x entries w0 x H0) as (y & Hy & Hact).
  { right. split; [reflexivity|]. exists entry. auto. }
  set (w1 := foldl (intersect_step o) w0 entries) in *.
  exists (after_load y). split; [|apply (after_load_stripped x y Hact)].
  unfold exec. rewrite dispatch_load_eq. unfold element_at, after_load.
  rewrite Hy. simpl. destruct (loadListener y) eqn:Hl.
  - rewrite bool_decide_eq_true_2 by reflexivity. rewrite loaded_eq.
    destruct w1; simpl in *. rewrite list_lookup_alter_eq, Hy. reflexivity.
  - rewrite bool_decide_eq_false_2 by discriminate. exact Hy.
Qed.

Lemma observed_then_loaded_witness :
  let x := img {["data-src" := "a.png"]} rect_on_screen in
  let w2 := exec (dispatch (Load 0))
                 (exec (_intersection sample_batch) observed_page) in
  exists x',
    element_at w2 0 = Some x'
    /\ no_deferred x'
    /\ loadListener x' = false
    /\ (forall v, attributes x !! "data-src" = Some v -> v ≠ "" ->
                  live_src x v x')
    /\ (forall v, attributes x !! "data-srcset" = Some v -> v ≠ "" ->
                  attributes x' !! "srcset" = Some v).
Proof.
  apply (observed_then_loaded observed_page 0 0
           (img {["data-src" := "a.png"]} rect_on_screen)
           sample_batch (mkEntry 0 (1 # 2)%Q)).
  - vm_compute. reflexivity.
  - vm_compute. reflexivity.
  - vm_compute. reflexivity.
  - left.
  - reflexivity.
  - reflexivity.
Defined.

(** *** The clean-up loop of the polling strategy *)

Lemma splice_one_eq (i : nat) (w : World) :
  splice_one i w
  = (set_els (if bool_decide (array_get (els w) i = None)
              then delete i (els w) else els w) w, Ok tt).
Proof.
  unfold splice_one. rewrite bind_get. unfold when, modify.
  case_bool_decide; destruct w; reflexivity.
Qed.

Lemma splice_loop_eq (k : nat) : forall (i : nat) (w : World),
  for_each (seq i k) splice_one w = (set_els (compact k i (els w)) w, Ok tt).
Proof.
  induction k as [|k IH]; intros i w.
  - destruct w; reflexivity.
  - cbn [seq for_each compact].
    erewrite bind_eq by apply splice_one_eq. rewrite IH.
    destruct w; reflexivity.
Qed.

Lemma live_delete_hole (l : list (option nat)) (i : nat) :
  array_get l i = None -> live (delete i l) = live l.
Proof.
  unfold array_get, live. revert i.
  induction l as [|x l IH]; intros i Hi; [reflexivity|].
  destruct i as [|i].
  - unfold lookup in Hi. simpl in Hi. subst x. reflexivity.
  - change (delete (S i) (x :: l)) with (x :: delete i l).
    cbn [omap list_omap]. rewrite (IH i Hi). reflexivity.
Qed.

Lemma delete_beyond {A : Type} (l : list A) (i : nat) :
  (length l <= i)%nat -> delete i l = l.
Proof.
  revert i. induction l as [|x l IH]; intros i Hi; [reflexivity|].
  destruct i as [|i]; simpl in Hi; [lia|].
  change (delete (S i) (x :: l)) with (x :: delete i l).
  rewrite IH by lia. reflexivity.
Qed.

Lemma compact_live (k : nat) : forall i l,
  live (compact k i l) = live l /\ (length (compact k i l) <= length l)%nat.
Proof.
  induction k as [|k IH]; intros i l; cbn [compact]; [split; [reflexivity | lia]|].
  case_bool_decide as Hi.
  - destruct (IH (S i) (delete i l)) as [Hl Hn].
    rewrite Hl, (live_delete_hole l i Hi). split; [reflexivity|].
    destruct (l !! i) eqn:Hli.
    + rewrite length_delete in Hn by eauto. lia.
    + apply lookup_ge_None in Hli. rewrite delete_beyond in Hn |- * by lia. exact Hn.
  - apply IH.
Qed.

Lemma compact_beyond (k : nat) : forall i l,
  (length l <= i)%nat -> compact k i l = l.
Proof.
  induction k as [|k IH]; intros i l Hi; cbn [compact]; [reflexivity|].
  rewrite delete_beyond by exact Hi.
  destruct (bool_decide _); apply IH; lia.
Qed.

Lemma compact_below (k : nat) : forall i l j,
  (j < i)%nat -> compact k i l !! j = l !! j.
Proof.
  induction k as [|k IH]; intros i l j Hj; cbn [compact]; [reflexivity|].
  rewrite IH by lia. case_bool_decide; [|reflexivity].
  apply list_lookup_delete_lt. exact Hj.
Qed.

Lemma array_get_middle (pre suf : list (option nat)) (x : option nat) :
  array_get (pre ++ x :: suf) (length pre) = x.
Proof.
  unfold array_get. rewrite list_lookup_middle by reflexivity. reflexivity.
Qed.

Lemma compact_sparse (k : nat) : forall (pre suf : list (option nat)),
  sparse suf = true ->
  (length suf <= k)%nat ->
  compact k (length pre) (pre ++ suf) = pre ++ (Some <$> live suf).
Proof.
  induction k as [|k IH]; intros pre suf Hsp Hk.
  - destruct suf; [reflexivity | simpl in Hk; lia].
  - cbn [compact]. destruct suf as [|[a|] suf].
    + rewrite app_nil_r, delete_beyond by lia.
      destruct (bool_decide _); simpl; rewrite app_nil_r;
        apply compact_beyond; lia.
    + rewrite array_get_middle, bool_decide_eq_false_2 by discriminate.
      specialize (IH (pre ++ [Some a]) suf).
      rewrite length_app, <- (assoc_L (++)) in IH. simpl in IH.
      replace (length pre + 1)%nat with (S (length pre)) in IH by lia.
      rewrite IH; [|exact Hsp | simpl in Hk; lia].
      rewrite <- (assoc_L (++)). reflexivity.
    + rewrite array_get_middle, bool_decide_eq_true_2 by reflexivity.
      rewrite delete_middle. destruct suf as [|[a|] suf].
      * rewrite app_nil_r, compact_beyond by lia.
        simpl. rewrite app_nil_r. reflexivity.
      * specialize (IH (pre ++ [Some a]) suf).
        rewrite length_app, <- (assoc_L (++)) in IH. simpl in IH.
        replace (length pre + 1)%nat with (S (length pre)) in IH by lia.
        rewrite IH; [|exact Hsp | simpl in Hk; lia].
        rewrite <- (assoc_L (++)). reflexivity.
      * discriminate Hsp.
Qed.

Lemma compact_adjacent (k : nat) : forall (i : nat) (pre rest : list (option nat)),
  (i <= length pre)%nat ->
  Forall (fun x => is_Some x) pre ->
  compact k i (pre ++ None :: None :: rest) !! length pre = Some None.
Proof.
  induction k as [|k IH]; intros i pre rest Hi Hpre; cbn [compact].
  - apply list_lookup_middle. reflexivity.
  - destruct (decide (i = length pre)) as [->|Hne].
    + rewrite array_get_middle, bool_decide_eq_true_2 by reflexivity.
      rewrite delete_middle, compact_below by lia.
      apply list_lookup_middle. reflexivity.
    + assert (Hlt : (i < length pre)%nat) by lia.
      destruct (lookup_lt_is_Some_2 pre i Hlt) as [x Hx].
      assert (Hsome : is_Some x).
      { rewrite Forall_lookup in Hpre. apply (Hpre i x Hx). }
      destruct Hsome as [a ->].
      assert (Hget : array_get (pre ++ None :: None :: rest) i = Some a).
      { unfold array_get. rewrite lookup_app_l, Hx by exact Hlt. reflexivity. }
      rewrite Hget, bool_decide_eq_false_2 by discriminate.
      apply IH; [lia | exact Hpre].
Qed.

Lemma compact_all_holes (k : nat) : forall (i m : nat),
  (i <= m)%nat -> (m - i <= k)%nat ->
  compact k i (replicate m None) = replicate (i + Nat.div2 (m - i)) None.
Proof.
  induction k as [|k IH]; intros i m Hi Hk.
  - assert (m = i) as -> by lia. rewrite Nat.sub_diag, Nat.add_0_r. reflexivity.
  - cbn [compact]. destruct (decide (i = m)) as [->|Hne].
    + rewrite Nat.sub_diag, Nat.add_0_r.
      rewrite delete_beyond by (rewrite length_replicate; lia).
      destruct (bool_decide _); apply compact_beyond; rewrite length_replicate; lia.
    + assert (Hget : array_get (replicate m (@None nat)) i = None).
      { unfold array_get. rewrite lookup_replicate_2 by lia. reflexivity. }
      rewrite Hget, bool_decide_eq_true_2 by reflexivity.
      assert (Hdel : delete i (replicate m (@None nat)) = replicate (m - 1) None).
      { rewrite delete_take_drop, take_replicate, drop_replicate, <- replicate_add.
        f_equal. lia. }
      rewrite Hdel. destruct (decide (S i <= m - 1)%nat) as [Hle|Hgt].
      * rewrite IH by lia. f_equal.
        replace (m - i)%nat with (S (S (m - 1 - S i))) by lia. simpl. lia.
      * rewrite compact_beyond by (rewrite length_replicate; lia).
        assert (m = S i) as -> by lia.
        replace (S i - i)%nat with 1%nat by lia. simpl.
        rewrite Nat.add_0_r, Nat.sub_0_r. reflexivity.
Qed.

Lemma cleaned_up_eq (w : World) :
  cleaned_up w = set_els (compact (length (els w)) 0 (els w)) w.
Proof. unfold cleaned_up, exec. rewrite splice_loop_eq. reflexivity. Qed.

(** The clean-up loop never throws and never drops a node: the nodes
    left in the working set are those that were in it, in the same
    order; only holes go, the array does not grow, and nothing but the
    array is written. *)
Theorem cleanup_keeps_nodes (w : World) :
  for_each (seq 0 (length (els w))) splice_one w = (cleaned_up w, Ok tt)
  /\ live (els (cleaned_up w)) = live (els w)
  /\ (length (els (cleaned_up w)) <= length (els w))%nat
  /\ cleaned_up w = set_els (els (cleaned_up w)) w.
Proof.
  rewrite cleaned_up_eq. split; [apply splice_loop_eq|].
  destruct (compact_live (length (els w)) 0 (els w)) as [Hl Hn].
  destruct w; simpl in *. repeat split; assumption.
Qed.

(** When no two holes are next to each other, the clean-up loop removes
    every hole. *)
Theorem cleanup_removes_separate_holes (w : World) :
  sparse (els w) = true ->
  els (cleaned_up w) = Some <$> live (els w).
Proof.
  intros Hsp. rewrite cleaned_up_eq.
  pose proof (compact_sparse (length (els w)) [] (els w) Hsp (Nat.le_refl _)) as H.
  simpl in H. destruct w; exact H.
Qed.

Lemma cleanup_removes_separate_holes_witness :
  els (cleaned_up holes_apart) = Some <$> live (els holes_apart).
Proof.
  apply (cleanup_removes_separate_holes holes_apart). reflexivity.
Defined.

(** The index moves on after a splice, so of two holes next to each
    other the second slides under the index and stays: with only nodes
    before them, a hole is left at the position of the first, and the
    working set is not empty after the clean-up. *)
Theorem cleanup_leaves_adjacent_hole
  (w : World) (pre rest : list (option nat)) :
  els w = pre ++ None :: None :: rest ->
  Forall (fun x => is_Some x) pre ->
  els (cleaned_up w) !! length pre = Some None
  /\ els (cleaned_up w) ≠ [].
Proof.
  intros Hels Hpre. rewrite cleaned_up_eq.
  assert (H : els (set_els (compact (length (els w)) 0 (els w)) w)
              !! length pre = Some None).
  { replace (els (set_els (compact (length (els w)) 0 (els w)) w))
      with (compact (length (els w)) 0 (els w)) by (destruct w; reflexivity).
    rewrite Hels at 2. apply compact_adjacent; [lia | exact Hpre]. }
  split; [exact H|]. intros Hnil. rewrite Hnil in H. discriminate H.
Qed.

Lemma cleanup_leaves_adjacent_hole_witness :
  els (cleaned_up holes_together) !! length (@nil (option nat)) = Some None
  /\ els (cleaned_up holes_together) ≠ [].
Proof.
  apply (cleanup_leaves_adjacent_hole holes_together [] [Some 2; Some 3]%nat).
  - reflexivity.
  - constructor.
Defined.

(** *** Frame rules, by the variables a function assigns *)

Section Untouched.
Context {A : Type}.
Variable proj : World -> A.
Variable a : A.
(** Every function may write to the document, the trace, the working
    set and its two counters. *)
Hypothesis proj_document : forall v w, proj (set_document v w) = proj w.
Hypothesis proj_trace : forall v w, proj (set_trace v w) = proj w.
Hypothesis proj_els : forall v w, proj (set_els v w) = proj w.
Hypothesis proj_elsLength : forall v w, proj (set_elsLength v w) = proj w.
Hypothesis proj_frameCount : forall v w, proj (set_frameCount v w) = proj w.
(** The polling loop also writes to the frames. *)
Hypothesis proj_frameLoop : forall v w, proj (set_frameLoop v w) = proj w.
Hypothesis proj_pending : forall v w, proj (set_pending v w) = proj w.
Hypothesis proj_nextHandle : forall v w, proj (set_nextHandle v w) = proj w.
(** The observation strategy also writes to the observers. *)
Hypothesis proj_observer : forall v w, proj (set_observer v w) = proj w.
Hypothesis proj_observers : forall v w, proj (set_observers v w) = proj w.

Ltac inner_leaf :=
  intros ? ?; unfold reads in *; cbv beta;
  repeat first [ rewrite proj_document | rewrite proj_trace | rewrite proj_els
               | rewrite proj_elsLength | rewrite proj_frameCount ];
  assumption.

Ltac loop_leaf :=
  intros ? ?; unfold reads in *; cbv beta;
  repeat first [ rewrite proj_document | rewrite proj_trace | rewrite proj_els
               | rewrite proj_elsLength | rewrite proj_frameCount
               | rewrite proj_frameLoop | rewrite proj_pending
               | rewrite proj_nextHandle ];
  assumption.

Ltac observer_leaf :=
  intros ? ?; unfold reads in *; cbv beta;
  repeat first [ rewrite proj_document | rewrite proj_trace | rewrite proj_els
               | rewrite proj_elsLength | rewrite proj_frameCount
               | rewrite proj_observer | rewrite proj_observers ];
  assumption.

Lemma untouched_update_element f i : preserves (reads proj a) (update_element f i).
Proof. unfold update_element. apply preserves_modify. inner_leaf. Qed.

Lemma untouched_removeDataAttrs i : preserves (reads proj a) (_removeDataAttrs i).
Proof.
  unfold _removeDataAttrs, removeAttribute.
  repeat (simple apply untouched_update_element || preserves_step).
Qed.

Lemma untouched_updateElement i : preserves (reads proj a) (_updateElement i).
Proof.
  unfold _updateElement, getAttribute, dataset_set, setAttribute,
    removeEventListener_load, host_picturefill, assign_src.
  repeat (simple apply untouched_update_element
          || simple apply untouched_removeDataAttrs
          || preserves_step
          || inner_leaf).
Qed.

Lemma untouched_loaded i : preserves (reads proj a) (_loaded i).
Proof.
  unfold _loaded, removeEventListener_load.
  repeat (simple apply untouched_update_element
          || simple apply untouched_removeDataAttrs
          || preserves_step).
Qed.

Lemma untouched_elementInViewport i :
  preserves (reads proj a) (_elementInViewport i).
Proof.
  unfold _elementInViewport. repeat (preserves_step || inner_leaf).
Qed.

Lemma untouched_scan_one i : preserves (reads proj a) (scan_one i).
Proof.
  unfold scan_one, addEventListener_load.
  repeat (simple apply untouched_elementInViewport
          || simple apply untouched_update_element
          || simple apply untouched_updateElement
          || preserves_step
          || inner_leaf).
Qed.

Lemma untouched_splice_one i : preserves (reads proj a) (splice_one i).
Proof. unfold splice_one. repeat (preserves_step || inner_leaf). Qed.

Lemma untouched_old_scan : preserves (reads proj a) old_scan.
Proof.
  unfold old_scan, set_elsLength_to_length.
  repeat (simple apply untouched_scan_one
          || simple apply untouched_splice_one
          || preserves_step
          || inner_leaf).
Qed.

Lemma untouched_case_really_old : preserves (reads proj a) case_really_old.
Proof.
  unfold case_really_old, set_elsLength_to_length.
  repeat (simple apply untouched_updateElement
          || simple apply untouched_removeDataAttrs
          || preserves_step
          || inner_leaf).
Qed.

Lemma untouched_case_old : preserves (reads proj a) case_old.
Proof.
  unfold case_old, old_reschedule, host_requestAnimationFrame.
  repeat (simple apply untouched_old_scan
          || preserves_step
          || loop_leaf).
Qed.

Lemma untouched_cancelAnimationFrame b h :
  preserves (reads proj a) (host_cancelAnimationFrame b h).
Proof.
  unfold host_cancelAnimationFrame. repeat (preserves_step || loop_leaf).
Qed.

Lemma untouched_with_observer f :
  (forall o, preserves (reads proj a) (f o)) ->
  preserves (reads proj a) (with_observer f).
Proof.
  intros Hf. unfold with_observer. repeat (simple apply Hf || preserves_step).
Qed.

Lemma untouched_observer_disconnect : preserves (reads proj a) observer_disconnect.
Proof.
  apply untouched_with_observer. intros o.
  repeat (preserves_step || observer_leaf).
Qed.

Lemma untouched_observer_observe i : preserves (reads proj a) (observer_observe i).
Proof.
  apply untouched_with_observer. intros o.
  repeat (preserves_step || observer_leaf).
Qed.

Lemma untouched_observer_unobserve i :
  preserves (reads proj a) (observer_unobserve i).
Proof.
  apply untouched_with_observer. intros o.
  repeat (preserves_step || observer_leaf).
Qed.

Lemma untouched_intersection entries :
  preserves (reads proj a) (_intersection entries).
Proof.
  unfold _intersection, addEventListener_load.
  repeat (simple apply untouched_observer_disconnect
          || simple apply untouched_observer_unobserve
          || simple apply untouched_update_element
          || simple apply untouched_updateElement
          || preserves_step
          || inner_leaf).
Qed.

Lemma untouched_case_new : preserves (reads proj a) case_new.
Proof.
  unfold case_new, set_elsLength_to_length, host_newObserver.
  repeat (simple apply untouched_observer_observe
          || preserves_step
          || observer_leaf).
Qed.

Lemma untouched_setSrcs : preserves (reads proj a) _setSrcs.
Proof.
  unfold _setSrcs.
  repeat (simple apply untouched_case_really_old
          || simple apply untouched_case_old
          || simple apply untouched_case_new
          || preserves_step).
Qed.

Lemma untouched_init : preserves (reads proj a) _init.
Proof.
  unfold _init, set_elsLength_to_length.
  repeat (simple apply untouched_setSrcs
          || simple apply untouched_cancelAnimationFrame
          || simple apply untouched_observer_disconnect
          || preserves_step
          || inner_leaf).
Qed.
End Untouched.

(** The viewport scan and the clean-up assign neither the frames nor
    the observers. *)
Lemma old_scan_loop_state (w : World) :
  loop_state (exec old_scan w) = loop_state w.
Proof.
  apply (untouched_old_scan loop_state (loop_state w)); try (intros v []; reflexivity).
  reflexivity.
Qed.

Lemma init_docListeners (w : World) :
  docListeners (exec _init w) = docListeners w.
Proof.
  apply (untouched_init docListeners (docListeners w));
    try (intros v []; reflexivity).
  reflexivity.
Qed.

(** *** The call of [lazyLoad], step by step *)

Lemma lazyLoad_eq (ov : Overrides) (wn : Window) (doc : list Element) :
  lazyLoad ov wn doc =
  match _init (started ov wn doc) with
  | (w2, Ok _) =>
      if name_truthy (pageUpdatedEventName (options w2))
      then match name_string (pageUpdatedEventName (options w2)) with
           | Some name => document_addEventListener name w2
           | None =>
               (w2, Throw (TypeError "Cannot convert the event type to a string"))
           end
      else (w2, Ok tt)
  | (w2, Throw e) => (w2, Throw e)
  end.
Proof.
  unfold lazyLoad, _lazyLoad. rewrite !bind_modify.
  change (set_checkType _ _) with (started ov wn doc).
  unfold mbind at 1, M_bind at 1.
  destruct (_init (started ov wn doc)) as [w2 [[]|e]]; [|reflexivity].
  rewrite bind_get. unfold when. destruct (name_truthy _); [|reflexivity].
  destruct (name_string _); reflexivity.
Qed.

Lemma started_fields (ov : Overrides) (wn : Window) (doc : list Element) :
  config (started ov wn doc)
  = (Some (detect wn), merge_options default_options ov, wn)
  /\ docListeners (started ov wn doc) = []
  /\ pending (started ov wn doc) = []
  /\ document (started ov wn doc) = doc.
Proof. repeat split; reflexivity. Qed.

Lemma document_addEventListener_eq (name : string) (w : World) :
  document_addEventListener name w
  = (set_trace (trace w ++ [EvListen name])
       (if bool_decide (name ∈ docListeners w) then w
        else set_docListeners (docListeners w ++ [name]) w), Ok tt).
Proof.
  unfold document_addEventListener, emit. rewrite bind_modify.
  unfold modify. case_bool_decide; destruct w; reflexivity.
Qed.

(** In a browser with event listeners, [lazyLoad] returns normally
    exactly when its first pass did and the configured event name, if
    truthy, converts to a string; it then has registered [_init] for the
    string conversion of the name when the name is truthy (the number 42
    registers under "42") and nothing when it is falsy.  An exception in
    the first pass, or a truthy name without a string conversion, leaves
    the page without a re-scan trigger. *)
Theorem lazyLoad_listener (ov : Overrides) (wn : Window) (doc : list Element) :
  hasAddEventListener wn = true ->
  let name := pageUpdatedEventName (merge_options default_options ov) in
  (snd (lazyLoad ov wn doc) = Ok tt
   <-> snd (_init (started ov wn doc)) = Ok tt
       /\ (name_truthy name = true -> is_Some (name_string name)))
  /\ docListeners (fst (lazyLoad ov wn doc))
     = match snd (lazyLoad ov wn doc) with
       | Ok _ => if name_truthy name then option_list (name_string name) else []
       | Throw _ => []
       end.
Proof.
  intros _ name. rewrite lazyLoad_eq.
  destruct (started_fields ov wn doc) as (Hc & Hl & _).
  pose proof (init_docListeners (started ov wn doc)) as Hdl.
  pose proof (exec_config _init (started ov wn doc) _ (config_init _) Hc) as Hcf.
  unfold exec in Hdl, Hcf. rewrite Hl in Hdl.
  destruct (_init (started ov wn doc)) as [w2 [[]|e]]; simpl in Hdl, Hcf.
  - assert (Hop : options w2 = merge_options default_options ov)
      by (unfold config in Hcf; congruence).
    rewrite Hop. fold name. destruct (name_truthy name).
    + destruct (name_string name) as [s|].
      * rewrite document_addEventListener_eq. cbn [fst snd].
        rewrite Hdl, bool_decide_eq_false_2 by (apply not_elem_of_nil).
        split; [|destruct w2; reflexivity].
        split; [intros _; split; [reflexivity | intros _; eexists; reflexivity]
               | reflexivity].
      * cbn [fst snd]. split; [|exact Hdl].
        split; [discriminate|].
        intros [_ H]. destruct (H eq_refl) as [s Hs]. discriminate Hs.
    + cbn [fst snd]. split; [|exact Hdl].
      split; [intros _; split; [reflexivity | discriminate] | reflexivity].
  - cbn [fst snd]. split; [|exact Hdl].
    split; [discriminate | intros [H _]; discriminate H].
Qed.

Lemma lazyLoad_listener_witness :
  let ov := mkOverrides (Some (NameValue true (Some "42"))) None None None None in
  let name := pageUpdatedEventName (merge_options default_options ov) in
  (snd (lazyLoad ov polling_browser small_page) = Ok tt
   <-> snd (_init (started ov polling_browser small_page)) = Ok tt
       /\ (name_truthy name = true -> is_Some (name_string name)))
  /\ docListeners (fst (lazyLoad ov polling_browser small_page))
     = match snd (lazyLoad ov polling_browser small_page) with
       | Ok _ => if name_truthy name then option_list (name_string name) else []
       | Throw _ => []
       end.
Proof.
  apply (lazyLoad_listener
           (mkOverrides (Some (NameValue true (Some "42"))) None None None None)
           polling_browser small_page).
  reflexivity.
Defined.

(** A numeric event name registers the re-scan under its decimal form. *)
Example numeric_event_name :
  docListeners
    (fst (lazyLoad
            (mkOverrides (Some (NameValue true (Some "42"))) None None None None)
            polling_browser small_page)) = ["42"].
Proof. vm_compute. reflexivity. Qed.

(** *** The polling strategy: one loop at a time *)

Lemma one_loop_state (w w' : World) :
  loop_state w' = loop_state w -> one_loop w -> one_loop w'.
Proof.
  unfold loop_state, one_loop. intros H Hw.
  injection H as Hf Hp _. rewrite Hf, Hp. exact Hw.
Qed.

Lemma setSrcs_old_one_loop (w : World) :
  checkType w = Some Old -> pending w = [] -> one_loop (exec _setSrcs w).
Proof.
  intros Hct Hp. unfold exec. rewrite (setSrcs_old w Hct).
  set (b := bool_decide _).
  assert (Hs : loop_state (exec (when b old_scan) w) = loop_state w).
  { apply (preserves_when (reads loop_state (loop_state w)));
      [|reflexivity].
    apply untouched_old_scan; intros v []; reflexivity. }
  unfold mbind, M_bind. unfold exec in Hs.
  destruct (when b old_scan w) as [w1 [[]|e]]; simpl in Hs.
  - rewrite old_reschedule_cases.
    assert (Hp1 : pending w1 = []) by (unfold loop_state in Hs; congruence).
    destruct (js_positive (elsLength w1)); [|left; exact Hp1].
    destruct (callable (requestAnimationFrame (win w1))); cbn [fst].
    + right. exists (nextHandle w1). unfold rescheduled.
      destruct w1; simpl in *. subst. split; reflexivity.
    + left. destruct w1; exact Hp1.
  - left. unfold loop_state in Hs. cbn [fst]. congruence.
Qed.

Lemma init_old_cancels (w : World) :
  checkType w = Some Old ->
  hasCancelAnimationFrame (win w) = true ->
  _init w = _setSrcs (collected (cancelled w)).
Proof.
  intros Hct Hc. unfold _init. rewrite bind_get, Hct, Hc.
  assert (Htc : try_catch (host_cancelAnimationFrame true (frameLoop w)) w
                = (cancelled w, Ok tt)).
  { unfold try_catch, host_cancelAnimationFrame, emit. rewrite bind_modify.
    unfold modify, cancelled. destruct w; reflexivity. }
  rewrite (bind_eq _ _ _ _ _ Htc).
  unfold set_elsLength_to_length. rewrite !bind_modify.
  rewrite htmlCollectionToArray_spec. f_equal.
  unfold collected. destruct (cancelled w); simpl.
  rewrite length_fmap. reflexivity.
Qed.

Lemma init_old_one_loop (w : World) :
  checkType w = Some Old ->
  hasCancelAnimationFrame (win w) = true ->
  one_loop w -> one_loop (exec _init w).
Proof.
  intros Hct Hc Hw. unfold exec. rewrite (init_old_cancels w Hct Hc).
  apply setSrcs_old_one_loop.
  - unfold collected, cancelled. destruct w; exact Hct.
  - assert (Hf : filter (fun x => Some x ≠ frameLoop w) (pending w) = []).
    { destruct Hw as [-> | (h & -> & ->)]; [reflexivity|].
      rewrite filter_cons, decide_False by (intros H; apply H; reflexivity).
      reflexivity. }
    unfold collected, cancelled. destruct w; simpl in *. exact Hf.
Qed.

Lemma dispatch_one_loop (ev : HostEvent) (w : World) :
  checkType w = Some Old ->
  hasCancelAnimationFrame (win w) = true ->
  one_loop w -> one_loop (exec (dispatch ev) w).
Proof.
  intros Hct Hc Hw. destruct ev as [h | i | name | entries].
  - unfold exec. rewrite dispatch_frame_eq. case_bool_decide as Hin; [|exact Hw].
    apply setSrcs_old_one_loop; [destruct w; exact Hct|].
    assert (Hf : filter (fun x => x ≠ h) (pending w) = []).
    { destruct Hw as [Hp | (h' & Hp & _)]; rewrite Hp in *.
      - reflexivity.
      - apply list_elem_of_singleton in Hin. subst h'.
        rewrite filter_cons, decide_False by (intros H; apply H; reflexivity).
        reflexivity. }
    destruct w; simpl in *. exact Hf.
  - apply (one_loop_state w); [|exact Hw].
    unfold dispatch. rewrite exec_bind. cbn [get].
    apply (preserves_when (reads loop_state (loop_state w))); [|reflexivity].
    apply untouched_loaded; intros v []; reflexivity.
  - unfold dispatch. rewrite exec_bind. cbn [get]. unfold when.
    case_bool_decide; [|exact Hw]. apply init_old_one_loop; assumption.
  - apply (one_loop_state w); [|exact Hw].
    unfold dispatch. rewrite exec_bind. cbn [get].
    apply (untouched_intersection loop_state (loop_state w));
      try (intros v []; reflexivity).
    reflexivity.
Qed.

Lemma run_one_loop (evs : list HostEvent) : forall w : World,
  checkType w = Some Old ->
  hasCancelAnimationFrame (win w) = true ->
  one_loop w -> one_loop (run_events evs w).
Proof.
  induction evs as [|ev evs IH]; intros w Hct Hc Hw; [exact Hw|].
  rewrite run_events_cons.
  pose proof (dispatch_config ev w) as Hcf. unfold config in Hcf.
  apply IH; [congruence | congruence | apply dispatch_one_loop; assumption].
Qed.

(** Where the probe selects 'old' and [cancelAnimationFrame] exists, the
    library never has two polling loops alive: whatever frame callbacks,
    load events, re-scan events and stray callbacks follow the call of
    [lazyLoad()], at most one animation frame is pending, and it is the
    one whose handle is in [frameLoop]. *)
Theorem single_polling_loop
  (ov : Overrides) (wn : Window) (doc : list Element) (evs : list HostEvent) :
  detect wn = Old ->
  hasCancelAnimationFrame wn = true ->
  one_loop (run_events evs (fst (lazyLoad ov wn doc))).
Proof.
  intros Hd Hc.
  destruct (started_fields ov wn doc) as (Hcf & _ & Hp & _).
  assert (H1 : one_loop (exec _init (started ov wn doc))).
  { apply init_old_one_loop.
    - unfold config in Hcf. congruence.
    - unfold config in Hcf. congruence.
    - left. exact Hp. }
  pose proof (exec_config _init (started ov wn doc) _ (config_init _) Hcf) as Hc1.
  assert (H2 : one_loop (fst (lazyLoad ov wn doc))
               /\ config (fst (lazyLoad ov wn doc))
                  = (Some (detect wn), merge_options default_options ov, wn)).
  { rewrite lazyLoad_eq. unfold exec in H1, Hc1.
    destruct (_init (started ov wn doc)) as [w2 [[]|e]]; cbn [fst] in *.
    - destruct (name_truthy _); [|split; assumption].
      destruct (name_string _) as [name|]; [|split; assumption].
      rewrite document_addEventListener_eq. cbn [fst]. split.
      + apply (one_loop_state w2); [|exact H1].
        case_bool_decide; destruct w2; reflexivity.
      + rewrite <- Hc1. case_bool_decide; destruct w2; reflexivity.
    - split; assumption. }
  destruct H2 as [H2 Hc2]. unfold config in Hc2.
  apply run_one_loop; [congruence | congruence | exact H2].
Qed.

Lemma single_polling_loop_witness :
  one_loop (run_events [DocumentEvent "page:updated"; AnimationFrame 2]
              (fst (lazyLoad no_overrides polling_browser small_page))).
Proof.
  apply (single_polling_loop no_overrides polling_browser small_page
           [DocumentEvent "page:updated"; AnimationFrame 2]).
  - reflexivity.
  - reflexivity.
Defined.

(** The second hypothesis is needed: without [cancelAnimationFrame] the
    ReferenceError is swallowed by the [try], the old frame stays
    pending next to the new one, and both callbacks go on to reschedule
    themselves. *)
Example two_loops_without_cancel :
  pending (run_events [DocumentEvent "page:updated"]
             (fst (lazyLoad no_overrides browser_without_cancel small_page)))
  = [1; 2]%nat
  /\ pending (run_events [DocumentEvent "page:updated";
                          AnimationFrame 1; AnimationFrame 2]
                (fst (lazyLoad no_overrides browser_without_cancel small_page)))
     = [3; 4]%nat.
Proof. split; vm_compute; reflexivity. Qed.

(** *** The strategies do not mix *)

Lemma within_emit (c : CheckType) (ev : Event) :
  allowed c ev = true -> preserves (within c) (emit ev).
Proof.
  intros Hev. apply preserves_modify. intros [] (Hct & Htr & Hob).
  repeat split; [exact Hct | | exact Hob].
  simpl in *. apply Forall_app. split; [exact Htr|].
  constructor; [exact Hev | constructor].
Qed.

Section Within.
Variable c : CheckType.

Ltac leaf := intros [] H; exact H.
Ltac event := first [reflexivity | destruct c; reflexivity].

Lemma within_update_element f i : preserves (within c) (update_element f i).
Proof. unfold update_element. apply preserves_modify. leaf. Qed.

Lemma within_removeDataAttrs i : preserves (within c) (_removeDataAttrs i).
Proof.
  unfold _removeDataAttrs, removeAttribute.
  repeat (simple apply within_update_element || preserves_step).
Qed.

Lemma within_updateElement i : preserves (within c) (_updateElement i).
Proof.
  unfold _updateElement, getAttribute, dataset_set, setAttribute,
    removeEventListener_load, host_picturefill, assign_src.
  repeat (simple apply within_update_element
          || simple apply within_removeDataAttrs
          || simple apply within_emit
          || preserves_step
          || event).
Qed.

Lemma within_loaded i : preserves (within c) (_loaded i).
Proof.
  unfold _loaded, removeEventListener_load.
  repeat (simple apply within_update_element
          || simple apply within_removeDataAttrs
          || preserves_step).
Qed.

Lemma within_case_really_old : preserves (within c) case_really_old.
Proof.
  unfold case_really_old, set_elsLength_to_length.
  repeat (simple apply within_updateElement
          || simple apply within_removeDataAttrs
          || preserves_step
          || leaf).
Qed.

(** A method call on [observer] is reached with an observer only under
    'new'; elsewhere it throws before any call is made. *)
Lemma within_with_observer (f : nat -> M unit) :
  (c = New -> forall o, preserves (within c) (f o)) ->
  preserves (within c) (with_observer f).
Proof.
  intros Hf. unfold with_observer. apply preserves_get. intros w Hw.
  destruct (observer w) as [o|] eqn:Ho; [|exact Hw].
  apply Hf; [|exact Hw].
  destruct Hw as (_ & _ & Hob). destruct c; congruence.
Qed.

Lemma within_observer_disconnect : preserves (within c) observer_disconnect.
Proof.
  apply within_with_observer. intros -> o.
  repeat (simple apply within_emit || preserves_step || leaf || reflexivity).
Qed.

Lemma within_observer_observe i : preserves (within c) (observer_observe i).
Proof.
  apply within_with_observer. intros -> o.
  repeat (simple apply within_emit || preserves_step || leaf || reflexivity).
Qed.

Lemma within_observer_unobserve i : preserves (within c) (observer_unobserve i).
Proof.
  apply within_with_observer. intros -> o.
  repeat (simple apply within_emit || preserves_step || leaf || reflexivity).
Qed.

Lemma within_intersection entries : preserves (within c) (_intersection entries).
Proof.
  unfold _intersection, addEventListener_load.
  repeat (simple apply within_observer_disconnect
          || simple apply within_observer_unobserve
          || simple apply within_update_element
          || simple apply within_updateElement
          || preserves_step
          || leaf).
Qed.
End Within.

Lemma within_case_old : preserves (within Old) case_old.
Proof.
  unfold case_old, old_scan, old_reschedule, host_requestAnimationFrame,
    scan_one, splice_one, _elementInViewport, addEventListener_load,
    set_elsLength_to_length.
  repeat (simple apply within_update_element
          || simple apply within_updateElement
          || simple apply within_emit
          || preserves_step
          || (intros [] H; exact H)
          || reflexivity).
Qed.

Lemma within_case_new : preserves (within New) case_new.
Proof.
  unfold case_new, host_newObserver, set_elsLength_to_length.
  repeat (simple apply within_observer_observe
          || simple apply within_emit
          || preserves_step
          || (intros [] H; exact H)
          || reflexivity).
Qed.

Lemma within_setSrcs (c : CheckType) : preserves (within c) _setSrcs.
Proof.
  unfold _setSrcs. apply preserves_get. intros w Hw.
  destruct Hw as (Hct & Hw). rewrite Hct.
  assert (Hw' : within c w) by (split; assumption).
  destruct c.
  - apply within_case_really_old, Hw'.
  - apply within_case_old, Hw'.
  - apply within_case_new, Hw'.
Qed.

Lemma within_init (c : CheckType) : preserves (within c) _init.
Proof.
  unfold _init. apply preserves_get. intros w Hw.
  destruct Hw as (Hct & Hw). rewrite Hct.
  assert (Hw' : within c w) by (split; assumption).
  match goal with
  | |- within c (exec ?m w) =>
      cut (preserves (within c) m); [intros Hp; exact (Hp w Hw')|]
  end.
  clear Hct Hw Hw'.
  unfold set_elsLength_to_length, host_cancelAnimationFrame.
  destruct c; cbv iota;
    repeat (simple apply within_setSrcs
            || simple apply within_observer_disconnect
            || simple apply within_emit
            || preserves_step
            || (intros [] H; exact H)
            || reflexivity).
Qed.

Lemma within_dispatch (c : CheckType) (ev : HostEvent) :
  preserves (within c) (dispatch ev).
Proof.
  unfold dispatch.
  repeat (simple apply within_setSrcs
          || simple apply within_init
          || simple apply within_loaded
          || simple apply within_intersection
          || preserves_step
          || (intros [] H; exact H)).
Qed.

(** Each strategy keeps to its own host interface, whatever callbacks
    follow the call of [lazyLoad()]: under 'new' the library never
    measures an element and never requests or cancels an animation
    frame; under 'old' and 'really-old' it never creates or uses an
    observer; under 'really-old' it does not measure or schedule
    either. *)
Theorem strategies_do_not_mix
  (ov : Overrides) (wn : Window) (doc : list Element) (evs : list HostEvent) :
  Forall (fun ev => allowed (detect wn) ev = true)
    (trace (run_events evs (fst (lazyLoad ov wn doc)))).
Proof.
  assert (H0 : within (detect wn) (started ov wn doc)).
  { repeat split; [constructor|]. destruct (detect wn); reflexivity. }
  pose proof (within_init (detect wn) _ H0) as H1.
  assert (H2 : within (detect wn) (fst (lazyLoad ov wn doc))).
  { rewrite lazyLoad_eq. unfold exec in H1.
    destruct (_init (started ov wn doc)) as [w2 [[]|e]]; cbn [fst] in *;
      [|exact H1].
    destruct (name_truthy _); [|exact H1].
    destruct (name_string _) as [name|]; [|exact H1].
    revert H1. apply (preserves_bind (within (detect wn))).
    - apply preserves_modify. intros [] H. simpl.
      case_bool_decide; exact H.
    - intros _. apply within_emit. reflexivity. }
  clear H0 H1. revert H2. generalize (fst (lazyLoad ov wn doc)).
  induction evs as [|ev evs IH]; intros w Hw.
  - apply Hw.
  - rewrite run_events_cons. apply IH, within_dispatch, Hw.
Qed.

(** *** The polling strategy: what one scan does *)

Lemma for_each_seq_inv (J : nat -> World -> Prop) (body : nat -> M unit)
  (n : nat) : forall (i : nat) (w : World),
  J i w ->
  (forall k w', (i <= k < i + n)%nat -> J k w' ->
     exists w'', body k w' = (w'', Ok tt) /\ J (S k) w'') ->
  exists w', for_each (seq i n) body w = (w', Ok tt) /\ J (i + n)%nat w'.
Proof.
  induction n as [|n IH]; intros i w Hw Hbody.
  - exists w. rewrite Nat.add_0_r. split; [reflexivity | exact Hw].
  - destruct (Hbody i w ltac:(lia) Hw) as (w1 & Hrun & H1).
    destruct (IH (S i) w1 H1) as (w' & Hrest & H').
    { intros k w' Hk. apply Hbody. lia. }
    exists w'. split.
    + cbn [seq for_each]. rewrite (bind_eq _ _ _ _ _ Hrun). exact Hrest.
    + replace (i + S n)%nat with (S i + n)%nat by lia. exact H'.
Qed.

Lemma scan_hit_run (i e : nat) (w : World) :
  picturefill_ok (win w) = true ->
  (modify (fun w => set_els (<[i := None]> (els w)) w) ;;
   update_element (set_lazyloaded true) e ;;
   addEventListener_load e ;;
   _updateElement e) w = (scan_hit i e w, Ok tt).
Proof.
  intros Hpf. unfold addEventListener_load, update_element.
  rewrite !bind_modify, updateElement_eq by (destruct w; exact Hpf).
  unfold scan_hit. destruct w; reflexivity.
Qed.

Lemma scan_hit_fields (i e : nat) (w : World) :
  win (scan_hit i e w) = win w
  /\ loop_state (scan_hit i e w) = loop_state w
  /\ els (scan_hit i e w) = <[i := None]> (els w)
  /\ document (scan_hit i e w) = alter polled_activation e (document w)
  /\ updates (scan_hit i e w) = updates w ++ [EvUpdate e].
Proof.
  unfold scan_hit, updates. destruct w; simpl.
  rewrite !list_alter_alter_eq, keep_app, updates_events.
  repeat split; reflexivity.
Qed.

Lemma live_app (l1 l2 : list (option nat)) :
  live (l1 ++ l2) = live l1 ++ live l2.
Proof. apply omap_app. Qed.

Lemma polled_activation_shape (x : Element) :
  shape (polled_activation x) = shape x.
Proof.
  unfold shape, polled_activation.
  pose proof (updateElement_elem_footprint
                (set_loadListener true (set_lazyloaded true x))) as H.
  unfold same_outside_footprint in H. destruct H as (Ht & Hp & Hr & _).
  rewrite Ht, Hp, Hr. destruct x; reflexivity.
Qed.

Lemma activate_all_snoc (l : list nat) (e : nat) (doc : list Element) :
  activate_all (l ++ [e]) doc = alter polled_activation e (activate_all l doc).
Proof. unfold activate_all. rewrite foldl_app. reflexivity. Qed.

Lemma activate_all_other (l : list nat) (e : nat) : forall doc : list Element,
  e ∉ l -> activate_all l doc !! e = doc !! e.
Proof.
  induction l as [|a l IH]; intros doc He; [reflexivity|].
  apply not_elem_of_cons in He as [Hne Hl].
  unfold activate_all in *. cbn [foldl]. rewrite IH by exact Hl.
  apply list_lookup_alter_ne. congruence.
Qed.

Lemma activate_all_hit (l : list nat) (e : nat) : forall doc : list Element,
  NoDup l -> e ∈ l ->
  activate_all l doc !! e = polled_activation <$> doc !! e.
Proof.
  induction l as [|a l IH]; intros doc Hnd He; [inversion He|].
  apply NoDup_cons in Hnd as [Ha Hnd].
  unfold activate_all in *. cbn [foldl].
  apply elem_of_cons in He as [-> | He].
  - fold (activate_all l (alter polled_activation a doc)).
    rewrite activate_all_other by exact Ha.
    apply list_lookup_alter_eq.
  - rewrite IH by assumption.
    rewrite list_lookup_alter_ne; [reflexivity|].
    intros ->. contradiction.
Qed.

Lemma activate_all_shape (l : list nat) (n : nat) : forall doc : list Element,
  shape <$> activate_all l doc !! n = shape <$> doc !! n.
Proof.
  induction l as [|a l IH]; intros doc; [reflexivity|].
  unfold activate_all in *. cbn [foldl]. rewrite IH.
  destruct (decide (a = n)) as [->|Hne].
  - rewrite list_lookup_alter_eq. destruct (doc !! n) as [x|]; [|reflexivity].
    simpl. rewrite polled_activation_shape. reflexivity.
  - rewrite list_lookup_alter_ne by exact Hne. reflexivity.
Qed.

(** The viewport test reads the window and the shapes of the nodes. *)
Lemma viewport_test_shape (w w' : World) (e : nat) :
  win w' = win w ->
  (forall n, shape <$> document w' !! n = shape <$> document w !! n) ->
  viewport_test w' e = viewport_test w e.
Proof.
  intros Hwin Hsh. unfold viewport_test, element_at. rewrite Hwin.
  pose proof (Hsh e) as He.
  destruct (document w' !! e) as [x'|], (document w !! e) as [x|];
    try discriminate He; [|reflexivity].
  simpl in He. injection He as Ht Hp Hr. rewrite Ht, Hp.
  destruct (if String.eqb (tagName x) "SOURCE" then parentNode x else Some e)
    as [t|]; [|reflexivity].
  destruct (callable (getBoundingClientRect (win w))); [|reflexivity].
  pose proof (Hsh t) as Hst.
  destruct (document w' !! t) as [y'|], (document w !! t) as [y|];
    try discriminate Hst; [|reflexivity].
  simpl in Hst. injection Hst as _ _ Hry. rewrite Hry. reflexivity.
Qed.

Lemma viewport_test_quiet (w : World) (e : nat) :
  keep is_any_update (viewport_test w e).1 = [].
Proof.
  unfold viewport_test.
  destruct (element_at w e) as [x|]; [|reflexivity].
  destruct (if String.eqb (tagName x) "SOURCE" then parentNode x else Some e)
    as [t|]; [|reflexivity].
  destruct (callable (getBoundingClientRect (win w))); [|reflexivity].
  destruct (element_at w t); reflexivity.
Qed.

Lemma scanned_start (w w0 : World) :
  win w0 = win w -> loop_state w0 = loop_state w -> els w0 = els w ->
  document w0 = document w -> updates w0 = updates w ->
  scanned w 0 w0.
Proof.
  intros Hw Hl He Hd Hu. unfold scanned. cbn [take drop fmap list_fmap].
  rewrite Hu, app_nil_r. repeat split; assumption.
Qed.

Lemma scanned_shape (w : World) (k : nat) (w' : World) (e : nat) :
  scanned w k w' -> viewport_test w' e = viewport_test w e.
Proof.
  intros (Hwin & _ & _ & Hdoc & _). apply viewport_test_shape; [exact Hwin|].
  intros n. rewrite Hdoc. apply activate_all_shape.
Qed.

(** One turn of the first loop, from a world the loop can have reached. *)
Lemma scan_one_step (w : World) (k : nat) (w' : World) :
  picturefill_ok (win w) = true ->
  NoDup (live (els w)) ->
  (forall e, e ∈ live (els w) ->
     (lazyloaded <$> element_at w e) ≠ Some true -> measurable w e) ->
  (k < length (els w))%nat ->
  scanned w k w' ->
  exists w'', scan_one k w' = (w'', Ok tt) /\ scanned w (S k) w''.
Proof.
  intros Hpf Hnd Hmeas Hk Hinv.
  pose proof (scanned_shape w k w') as Hvt.
  destruct Hinv as (Hwin & Hloop & Hels & Hdoc & Hupd).
  destruct (lookup_lt_is_Some_2 (els w) k Hk) as [oe Hoe].
  pose proof (take_S_r (els w) k oe Hoe) as Htake.
  pose proof (drop_S (els w) oe k Hoe) as Hdrop.
  assert (Hlen : length (blank w <$> take k (els w)) = k).
  { rewrite length_fmap, length_take. lia. }
  assert (Hget : array_get (els w') k = oe).
  { unfold array_get. rewrite Hels, Hdrop, list_lookup_middle by (symmetry; exact Hlen).
    reflexivity. }
  unfold scan_one. rewrite bind_get, Hget. unfold scanned.
  rewrite Htake, fmap_app, live_app, filter_app.
  destruct oe as [e|].
  2: { exists w'. split; [reflexivity|].
       change (live [None]) with (@nil nat).
       cbn [fmap list_fmap blank]. rewrite filter_nil, app_nil_r.
       rewrite <- (assoc_L (++)). cbn [app]. rewrite <- Hdrop.
       repeat split; assumption. }
  assert (Hsplit : live (els w) = live (take k (els w)) ++ e :: live (drop (S k) (els w))).
  { rewrite <- (take_drop k (els w)) at 1. rewrite live_app, Hdrop. reflexivity. }
  assert (Hin : e ∈ live (els w)).
  { rewrite Hsplit. apply elem_of_app. right. left. }
  assert (Hfresh : e ∉ live (take k (els w))).
  { rewrite Hsplit in Hnd. apply NoDup_app in Hnd as (_ & Hno & _).
    intros He. apply (Hno e He). left. }
  assert (Hlook : element_at w' e = element_at w e).
  { unfold element_at. rewrite Hdoc. apply activate_all_other.
    intros He. apply list_elem_of_filter in He as [_ He]. contradiction. }
  rewrite Hlook.
  change (live [Some e]) with [e].
  case_bool_decide as Hflag.
  - exists w'. split; [reflexivity|].
    assert (Hdue : due w e = false).
    { unfold due. rewrite bool_decide_eq_true_2 by exact Hflag. reflexivity. }
    rewrite filter_cons, decide_False, filter_nil, app_nil_r
      by (rewrite Hdue; discriminate).
    cbn [fmap list_fmap blank]. rewrite Hdue.
    rewrite <- (assoc_L (++)). cbn [app]. rewrite <- Hdrop.
    repeat split; assumption.
  - destruct (Hmeas e Hin Hflag) as [b Hb].
    unfold mbind, M_bind.
    rewrite elementInViewport_eq, (Hvt e) by (repeat split; assumption).
    set (w1 := set_trace (trace w' ++ (viewport_test w e).1) w').
    assert (H1 : win w1 = win w' /\ loop_state w1 = loop_state w'
                 /\ els w1 = els w' /\ document w1 = document w'
                 /\ updates w1 = updates w').
    { unfold w1, updates. destruct w'; simpl.
      rewrite keep_app, viewport_test_quiet, app_nil_r.
      repeat split; reflexivity. }
    destruct H1 as (Hwin1 & Hloop1 & Hels1 & Hdoc1 & Hupd1).
    rewrite Hb. cbv beta iota.
    assert (Hdue : due w e = b).
    { unfold due, in_view. rewrite bool_decide_eq_false_2 by exact Hflag.
      rewrite Hb. reflexivity. }
    destruct b; unfold when.
    + pose proof (scan_hit_run k e w1) as Hrun. unfold mbind, M_bind in Hrun.
      rewrite Hrun by (rewrite Hwin1, Hwin; exact Hpf). exists (scan_hit k e w1). split; [reflexivity|].
      destruct (scan_hit_fields k e w1) as (Hw2 & Hl2 & He2 & Hd2 & Hu2).
      rewrite Hw2, Hl2, He2, Hd2, Hu2, Hwin1, Hloop1, Hels1, Hdoc1, Hupd1.
      rewrite filter_cons, decide_True, filter_nil by exact Hdue.
      cbn [fmap list_fmap blank]. rewrite Hdue.
      rewrite activate_all_snoc, fmap_app, Hels, Hdoc, Hupd, Hdrop.
      repeat split; try assumption.
      * rewrite insert_app_r_alt by (rewrite Hlen; lia).
        rewrite Hlen, Nat.sub_diag, <- (assoc_L (++)). reflexivity.
      * rewrite <- (assoc_L (++)). reflexivity.
    + exists w1. split; [reflexivity|].
      rewrite Hwin1, Hloop1, Hels1, Hdoc1, Hupd1.
      rewrite filter_cons, decide_False, filter_nil, app_nil_r
        by (rewrite Hdue; discriminate).
      cbn [fmap list_fmap blank]. rewrite Hdue.
      rewrite <- (assoc_L (++)). cbn [app]. rewrite <- Hdrop.
      repeat split; assumption.
Qed.

Lemma scan_loop (w w0 : World) :
  picturefill_ok (win w) = true ->
  NoDup (live (els w)) ->
  (forall e, e ∈ live (els w) ->
     (lazyloaded <$> element_at w e) ≠ Some true -> measurable w e) ->
  scanned w 0 w0 ->
  exists w1,
    for_each (seq 0 (length (els w))) scan_one w0 = (w1, Ok tt)
    /\ scanned w (length (els w)) w1.
Proof.
  intros Hpf Hnd Hmeas H0.
  destruct (for_each_seq_inv (scanned w) scan_one (length (els w)) 0 w0 H0)
    as (w1 & Hrun & H1).
  - intros k w' Hk Hinv.
    apply (scan_one_step w k w' Hpf Hnd Hmeas); [lia | exact Hinv].
  - exists w1. split; assumption.
Qed.

Lemma live_blank (w : World) (l : list (option nat)) :
  live (blank w <$> l) = filter (fun e => due w e = false) (live l).
Proof.
  induction l as [|[e|] l IH]; [reflexivity| |exact IH].
  change (live (Some e :: l)) with (e :: live l).
  rewrite fmap_cons, filter_cons. cbn [blank]. destruct (due w e) eqn:Hd.
  - rewrite decide_False by discriminate. exact IH.
  - rewrite decide_True by reflexivity.
    change (live (Some e :: (blank w <$> l))) with (e :: live (blank w <$> l)).
    f_equal. exact IH.
Qed.

Lemma old_scan_spec (w : World) :
  picturefill_ok (win w) = true ->
  NoDup (live (els w)) ->
  (forall e, e ∈ live (els w) ->
     (lazyloaded <$> element_at w e) ≠ Some true -> measurable w e) ->
  exists w2,
    old_scan w = (w2, Ok tt)
    /\ config w2 = config w
    /\ loop_state w2 = loop_state w
    /\ els w2 = compact (length (els w)) 0 (blank w <$> els w)
    /\ document w2 = activate_all (scan_hits w) (document w)
    /\ updates w2 = updates w ++ (EvUpdate <$> scan_hits w)
    /\ elsLength w2 = Some (Z.of_nat (length (els w2)))
    /\ frameCount w2 = Some (-1).
Proof.
  intros Hpf Hnd Hmeas. unfold old_scan, emit, set_elsLength_to_length.
  rewrite bind_get, !bind_modify.
  match goal with |- exists _, _ ?x = _ /\ _ => set (w0 := x) end.
  assert (H0 : scanned w 0 w0).
  { apply scanned_start; unfold w0, updates; destruct w; try reflexivity.
    simpl. apply updates_app_quiet. reflexivity. }
  assert (Hc0 : config w0 = config w) by (unfold w0; destruct w; reflexivity).
  destruct (scan_loop w w0 Hpf Hnd Hmeas H0) as (w1 & Hrun & H1).
  assert (Hc1 : config w1 = config w).
  { rewrite <- Hc0.
    pose proof (exec_config (for_each (seq 0 (length (els w))) scan_one) w0
                  (config w0)) as H.
    unfold exec in H. rewrite Hrun in H. apply H; [|reflexivity].
    apply preserves_for_each. intros i _. apply config_scan_one. }
  rewrite (bind_eq _ _ _ _ _ Hrun).
  rewrite (bind_eq _ _ _ _ _ (splice_loop_eq (length (els w)) 0 w1)).
  rewrite bind_modify. unfold modify.
  eexists. split; [reflexivity|].
  destruct H1 as (Hwin & Hloop & Hels & Hdoc & Hupd).
  rewrite take_ge in Hels, Hdoc, Hupd by lia.
  rewrite drop_ge, app_nil_r in Hels by lia.
  fold (scan_hits w) in Hdoc, Hupd.
  rewrite <- Hels, <- Hdoc, <- Hupd, <- Hc1, <- Hloop.
  unfold updates. destruct w1; repeat split; reflexivity.
Qed.

(** A scanning pass of [_setSrcs] under 'old', as a function of the
    world it starts in. *)
Lemma setSrcs_old_scan_spec (w : World) :
  checkType w = Some Old ->
  frameCount w = Some (maxFrameCount (options w)) ->
  picturefill_ok (win w) = true ->
  callable (requestAnimationFrame (win w)) = true ->
  NoDup (live (els w)) ->
  (forall e, e ∈ live (els w) ->
     (lazyloaded <$> element_at w e) ≠ Some true -> measurable w e) ->
  exists w',
    _setSrcs w = (w', Ok tt)
    /\ live (els w') = filter (fun e => due w e = false) (live (els w))
    /\ (forall e, e ∈ scan_hits w ->
          element_at w' e = polled_activation <$> element_at w e)
    /\ (forall e, e ∉ scan_hits w -> element_at w' e = element_at w e)
    /\ updates w' = updates w ++ (EvUpdate <$> scan_hits w)
    /\ pending w'
       = pending w ++ (if bool_decide (els w' = []) then [] else [nextHandle w]).
Proof.
  intros Hct Hfc Hpf Hraf Hnd Hmeas.
  destruct (old_scan_spec w Hpf Hnd Hmeas)
    as (w2 & Hrun & Hc2 & Hl2 & He2 & Hd2 & Hu2 & Hn2 & Hf2).
  rewrite (setSrcs_old w Hct), bool_decide_eq_true_2 by exact Hfc.
  unfold when. rewrite (bind_eq _ _ _ _ _ Hrun), old_reschedule_eq
    by (unfold config in Hc2; congruence).
  assert (Hlive : live (els w2) = filter (fun e => due w e = false) (live (els w))).
  { rewrite He2.
    destruct (compact_live (length (els w)) 0 (blank w <$> els w)) as [-> _].
    apply live_blank. }
  assert (Hhit : forall e, e ∈ scan_hits w ->
            document w2 !! e = polled_activation <$> document w !! e).
  { intros e He. rewrite Hd2. apply activate_all_hit; [|exact He].
    apply NoDup_filter, Hnd. }
  assert (Hmiss : forall e, e ∉ scan_hits w -> document w2 !! e = document w !! e).
  { intros e He. rewrite Hd2. apply activate_all_other, He. }
  assert (Hpos : js_positive (elsLength w2) = negb (bool_decide (els w2 = []))).
  { rewrite Hn2. unfold js_positive. destruct (els w2) as [|x l].
    - reflexivity.
    - rewrite bool_decide_eq_false_2 by discriminate.
      apply Z.ltb_lt. cbn [length]. lia. }
  unfold loop_state in Hl2. injection Hl2 as Hfl Hpe Hnh.
  rewrite Hpos. case_bool_decide as Hnil; cbn [negb].
  - exists w2. unfold element_at.
    rewrite (bool_decide_eq_true_2 _ Hnil), Hpe, app_nil_r.
    repeat split; assumption.
  - exists (rescheduled w2). split; [reflexivity|].
    assert (Hr : els (rescheduled w2) = els w2
                 /\ document (rescheduled w2) = document w2
                 /\ updates (rescheduled w2) = updates w2
                 /\ pending (rescheduled w2) = pending w2 ++ [nextHandle w2]).
    { unfold rescheduled, updates. destruct w2; simpl.
      rewrite updates_app_quiet by reflexivity. repeat split; reflexivity. }
    destruct Hr as (-> & Hdr & -> & ->). unfold element_at. rewrite Hdr.
    rewrite bool_decide_eq_false_2 by exact Hnil.
    rewrite Hpe, Hnh. repeat split; assumption.
Qed.

(** A scanning pass of the polling strategy, where
    [window.picturefill] is absent or a function and
    [window.requestAnimationFrame] is a function.  When the working set
    holds no node twice and every node in it that does not carry the
    expando can be measured, the pass returns normally, and:
    it activates exactly the nodes of the working set that do not carry
    the expando and are in the viewport, each one once and in the order
    of the working set (expando set, load listener attached,
    [_updateElement] applied); every other node of the document is left
    as it was; the nodes it did not activate stay in the working set,
    in order; and it requests the next frame unless the working set
    array is empty after the clean-up. *)
Theorem polling_scan (w : World) :
  checkType w = Some Old ->
  frameCount w = Some (maxFrameCount (options w)) ->
  picturefill_ok (win w) = true ->
  callable (requestAnimationFrame (win w)) = true ->
  NoDup (live (els w)) ->
  (forall e, e ∈ live (els w) ->
     (lazyloaded <$> element_at w e) ≠ Some true -> measurable w e) ->
  exists w',
    _setSrcs w = (w', Ok tt)
    /\ live (els w') = filter (fun e => due w e = false) (live (els w))
    /\ (forall e, e ∈ scan_hits w ->
          element_at w' e = polled_activation <$> element_at w e)
    /\ (forall e, e ∉ scan_hits w -> element_at w' e = element_at w e)
    /\ updates w' = updates w ++ (EvUpdate <$> scan_hits w)
    /\ pending w'
       = pending w ++ (if bool_decide (els w' = []) then [] else [nextHandle w]).
Proof. exact (setSrcs_old_scan_spec w). Qed.

Lemma about_to_scan_measurable (e : nat) :
  e ∈ live (els about_to_scan) ->
  (lazyloaded <$> element_at about_to_scan e) ≠ Some true ->
  measurable about_to_scan e.
Proof.
  intros He _. change (live (els about_to_scan)) with [0; 1; 3]%nat in He.
  repeat (apply elem_of_cons in He as [-> | He]);
    [eexists; vm_compute; reflexivity ..|].
  inversion He.
Qed.

Lemma polling_scan_witness :
  exists w',
    _setSrcs about_to_scan = (w', Ok tt)
    /\ live (els w')
       = filter (fun e => due about_to_scan e = false) (live (els about_to_scan))
    /\ (forall e, e ∈ scan_hits about_to_scan ->
          element_at w' e = polled_activation <$> element_at about_to_scan e)
    /\ (forall e, e ∉ scan_hits about_to_scan ->
          element_at w' e = element_at about_to_scan e)
    /\ updates w' = updates about_to_scan ++ (EvUpdate <$> scan_hits about_to_scan)
    /\ pending w'
       = pending about_to_scan
         ++ (if bool_decide (els w' = []) then []
             else [nextHandle about_to_scan]).
Proof.
  apply (polling_scan about_to_scan).
  - reflexivity.
  - reflexivity.
  - reflexivity.
  - reflexivity.
  - apply (bool_decide_unpack (NoDup (live (els about_to_scan)))).
    vm_compute. exact I.
  - exact about_to_scan_measurable.
Defined.

(** A pass of [_setSrcs] under 'old' that throws has requested no
    animation frame and cancelled none: the pending frames, [frameLoop]
    and the next handle are as before the pass.  The exception comes
    from the scan of a scanning pass, or from the call of
    [window.requestAnimationFrame] where that is not a function. *)
Theorem failed_scan_stops_polling (w : World) (err : Err) :
  checkType w = Some Old ->
  snd (_setSrcs w) = Throw err ->
  loop_state (fst (_setSrcs w)) = loop_state w
  /\ (frameCount w = Some (maxFrameCount (options w))
      \/ callable (requestAnimationFrame (win w)) = false).
Proof.
  intros Hct Hthrow. rewrite (setSrcs_old w Hct) in *.
  assert (Hre : forall w1, snd (old_reschedule w1) = Throw err ->
            loop_state (fst (old_reschedule w1)) = loop_state w1
            /\ callable (requestAnimationFrame (win w1)) = false).
  { intros w1. rewrite old_reschedule_cases.
    destruct (js_positive (elsLength w1)); [|discriminate].
    destruct (callable (requestAnimationFrame (win w1))); [discriminate|].
    intros _. split; [destruct w1|]; reflexivity. }
  case_bool_decide as Hfc; unfold when in *.
  - split; [|left; exact Hfc].
    pose proof (untouched_old_scan loop_state (loop_state w)) as Hs.
    specialize (Hs ltac:(intros v []; reflexivity) ltac:(intros v []; reflexivity)
                   ltac:(intros v []; reflexivity) ltac:(intros v []; reflexivity)
                   ltac:(intros v []; reflexivity) w eq_refl).
    unfold exec, reads in Hs. unfold mbind, M_bind in *.
    destruct (old_scan w) as [w1 [[]|e]]; cbn [fst snd] in *.
    + destruct (Hre w1 Hthrow) as [-> _]. exact Hs.
    + exact Hs.
  - rewrite bind_ret in *. destruct (Hre w Hthrow) as [Hl Hc].
    split; [exact Hl | right; exact Hc].
Qed.

Lemma failed_scan_stops_polling_witness :
  loop_state (fst (_setSrcs scan_without_geometry))
  = loop_state scan_without_geometry
  /\ (frameCount scan_without_geometry
      = Some (maxFrameCount (options scan_without_geometry))
      \/ callable (requestAnimationFrame (win scan_without_geometry)) = false).
Proof.
  apply (failed_scan_stops_polling scan_without_geometry
           (TypeError "getBoundingClientRect is not a function")).
  - reflexivity.
  - vm_compute. reflexivity.
Defined.

(** *** The polling strategy: the pass that [_init] makes *)

Lemma init_old_eq (w : World) :
  checkType w = Some Old ->
  _init w = _setSrcs (collected (torn_down_old w)).
Proof.
  intros Hct. unfold _init. rewrite bind_get, Hct.
  assert (Htc : try_catch (host_cancelAnimationFrame
                             (hasCancelAnimationFrame (win w)) (frameLoop w)) w
                = (torn_down_old w, Ok tt)).
  { unfold try_catch, host_cancelAnimationFrame, torn_down_old.
    destruct (hasCancelAnimationFrame (win w)); [|reflexivity].
    unfold emit. rewrite bind_modify.
    unfold modify, cancelled. destruct w; reflexivity. }
  rewrite (bind_eq _ _ _ _ _ Htc).
  unfold set_elsLength_to_length. rewrite !bind_modify.
  rewrite htmlCollectionToArray_spec. f_equal.
  unfold collected. destruct (torn_down_old w); simpl.
  rewrite length_fmap. reflexivity.
Qed.






(** *** The polling strategy: the loop runs while there is work *)

Lemma old_scan_ok_counter (w w2 : World) :
  old_scan w = (w2, Ok tt) ->
  elsLength w2 = Some (Z.of_nat (length (els w2))).
Proof.
  unfold old_scan. rewrite bind_get. intros H.
  do 4 (apply bind_ok_inv in H as ([] & ? & _ & H)).
  apply bind_ok_inv in H as ([] & wa & Ha & H).
  unfold set_elsLength_to_length, modify in Ha, H.
  injection H as <-. injection Ha as <-.
  match goal with |- context [set_elsLength _ ?x] => destruct x end.
  reflexivity.
Qed.

Lemma setSrcs_old_alive (w w' : World) :
  checkType w = Some Old ->
  elsLength w = Some (Z.of_nat (length (els w))) ->
  pending w = [] ->
  _setSrcs w = (w', Ok tt) ->
  polling_alive w'.
Proof.
  intros Hct Hn Hp Hrun.
  pose proof (setSrcs_old_one_loop w Hct Hp) as Hone.
  unfold exec in Hone. rewrite Hrun in Hone. cbn [fst] in Hone.
  rewrite (setSrcs_old w Hct) in Hrun.
  apply bind_ok_inv in Hrun as ([] & w1 & Hscan & Htail).
  assert (H1 : elsLength w1 = Some (Z.of_nat (length (els w1)))
               /\ pending w1 = []).
  { unfold when in Hscan. case_bool_decide.
    - split; [apply (old_scan_ok_counter w w1 Hscan)|].
      pose proof (old_scan_loop_state w) as Hl. unfold exec in Hl.
      rewrite Hscan in Hl. unfold loop_state in Hl. cbn [fst] in Hl. congruence.
    - injection Hscan as <-. split; assumption. }
  destruct H1 as [Hn1 Hp1].
  rewrite old_reschedule_cases in Htail.
  rewrite Hn1 in *. unfold js_positive, polling_alive in *.
  destruct (els w1) as [|x l] eqn:Hels.
  - cbn [length] in *. change (Z.ltb 0 (Z.of_nat 0)) with false in *.
    cbv iota in *. injection Htail as <-. rewrite Hels.
    split; [exact Hn1|]. split; [exact Hone|]. rewrite Hp1. tauto.
  - assert (Hpos : Z.ltb 0 (Z.of_nat (length (x :: l))) = true)
      by (apply Z.ltb_lt; cbn [length]; lia).
    rewrite Hpos in *.
    destruct (callable (requestAnimationFrame (win w1)));
      [|discriminate Htail].
    injection Htail as <-.
    assert (Hr : elsLength (rescheduled w1) = elsLength w1
                 /\ els (rescheduled w1) = els w1
                 /\ pending (rescheduled w1) = [nextHandle w1]).
    { unfold rescheduled. destruct w1; simpl in *. subst. repeat split. }
    destruct Hr as (Hr1 & Hr2 & Hr3).
    split; [rewrite Hr1, Hr2, Hn1, Hels; reflexivity|].
    split; [exact Hone|]. rewrite Hr2, Hr3, Hels. split; discriminate.
Qed.

Lemma dispatch_alive (ev : HostEvent) (w : World) :
  polling_event ev ->
  checkType w = Some Old ->
  hasCancelAnimationFrame (win w) = true ->
  snd (dispatch ev w) = Ok tt ->
  polling_alive w -> polling_alive (exec (dispatch ev) w).
Proof.
  intros Hev Hct Hc Hok (Hn & Hone & Hiff).
  destruct Hev as [h | i | name].
  - unfold exec in *. rewrite dispatch_frame_eq in *.
    case_bool_decide as Hin; [|repeat split; tauto].
    set (w1 := set_pending (filter (fun x => x ≠ h) (pending w)) w) in *.
    assert (H1 : checkType w1 = Some Old
                 /\ elsLength w1 = Some (Z.of_nat (length (els w1)))
                 /\ pending w1 = []).
    { assert (Hf : filter (fun x => x ≠ h) (pending w) = []).
      { destruct Hone as [Hp | (h' & Hp & _)]; rewrite Hp in *.
        - reflexivity.
        - apply list_elem_of_singleton in Hin. subst h'.
          rewrite filter_cons, decide_False by (intros H; apply H; reflexivity).
          reflexivity. }
      unfold w1. destruct w; simpl in *. repeat split; assumption. }
    destruct H1 as (Hct1 & Hn1 & Hp1).
    destruct (_setSrcs w1) as [w' r] eqn:Hrun. cbn [fst snd] in *. subst r.
    apply (setSrcs_old_alive w1 w' Hct1 Hn1 Hp1 Hrun).
  - assert (Hs : (els (exec (dispatch (Load i)) w),
                  elsLength (exec (dispatch (Load i)) w),
                  loop_state (exec (dispatch (Load i)) w))
                 = (els w, elsLength w, loop_state w)).
    { unfold dispatch. rewrite exec_bind. cbn [get].
      apply (preserves_when
               (reads (fun w => (els w, elsLength w, loop_state w))
                      (els w, elsLength w, loop_state w))); [|reflexivity].
      apply untouched_loaded; intros v []; reflexivity. }
    injection Hs as He Hl Hf Hp _. unfold polling_alive, one_loop.
    rewrite He, Hl, Hf, Hp. repeat split; tauto.
  - unfold dispatch, exec in *. rewrite bind_get in *. unfold when in *.
    case_bool_decide; [|repeat split; tauto].
    rewrite (init_old_eq w Hct) in *.
    set (w1 := collected (torn_down_old w)) in *.
    assert (H1 : checkType w1 = Some Old
                 /\ elsLength w1 = Some (Z.of_nat (length (els w1)))
                 /\ pending w1 = []).
    { assert (Hf : filter (fun x => Some x ≠ frameLoop w) (pending w) = []).
      { destruct Hone as [-> | (h & -> & ->)]; [reflexivity|].
        rewrite filter_cons, decide_False by (intros H0; apply H0; reflexivity).
        reflexivity. }
      unfold w1, collected, torn_down_old, cancelled. rewrite Hc.
      destruct w; simpl in *. rewrite length_fmap.
      repeat split; assumption. }
    destruct H1 as (Hct1 & Hn1 & Hp1).
    destruct (_setSrcs w1) as [w' r] eqn:Hrun. cbn [fst snd] in *. subst r.
    apply (setSrcs_old_alive w1 w' Hct1 Hn1 Hp1 Hrun).
Qed.

Lemma run_alive (evs : list HostEvent) : forall w : World,
  Forall polling_event evs ->
  checkType w = Some Old ->
  hasCancelAnimationFrame (win w) = true ->
  calm evs w ->
  polling_alive w -> polling_alive (run_events evs w).
Proof.
  induction evs as [|ev evs IH]; intros w Hevs Hct Hc Hcalm Hw; [exact Hw|].
  rewrite run_events_cons. destruct Hcalm as [Hok Hcalm].
  apply Forall_cons in Hevs as [Hev Hevs].
  pose proof (dispatch_config ev w) as Hcf. unfold config in Hcf.
  apply IH; [exact Hevs | congruence | congruence | exact Hcalm|].
  apply dispatch_alive; assumption.
Qed.

(** Where the probe selects 'old' and [cancelAnimationFrame] exists, the
    polling loop runs exactly while there is work: as long as neither
    [lazyLoad()] nor a later callback (animation frame, load event,
    re-scan event) has thrown, [elsLength] is the length of the working
    set array between callbacks, and an animation frame is pending if
    and only if that array is not empty — the loop neither stalls with
    slots left to scan nor keeps running once the array is empty. *)
Theorem polling_runs_while_work
  (ov : Overrides) (wn : Window) (doc : list Element) (evs : list HostEvent) :
  detect wn = Old ->
  hasCancelAnimationFrame wn = true ->
  Forall polling_event evs ->
  snd (lazyLoad ov wn doc) = Ok tt ->
  calm evs (fst (lazyLoad ov wn doc)) ->
  let w := run_events evs (fst (lazyLoad ov wn doc)) in
  elsLength w = Some (Z.of_nat (length (els w)))
  /\ (pending w = [] <-> els w = []).
Proof.
  intros Hd Hc Hevs Hok Hcalm w.
  assert (Hct0 : checkType (started ov wn doc) = Some (detect wn))
    by reflexivity.
  assert (Hwin0 : win (started ov wn doc) = wn) by reflexivity.
  assert (H0 : polling_alive (fst (lazyLoad ov wn doc))
               /\ config (fst (lazyLoad ov wn doc))
                  = config (started ov wn doc)).
  { pose proof (exec_config _init (started ov wn doc) _ (config_init _) eq_refl)
      as Hc1.
    rewrite lazyLoad_eq in *. unfold exec in Hc1.
    rewrite (init_old_eq (started ov wn doc)) in * by congruence.
    set (w1 := collected (torn_down_old (started ov wn doc))) in *.
    assert (H1 : checkType w1 = Some Old
                 /\ elsLength w1 = Some (Z.of_nat (length (els w1)))
                 /\ pending w1 = []).
    { unfold w1, collected, torn_down_old, cancelled.
      destruct (hasCancelAnimationFrame _); simpl; rewrite length_fmap, Hd;
        repeat split. }
    destruct H1 as (Hct1 & Hn1 & Hp1).
    destruct (_setSrcs w1) as [w2 [[]|e]] eqn:Hrun; cbn [fst snd] in *.
    - pose proof (setSrcs_old_alive w1 w2 Hct1 Hn1 Hp1 Hrun) as Ha.
      destruct (name_truthy _); [|split; assumption].
      destruct (name_string _) as [name|]; [|discriminate Hok].
      rewrite document_addEventListener_eq. cbn [fst]. split.
      + destruct Ha as (Ha1 & Ha2 & Ha3). unfold polling_alive, one_loop in *.
        case_bool_decide; destruct w2; simpl in *; repeat split; tauto.
      + rewrite <- Hc1. case_bool_decide; destruct w2; reflexivity.
    - discriminate Hok. }
  destruct H0 as [Ha Hcf]. unfold config in Hcf. injection Hcf as Hct Hop Hwin.
  destruct (run_alive evs (fst (lazyLoad ov wn doc)) Hevs) as (H1 & _ & H3);
    [congruence | congruence | exact Hcalm | exact Ha |].
  split; assumption.
Qed.

Lemma polling_runs_while_work_witness :
  let w := run_events (AnimationFrame <$> seq 1 11)
             (fst (lazyLoad no_overrides polling_browser small_page)) in
  elsLength w = Some (Z.of_nat (length (els w)))
  /\ (pending w = [] <-> els w = []).
Proof.
  apply (polling_runs_while_work no_overrides polling_browser small_page
           (AnimationFrame <$> seq 1 11)).
  - reflexivity.
  - reflexivity.
  - repeat constructor.
  - vm_compute. reflexivity.
  - vm_compute. repeat split.
Defined.

(** *** The observation strategy: where no callback can throw *)






(** *** The re-scan *)

Lemma init_eq (w : World) : _init w = _setSrcs (collected (torn_down w)).
Proof.
  unfold torn_down. destruct (checkType w) as [[]|] eqn:Hct.
  - unfold _init. rewrite bind_get, Hct, bind_ret.
    unfold set_elsLength_to_length. rewrite !bind_modify.
    rewrite htmlCollectionToArray_spec. f_equal.
    unfold collected. destruct w; simpl. rewrite length_fmap. reflexivity.
  - apply init_old_eq, Hct.
  - rewrite (init_new_eq w Hct). unfold _setSrcs. rewrite bind_get.
    replace (checkType (collected (torn_down_new w))) with (Some New);
      [reflexivity|].
    unfold collected, torn_down_new, disconnected.
    destruct (observer w); destruct w; simpl in *; congruence.
  - unfold _init. rewrite bind_get, Hct, bind_ret.
    unfold set_elsLength_to_length. rewrite !bind_modify.
    rewrite htmlCollectionToArray_spec. f_equal.
    unfold collected. destruct w; simpl. rewrite length_fmap. reflexivity.
Qed.

Lemma torn_down_frame (w : World) :
  config (torn_down w) = config w
  /\ document (torn_down w) = document w
  /\ docListeners (torn_down w) = docListeners w.
Proof.
  unfold torn_down, torn_down_old, torn_down_new, cancelled, disconnected.
  destruct (checkType w) as [[]|]; try (repeat split; reflexivity).
  - destruct (hasCancelAnimationFrame (win w)); destruct w; repeat split.
  - destruct (observer w); destruct w; repeat split.
Qed.

Lemma torn_down_cancels (w : World) (h : nat) :
  checkType w = Some Old ->
  hasCancelAnimationFrame (win w) = true ->
  frameLoop w = Some h ->
  h ∉ pending (torn_down w).
Proof.
  intros Hct Hc Hf. unfold torn_down, torn_down_old. rewrite Hct, Hc.
  unfold cancelled. destruct w; simpl in *. subst.
  intros Hin. apply list_elem_of_filter in Hin as [Hne _].
  apply Hne. reflexivity.
Qed.

Lemma torn_down_disconnects (w : World) (o : nat) (ob : Observer) :
  checkType w = Some New ->
  observer w = Some o ->
  observers (torn_down w) !! o = Some ob ->
  observed ob = ∅.
Proof.
  intros Hct Ho. unfold torn_down, torn_down_new. rewrite Hct, Ho.
  unfold disconnected. destruct w; simpl in *.
  rewrite list_lookup_alter_eq. intros H.
  apply fmap_Some in H as (ob0 & _ & ->). destruct ob0; reflexivity.
Qed.

Lemma collected_fields (w : World) :
  let ids := querySelectorAll (elementsSelector (options w)) (document w) in
  els (collected w) = Some <$> ids
  /\ elsLength (collected w) = Some (Z.of_nat (length ids))
  /\ frameCount (collected w) = Some (maxFrameCount (options w))
  /\ config (collected w) = config w
  /\ document (collected w) = document w
  /\ loop_state (collected w) = loop_state w
  /\ observers (collected w) = observers w.
Proof. unfold collected. destruct w; repeat split; reflexivity. Qed.

Lemma run_events_config (evs : list HostEvent) : forall w : World,
  config (run_events evs w) = config w.
Proof.
  induction evs as [|ev evs IH]; intros w; [reflexivity|].
  rewrite run_events_cons, IH. apply dispatch_config.
Qed.

(** Claim C3, amended.  The strategy tag is derived once, by the probe in
    the initial [lazyLoad()] call, and no callback that follows assigns
    it.  The listener of the custom document event is [_init]: it runs
    the teardown of the current tag (the frame in [frameLoop] is
    cancelled where [cancelAnimationFrame] exists, and is left pending
    where it does not; the observer in [observer] is disconnected),
    makes the working set the current selection with the frame counter
    at its maximum, and runs [_setSrcs] under the tag it found, whatever
    the environment has become. *)
Theorem checkType_derived_once :
  (forall ov wn doc evs,
     checkType (run_events evs (fst (lazyLoad ov wn doc))) = Some (detect wn))
  /\ (forall w name,
        dispatch (DocumentEvent name) w
        = if bool_decide (name ∈ docListeners w) then _init w else (w, Ok tt))
  /\ (forall w,
        _init w = _setSrcs (collected (torn_down w))
        /\ checkType (collected (torn_down w)) = checkType w
        /\ els (collected (torn_down w))
           = Some <$> querySelectorAll (elementsSelector (options w)) (document w)
        /\ frameCount (collected (torn_down w))
           = Some (maxFrameCount (options w))
        /\ checkType (exec _init w) = checkType w)
  /\ (forall w h,
        checkType w = Some Old -> frameLoop w = Some h ->
        if hasCancelAnimationFrame (win w)
        then h ∉ pending (torn_down w)
        else torn_down w = w)
  /\ (forall w o ob,
        checkType w = Some New -> observer w = Some o ->
        observers (torn_down w) !! o = Some ob -> observed ob = ∅)
  /\ (forall w, checkType w = Some ReallyOld -> torn_down w = w).
Proof.
  split; [|split; [|split; [|split; [|split]]]].
  - intros ov wn doc evs.
    pose proof (run_events_config evs (fst (lazyLoad ov wn doc))) as H.
    pose proof (lazyLoad_config ov wn doc) as H0.
    unfold config in H, H0. congruence.
  - intros w name. unfold dispatch. rewrite bind_get. unfold when.
    case_bool_decide; reflexivity.
  - intros w. destruct (torn_down_frame w) as (Hc & Hd & _).
    destruct (collected_fields (torn_down w)) as (He & _ & Hf & Hcc & _).
    unfold config in Hc, Hcc. injection Hc as Hc1 Hc2 Hc3.
    injection Hcc as Hcc1 Hcc2 Hcc3.
    split; [apply init_eq|]. split; [congruence|].
    split; [rewrite He, Hc2, Hd; reflexivity|].
    split; [rewrite Hf, Hc2; reflexivity|].
    pose proof (exec_config _init w (config w) (config_init (config w)) eq_refl)
      as H.
    unfold config in H. congruence.
  - intros w h Hct Hf. destruct (hasCancelAnimationFrame (win w)) eqn:Hc.
    + apply torn_down_cancels; assumption.
    + unfold torn_down, torn_down_old. rewrite Hct, Hc. reflexivity.
  - intros w o ob. apply torn_down_disconnects.
  - intros w Hct. unfold torn_down. rewrite Hct. reflexivity.
Qed.

(** The re-scan on the small page in the polling browser: the frame of
    the first loop is cancelled and a new one is requested. *)
Example rescan_restarts_the_loop :
  pending polled_page = [1%nat]
  /\ pending (torn_down polled_page) = []
  /\ pending (exec (dispatch (DocumentEvent "page:updated")) polled_page)
     = [2%nat].
Proof. repeat split; vm_compute; reflexivity. Qed.
